(** * Patch coverage: the correlation engine of go-patch-cover (cover.go)

    A shallow embedding of [computeCoverage], [printUncoveredLines],
    [isInvalidLine] and [isLineCovered], and the properties the design
    document states about them; then of their callers and neighbours:
    [ProcessFiles], the command's own copy of these functions and [Run]
    (command.go), the exclusion of files from the coverage profile
    (exclude_files.go) and the thresholds and the reading back of the
    command's output (package utility).

    Conventions of the embedding
    - Go's [int] and [int64] are 64-bit two's complement integers (a 64-bit
      platform): a value is a [Z] in [-2^63, 2^63), and [+], [-] wrap around
      ([add64], [sub64]).
    - Go's [float64] is Rocq's primitive binary64 [float]; the conversion
      [float64(n)] rounds to nearest even ([float64_of_int]).
    - A Go [string] is a sequence of bytes: [String.string].
    - [map[string][]Line] is a [gmap string (list Line)].  A [range] over a map
      visits the keys in an order the runtime picks; that order, and how the
      file system answers, are arguments of the embedding ([World]).
    - Slices of pointers ([[]*cover.Profile], [[]*gitdiff.File],
      [[]*gitdiff.TextFragment]) are lists of records: the parsers never
      produce a nil entry.
    - What is printed on standard output is not part of the embedding.
    - Calls out of the repository (the operating system, the diff and
      profile parsers, the regular expression, flag, JSON and template
      libraries) are arguments of the embedding: records of the answers a
      run gets ([Inputs], [Files], [Regexp], [Libraries]). *)

From Stdlib Require Import ZArith Lia Ascii String List Floats DecimalString.
From Stdlib Require DecimalPos.
From stdpp Require Import base option list gmap strings.

Local Open Scope Z_scope.

(** ** Machine integers *)

Definition wrap64 (z : Z) : Z := (z + 2 ^ 63) mod 2 ^ 64 - 2 ^ 63.
Definition add64 (a b : Z) : Z := wrap64 (a + b).
Definition sub64 (a b : Z) : Z := wrap64 (a - b).
Definition int64_range (z : Z) : Prop := - 2 ^ 63 <= z < 2 ^ 63.

(** [float64(n)] for an integer [n]: the nearest binary64, ties to even. *)
Definition float64_of_int (n : Z) : float :=
  SF2Prim (binary_normalize prec emax n 0 false).

Definition f100 : float := float64_of_int 100.

(** ** The functions of Go's [strings] package that cover.go calls

    Byte-level models.  [TrimSpace] removes leading and trailing Unicode white
    space; on the UTF-8 bytes of a string that is the removal of the encodings
    listed in [whiteSpace] (a byte sequence decodes to a white-space rune
    exactly when it is one of them). *)

Module strings.

Definition HasPrefix (s pre : string) : bool := String.prefix pre s.

(** [len(s) >= len(suffix) && s[len(s)-len(suffix):] == suffix] *)
Definition HasSuffix (s suffix : string) : bool :=
  (String.length suffix <=? String.length s)%nat
  && String.eqb
       (String.substring (String.length s - String.length suffix)
                         (String.length suffix) s)
       suffix.

Fixpoint Contains (s substr : string) : bool :=
  String.prefix substr s
  || match s with
     | EmptyString => false
     | String _ s' => Contains s' substr
     end.

(** [ReplaceAll s old new] for a non-empty [old] (the one call site passes
    a newline): every non-overlapping occurrence of [old], scanning from
    the left, becomes [new].  [skip] counts the bytes of a replaced
    occurrence that are still to be passed over. *)
Fixpoint replace_from (skip : nat) (s old new : string) : string :=
  match s with
  | EmptyString => EmptyString
  | String c s' =>
      match skip with
      | S k => replace_from k s' old new
      | O =>
          if String.prefix old s
          then String.append new (replace_from (String.length old - 1) s' old new)
          else String c (replace_from 0 s' old new)
      end
  end.
Definition ReplaceAll (s old new : string) : string := replace_from 0 s old new.

Definition bytes (codes : list nat) : string :=
  String.string_of_list_ascii (List.map ascii_of_nat codes).

(** UTF-8 encodings of the runes with Unicode's White_Space property:
    U+0009..U+000D, U+0020, U+0085, U+00A0, U+1680, U+2000..U+200A,
    U+2028, U+2029, U+202F, U+205F, U+3000. *)
Definition whiteSpace : list string :=
  List.map bytes
    [ [9]; [10]; [11]; [12]; [13]; [32];
      [194; 133]; [194; 160];
      [225; 154; 128];
      [226; 128; 128]; [226; 128; 129]; [226; 128; 130]; [226; 128; 131];
      [226; 128; 132]; [226; 128; 133]; [226; 128; 134]; [226; 128; 135];
      [226; 128; 136]; [226; 128; 137]; [226; 128; 138];
      [226; 128; 168]; [226; 128; 169]; [226; 128; 175];
      [226; 129; 159];
      [227; 128; 128] ]%nat.

(** Width in bytes of the white-space rune [s] starts with, if any. *)
Definition leadingSpace (table : list string) (s : string) : option nat :=
  String.length <$> List.find (fun w => String.prefix w s) table.

Fixpoint trim_from (table : list string) (skip : nat) (s : string) : string :=
  match s with
  | EmptyString => EmptyString
  | String _ s' =>
      match skip with
      | S k => trim_from table k s'
      | O =>
          match leadingSpace table s with
          | Some w => trim_from table (w - 1) s'
          | None => s
          end
      end
  end.

Definition TrimLeftSpace (s : string) : string := trim_from whiteSpace 0 s.
Definition TrimRightSpace (s : string) : string :=
  String.rev (trim_from (List.map String.rev whiteSpace) 0 (String.rev s)).
Definition TrimSpace (s : string) : string := TrimRightSpace (TrimLeftSpace s).

End strings.

(** ** The parsed inputs

    The fields of the external packages' types that cover.go reads. *)

Module gitdiff.
Inductive LineOp := OpContext | OpDelete | OpAdd.

Record Line := { Op : LineOp; Line_ : string }.

Record TextFragment := { NewPosition : Z; Lines : list Line }.

Record File := { NewName : string; TextFragments : list TextFragment }.
End gitdiff.

Module cover.
Record ProfileBlock :=
  { StartLine : Z; EndLine : Z; NumStmt : Z; Count : Z }.

Record Profile := { FileName : string; Blocks : list ProfileBlock }.
End cover.

(** ** The types of cover.go *)

Module Line.
(** Line Struct to store information about covered and uncovered lines *)
Record t :=
  { LineNum : Z; NumStmt : Z; CoverCount : Z; LineString : string }.
End Line.

Record CoverageData :=
  { NumStmt : Z;
    CoverCount : Z;
    Coverage : float;
    PatchNumStmt : Z;
    PatchCoverCount : Z;
    PatchCoverage : float;
    HasPrevCoverage : bool;
    PrevNumStmt : Z;
    PrevCoverCount : Z;
    PrevCoverage : float;
    Uncovered_lines : string }.

(** [var data CoverageData] *)
Definition zeroData : CoverageData :=
  {| NumStmt := 0; CoverCount := 0; Coverage := 0%float;
     PatchNumStmt := 0; PatchCoverCount := 0; PatchCoverage := 0%float;
     HasPrevCoverage := false;
     PrevNumStmt := 0; PrevCoverCount := 0; PrevCoverage := 0%float;
     Uncovered_lines := "" |}.

(** Assignments to one field of [data]. *)
Definition set_NumStmt (v : Z) (d : CoverageData) : CoverageData :=
  {| NumStmt := v; CoverCount := CoverCount d; Coverage := Coverage d;
     PatchNumStmt := PatchNumStmt d; PatchCoverCount := PatchCoverCount d;
     PatchCoverage := PatchCoverage d; HasPrevCoverage := HasPrevCoverage d;
     PrevNumStmt := PrevNumStmt d; PrevCoverCount := PrevCoverCount d;
     PrevCoverage := PrevCoverage d; Uncovered_lines := Uncovered_lines d |}.

Definition set_CoverCount (v : Z) (d : CoverageData) : CoverageData :=
  {| NumStmt := NumStmt d; CoverCount := v; Coverage := Coverage d;
     PatchNumStmt := PatchNumStmt d; PatchCoverCount := PatchCoverCount d;
     PatchCoverage := PatchCoverage d; HasPrevCoverage := HasPrevCoverage d;
     PrevNumStmt := PrevNumStmt d; PrevCoverCount := PrevCoverCount d;
     PrevCoverage := PrevCoverage d; Uncovered_lines := Uncovered_lines d |}.

Definition set_Coverage (v : float) (d : CoverageData) : CoverageData :=
  {| NumStmt := NumStmt d; CoverCount := CoverCount d; Coverage := v;
     PatchNumStmt := PatchNumStmt d; PatchCoverCount := PatchCoverCount d;
     PatchCoverage := PatchCoverage d; HasPrevCoverage := HasPrevCoverage d;
     PrevNumStmt := PrevNumStmt d; PrevCoverCount := PrevCoverCount d;
     PrevCoverage := PrevCoverage d; Uncovered_lines := Uncovered_lines d |}.

Definition set_PatchNumStmt (v : Z) (d : CoverageData) : CoverageData :=
  {| NumStmt := NumStmt d; CoverCount := CoverCount d;
     Coverage := Coverage d; PatchNumStmt := v;
     PatchCoverCount := PatchCoverCount d; PatchCoverage := PatchCoverage d;
     HasPrevCoverage := HasPrevCoverage d; PrevNumStmt := PrevNumStmt d;
     PrevCoverCount := PrevCoverCount d; PrevCoverage := PrevCoverage d;
     Uncovered_lines := Uncovered_lines d |}.

Definition set_PatchCoverCount (v : Z) (d : CoverageData) : CoverageData :=
  {| NumStmt := NumStmt d; CoverCount := CoverCount d;
     Coverage := Coverage d; PatchNumStmt := PatchNumStmt d;
     PatchCoverCount := v; PatchCoverage := PatchCoverage d;
     HasPrevCoverage := HasPrevCoverage d; PrevNumStmt := PrevNumStmt d;
     PrevCoverCount := PrevCoverCount d; PrevCoverage := PrevCoverage d;
     Uncovered_lines := Uncovered_lines d |}.

Definition set_PatchCoverage (v : float) (d : CoverageData) : CoverageData :=
  {| NumStmt := NumStmt d; CoverCount := CoverCount d;
     Coverage := Coverage d; PatchNumStmt := PatchNumStmt d;
     PatchCoverCount := PatchCoverCount d; PatchCoverage := v;
     HasPrevCoverage := HasPrevCoverage d; PrevNumStmt := PrevNumStmt d;
     PrevCoverCount := PrevCoverCount d; PrevCoverage := PrevCoverage d;
     Uncovered_lines := Uncovered_lines d |}.

Definition set_PrevNumStmt (v : Z) (d : CoverageData) : CoverageData :=
  {| NumStmt := NumStmt d; CoverCount := CoverCount d;
     Coverage := Coverage d; PatchNumStmt := PatchNumStmt d;
     PatchCoverCount := PatchCoverCount d; PatchCoverage := PatchCoverage d;
     HasPrevCoverage := HasPrevCoverage d; PrevNumStmt := v;
     PrevCoverCount := PrevCoverCount d; PrevCoverage := PrevCoverage d;
     Uncovered_lines := Uncovered_lines d |}.

Definition set_PrevCoverCount (v : Z) (d : CoverageData) : CoverageData :=
  {| NumStmt := NumStmt d; CoverCount := CoverCount d;
     Coverage := Coverage d; PatchNumStmt := PatchNumStmt d;
     PatchCoverCount := PatchCoverCount d; PatchCoverage := PatchCoverage d;
     HasPrevCoverage := HasPrevCoverage d; PrevNumStmt := PrevNumStmt d;
     PrevCoverCount := v; PrevCoverage := PrevCoverage d;
     Uncovered_lines := Uncovered_lines d |}.

Definition set_PrevCoverage (v : float) (d : CoverageData) : CoverageData :=
  {| NumStmt := NumStmt d; CoverCount := CoverCount d;
     Coverage := Coverage d; PatchNumStmt := PatchNumStmt d;
     PatchCoverCount := PatchCoverCount d; PatchCoverage := PatchCoverage d;
     HasPrevCoverage := HasPrevCoverage d; PrevNumStmt := PrevNumStmt d;
     PrevCoverCount := PrevCoverCount d; PrevCoverage := v;
     Uncovered_lines := Uncovered_lines d |}.

Definition set_Uncovered_lines (v : string) (d : CoverageData) : CoverageData :=
  {| NumStmt := NumStmt d; CoverCount := CoverCount d;
     Coverage := Coverage d; PatchNumStmt := PatchNumStmt d;
     PatchCoverCount := PatchCoverCount d; PatchCoverage := PatchCoverage d;
     HasPrevCoverage := HasPrevCoverage d; PrevNumStmt := PrevNumStmt d;
     PrevCoverCount := PrevCoverCount d; PrevCoverage := PrevCoverage d;
     Uncovered_lines := v |}.

Definition error := string.

(** What the run does not control: the outcome of [os.Create] and
    [os.ReadFile] on uncovered_lines.txt, the file's earlier content, and the
    order in which [range] visits the keys of a map.  Writes through a handle
    that [os.Create] returned are taken to succeed. *)
Record World :=
  { canCreate : bool;
    canRead : bool;
    onDisk : string;
    rangeOrder : list string -> list string }.

(** A run-time behaves like Go's when its [range] visits every key once. *)
Definition range_ok (w : World) : Prop :=
  forall keys : list string, Permutation (rangeOrder w keys) keys.

(** The one-byte string "\n". *)
Definition newline : string := String (ascii_of_nat 10) "".

(** ** isInvalidLine, isLineCovered *)

(** comments, and structs are excluded from uncovered lines *)
Definition isInvalidLine (line : string) : bool :=
  let line := strings.TrimSpace line in
  strings.HasPrefix line "//"
  || strings.HasPrefix line "/*"
  || strings.HasSuffix line "*/"
  || String.eqb line ""
  || strings.Contains line "`json:".

Fixpoint isLineCovered (line : Line.t) (coveredLines : list Line.t) : bool :=
  match coveredLines with
  | [] => false
  | coveredLine :: rest =>
      if (Line.LineNum coveredLine =? Line.LineNum line)
         && String.eqb (Line.LineString coveredLine) (Line.LineString line)
         && (Line.CoverCount coveredLine =? Line.CoverCount line)
      then true
      else isLineCovered line rest
  end.

(** ** computeCoverage: patch coverage (cover.go, lines 96 to 144) *)

(** The variables the loops update. *)
Record Acc :=
  { data : CoverageData;
    coveredLines : gmap string (list Line.t);
    partiallyCoveredLines : gmap string (list Line.t) }.

Definition zeroAcc : Acc :=
  {| data := zeroData; coveredLines := ∅; partiallyCoveredLines := ∅ |}.

(** [m[k] = append(m[k], l)] *)
Definition appendAt (k : string) (l : Line.t) (m : gmap string (list Line.t))
  : gmap string (list Line.t) :=
  <[k := (m !!! k) ++ [l]]> m.

Definition inBlock (b : cover.ProfileBlock) (lineNum : Z) : bool :=
  (cover.StartLine b <=? lineNum) && (lineNum <=? cover.EndLine b).

(** [for i, line := range t.Lines], from index [i] on, for the block [b]:
    the first Add line whose number lies in the block, if any. *)
Fixpoint scanLines (b : cover.ProfileBlock) (NewPosition : Z) (i : nat)
    (lines : list gitdiff.Line) : option (Z * string) :=
  match lines with
  | [] => None
  | line :: rest =>
      match gitdiff.Op line with
      | gitdiff.OpAdd =>
          let lineNum := add64 NewPosition (Z.of_nat i) in
          let lineString := strings.ReplaceAll (gitdiff.Line_ line) newline "" in
          if inBlock b lineNum then Some (lineNum, lineString)
          else scanLines b NewPosition (S i) rest
      | _ => scanLines b NewPosition (S i) rest
      end
  end.

(** [for _, t := range f.TextFragments] *)
Fixpoint scanFragments (b : cover.ProfileBlock) (frags : list gitdiff.TextFragment)
  : option (Z * string) :=
  match frags with
  | [] => None
  | t :: rest =>
      match scanLines b (gitdiff.NewPosition t) 0 (gitdiff.Lines t) with
      | Some hit => Some hit
      | None => scanFragments b rest
      end
  end.

(** The body of [if b.StartLine <= lineNum && lineNum <= b.EndLine], up to
    [continue blockloop]. *)
Definition credit (p : cover.Profile) (b : cover.ProfileBlock)
    (lineNum : Z) (lineString : string) (a : Acc) : Acc :=
  let l := {| Line.LineNum := lineNum; Line.NumStmt := cover.NumStmt b;
              Line.CoverCount := cover.Count b; Line.LineString := lineString |} in
  let d := set_PatchNumStmt (add64 (PatchNumStmt (data a)) (cover.NumStmt b)) (data a) in
  if 0 <? cover.Count b then
    {| data := set_PatchCoverCount (add64 (PatchCoverCount d) (cover.NumStmt b)) d;
       coveredLines := appendAt (cover.FileName p) l (coveredLines a);
       partiallyCoveredLines := partiallyCoveredLines a |}
  else
    {| data := d;
       coveredLines := coveredLines a;
       partiallyCoveredLines := appendAt (cover.FileName p) l (partiallyCoveredLines a) |}.

(** One iteration of [blockloop]. *)
Definition blockStep (p : cover.Profile) (f : gitdiff.File) (a : Acc)
    (b : cover.ProfileBlock) : Acc :=
  match scanFragments b (gitdiff.TextFragments f) with
  | Some (lineNum, lineString) => credit p b lineNum lineString a
  | None => a
  end.

(** One iteration of [for _, f := range diffFiles]. *)
Definition fileStep (p : cover.Profile) (a : Acc) (f : gitdiff.File) : Acc :=
  if negb (strings.HasSuffix (cover.FileName p) (gitdiff.NewName f)) then a
  else fold_left (blockStep p f) (cover.Blocks p) a.

(** One iteration of [for _, p := range coverProfiles]. *)
Definition profileStep (diffFiles : list gitdiff.File) (a : Acc) (p : cover.Profile) : Acc :=
  fold_left (fileStep p) diffFiles a.

Definition patchCoverage (diffFiles : list gitdiff.File)
    (coverProfiles : list cover.Profile) (a : Acc) : Acc :=
  fold_left (profileStep diffFiles) coverProfiles a.

(** ** computeCoverage: total coverage, prev total coverage (lines 146 to 164) *)

Definition totalBlock (d : CoverageData) (b : cover.ProfileBlock) : CoverageData :=
  let d := set_NumStmt (add64 (NumStmt d) (cover.NumStmt b)) d in
  if 0 <? cover.Count b
  then set_CoverCount (add64 (CoverCount d) (cover.NumStmt b)) d
  else d.

Definition totalCoverage (coverProfiles : list cover.Profile) (d : CoverageData)
  : CoverageData :=
  fold_left (fun d p => fold_left totalBlock (cover.Blocks p) d) coverProfiles d.

Definition prevBlock (d : CoverageData) (b : cover.ProfileBlock) : CoverageData :=
  let d := set_PrevNumStmt (add64 (PrevNumStmt d) (cover.NumStmt b)) d in
  if 0 <? cover.Count b
  then set_PrevCoverCount (add64 (PrevCoverCount d) (cover.NumStmt b)) d
  else d.

Definition prevCoverage (prevCoverProfiles : list cover.Profile) (d : CoverageData)
  : CoverageData :=
  fold_left (fun d p => fold_left prevBlock (cover.Blocks p) d) prevCoverProfiles d.

(** ** printUncoveredLines *)

(** [fmt.Sprintf("%d", n)] *)
Definition Sprintf_d (n : Z) : string := NilZero.string_of_int (Z.to_int n).

(** One iteration of [for _, line := range lines]; [ok] and [covered] are
    [_, ok := coveredLines[fileName]] and [coveredLines[fileName]]. *)
Definition lineStep (ok : bool) (covered : list Line.t)
    (st : list Line.t * CoverageData) (line : Line.t) : list Line.t * CoverageData :=
  let '(uncoveredLines, d) := st in
  let uncovered := negb ok || negb (isLineCovered line covered) in
  if negb (isInvalidLine (Line.LineString line)) then
    if uncovered then (uncoveredLines ++ [line], d) else (uncoveredLines, d)
  else
    let d := set_PatchNumStmt (sub64 (PatchNumStmt d) (Line.NumStmt line)) d in
    if negb uncovered
    then (uncoveredLines, set_PatchCoverCount (sub64 (PatchCoverCount d) (Line.NumStmt line)) d)
    else (uncoveredLines, d).

(** The two [file.WriteString] calls of the innermost loop. *)
Definition renderLine (line : Line.t) : string :=
  ("LineNum: " +:+ Sprintf_d (Line.LineNum line) +:+ newline)
  +:+ ("Lines:" +:+ newline +:+ " <code>" +:+ Line.LineString line +:+ "</code>" +:+ newline).

(** What is written for one file that has uncovered lines left. *)
Definition renderSection (fileName : string) (uncoveredLines : list Line.t) : string :=
  ("<pre>" +:+ newline)
  +:+ ("Uncovered lines in " +:+ fileName +:+ ":" +:+ newline)
  +:+ String.concat "" (renderLine <$> uncoveredLines)
  +:+ (newline +:+ "-----------------------" +:+ newline)
  +:+ ("</pre>" +:+ newline).

(** One iteration of [for fileName, lines := range partiallyCoveredLines];
    the state is what has been written so far, and [data]. *)
Definition fileNameStep (partiallyCoveredLines coveredLines : gmap string (list Line.t))
    (st : string * CoverageData) (fileName : string) : string * CoverageData :=
  let '(written, d) := st in
  let lines := partiallyCoveredLines !!! fileName in
  let ok := bool_decide (is_Some (coveredLines !! fileName)) in
  let '(uncoveredLines, d) :=
    fold_left (lineStep ok (coveredLines !!! fileName)) lines ([], d) in
  if (0 <? length uncoveredLines)%nat
  then (written +:+ renderSection fileName uncoveredLines, d)
  else (written, d).

(** The keys of a map, in the order [range] visits them in world [w]. *)
Definition rangeKeys {A} (w : World) (m : gmap string A) : list string :=
  rangeOrder w (map_to_list m).*1.

Definition printUncoveredLines (w : World)
    (partiallyCoveredLines coveredLines : gmap string (list Line.t))
    (d : CoverageData) : CoverageData :=
  let '(written, d) :=
    fold_left (fileNameStep partiallyCoveredLines coveredLines)
              (rangeKeys w partiallyCoveredLines) ("", d) in
  (* [os.Create] truncates; without a handle every write is dropped *)
  let file := if canCreate w then written else onDisk w in
  (* [os.ReadFile]: on an error [content] is nil *)
  let content := if canRead w then file else "" in
  set_Uncovered_lines content d.

(** ** computeCoverage *)

Definition percent (coverCount numStmt : Z) : float :=
  (float64_of_int coverCount / float64_of_int numStmt * f100)%float.

Definition percentages (d : CoverageData) : CoverageData :=
  let d := if negb (NumStmt d =? 0)
           then set_Coverage (percent (CoverCount d) (NumStmt d)) d else d in
  let d := if negb (PatchNumStmt d =? 0)
           then set_PatchCoverage (percent (PatchCoverCount d) (PatchNumStmt d)) d else d in
  let d := if negb (PrevNumStmt d =? 0)
           then set_PrevCoverage (percent (PrevCoverCount d) (PrevNumStmt d)) d else d in
  (* Condition to set coverage to 100% if no lines added in PR *)
  if PatchNumStmt d =? 0 then set_PatchCoverage f100 d else d.

Definition computeCoverage (w : World) (diffFiles : list gitdiff.File)
    (coverProfiles prevCoverProfiles : list cover.Profile)
  : CoverageData * option error :=
  let a := patchCoverage diffFiles coverProfiles zeroAcc in
  let d := totalCoverage coverProfiles (data a) in
  let d := prevCoverage prevCoverProfiles d in
  let d := printUncoveredLines w (partiallyCoveredLines a) (coveredLines a) d in
  (percentages d, None).

(** ** Sums over the lines a map holds (used to state the properties) *)

Definition Zsum (l : list Z) : Z := foldr Z.add 0 l.

(** The sum of [g] over every [Line] stored in [m]. *)
Definition mapSum (g : Line.t -> Z) (m : gmap string (list Line.t)) : Z :=
  Zsum ((fun kv : string * list Line.t => Zsum (g <$> kv.2)) <$> map_to_list m).

(** ** Notions used to state the properties *)

(** Number of [Line] records held by the two maps: one is appended each time
    a block is credited to the patch. *)
Definition credits (a : Acc) : Z :=
  mapSum (fun _ => 1) (coveredLines a) + mapSum (fun _ => 1) (partiallyCoveredLines a).


(** The diff files a profile is matched with. *)
Definition matched (p : cover.Profile) (diffFiles : list gitdiff.File) : list gitdiff.File :=
  List.filter (fun f => strings.HasSuffix (cover.FileName p) (gitdiff.NewName f)) diffFiles.

Definition stmtTotal (profiles : list cover.Profile) : Z :=
  Zsum ((fun p => Zsum (cover.NumStmt <$> cover.Blocks p)) <$> profiles).

Definition nonnegStmts (profiles : list cover.Profile) : Prop :=
  forall p b, In p profiles -> In b (cover.Blocks p) -> 0 <= cover.NumStmt b.

Definition report_bounded (r : CoverageData) : Prop :=
  CoverCount r <= NumStmt r
  /\ PatchCoverCount r <= PatchNumStmt r
  /\ PrevCoverCount r <= PrevNumStmt r.

(** ** Sample inputs *)

Definition addLine (s : string) : gitdiff.Line :=
  {| gitdiff.Op := gitdiff.OpAdd; gitdiff.Line_ := s +:+ newline |}.
Definition contextLine (s : string) : gitdiff.Line :=
  {| gitdiff.Op := gitdiff.OpContext; gitdiff.Line_ := s +:+ newline |}.
Definition oneHunk (name : string) (pos : Z) (lines : list gitdiff.Line) : gitdiff.File :=
  {| gitdiff.NewName := name;
     gitdiff.TextFragments := [ {| gitdiff.NewPosition := pos; gitdiff.Lines := lines |} ] |}.
Definition block (s e n c : Z) : cover.ProfileBlock :=
  {| cover.StartLine := s; cover.EndLine := e; cover.NumStmt := n; cover.Count := c |}.
Definition profile (name : string) (bs : list cover.ProfileBlock) : cover.Profile :=
  {| cover.FileName := name; cover.Blocks := bs |}.

(** A file system that works, with [range] visiting keys in the given order. *)
Definition worldWith (order : list string -> list string) : World :=
  {| canCreate := true; canRead := true; onDisk := ""; rangeOrder := order |}.
Definition world0 : World := worldWith (fun keys => keys).
Definition world1 : World := worldWith (@List.rev string).

(** A hunk starting at line 9 with one context line before the added one. *)
Definition hunkAt9 : gitdiff.File :=
  oneHunk "a.go" 9 [contextLine "x"; addLine "a := 1"; addLine "b := 2"; addLine "c := 3"].
Definition profileA (count : Z) : cover.Profile :=
  profile "example.com/m/a.go" [block 10 12 2 count].

(** Two names of the diff that are both suffixes of one profile name. *)
Definition twoNames : list gitdiff.File :=
  [oneHunk "a/x.go" 1 [addLine "f()"]; oneHunk "x.go" 1 [addLine "f()"]].
Definition profileX : cover.Profile := profile "m/a/x.go" [block 1 1 1 1].


(** The profile name ends with the diff file's new name. *)
Definition endsWith (s suffix : string) : Prop := exists pre, s = pre +:+ suffix.

(** The covered set holds lines of executed blocks only, the candidate set
    lines of blocks that were not executed. *)
Definition counts_split (a : Acc) : Prop :=
  (forall k ls l, coveredLines a !! k = Some ls -> In l ls -> 0 < Line.CoverCount l)
  /\ (forall k ls l, partiallyCoveredLines a !! k = Some ls -> In l ls ->
        Line.CoverCount l <= 0).

(** The candidate lines of one file that stay in the report, and the
    statement counts taken back for the others. *)
Definition validLines (lines : list Line.t) : list Line.t :=
  List.filter (fun l => negb (isInvalidLine (Line.LineString l))) lines.
Definition invalidStmts (lines : list Line.t) : list Z :=
  Line.NumStmt <$> List.filter (fun l => isInvalidLine (Line.LineString l)) lines.

(** The text written for file [k]: nothing when no candidate line is valid. *)
Definition sectionOf (P : gmap string (list Line.t)) (k : string) : string :=
  let u := validLines (P !!! k) in
  if (0 <? length u)%nat then renderSection k u else "".

(** The statement counts step 4 takes back, file by file in visiting order. *)
Definition takenBack (P : gmap string (list Line.t)) (keys : list string) : list Z :=
  flat_map (fun k => invalidStmts (P !!! k)) keys.

(** What [os.ReadFile] yields once [written] has been sent to the handle. *)
Definition readBack (w : World) (written : string) : string :=
  if canRead w then (if canCreate w then written else onDisk w) else "".

(** The same run-time, with [os.Create] failing. *)
Definition failCreate (w : World) : World :=
  {| canCreate := false; canRead := canRead w; onDisk := onDisk w;
     rangeOrder := rangeOrder w |}.

(** No percentage has been assigned yet. *)
Definition floatsZero (d : CoverageData) : Prop :=
  Coverage d = 0%float /\ PatchCoverage d = 0%float /\ PrevCoverage d = 0%float.

(** A comment added at line 10, and a one-statement block over that line. *)
Definition commentAt10 : gitdiff.File := oneHunk "a.go" 10 [addLine "// only a comment"].
Definition blockAt10 (count : Z) : cover.Profile := profile "a.go" [block 10 10 1 count].

(** Statements of the blocks that were executed. *)
Definition coveredWeight (b : cover.ProfileBlock) : Z :=
  if 0 <? cover.Count b then cover.NumStmt b else 0.
Definition coveredTotal (profiles : list cover.Profile) : Z :=
  Zsum ((fun p => Zsum (coveredWeight <$> cover.Blocks p)) <$> profiles).

(** What a candidate line weighs in step 4. *)
Definition invalidWeight (l : Line.t) : Z :=
  if isInvalidLine (Line.LineString l) then Line.NumStmt l else 0.
Definition validWeight (l : Line.t) : Z :=
  if isInvalidLine (Line.LineString l) then 0 else Line.NumStmt l.

(** Only the two patch counters differ from the zero value. *)
Definition patchOnly (d : CoverageData) : Prop :=
  d = set_PatchCoverCount (PatchCoverCount d) (set_PatchNumStmt (PatchNumStmt d) zeroData).

(** The patch counters are the sums, in machine arithmetic, of the statement
    counts of the recorded lines. *)
Definition sums_inv (a : Acc) : Prop :=
  PatchNumStmt (data a)
  = wrap64 (mapSum Line.NumStmt (coveredLines a)
            + mapSum Line.NumStmt (partiallyCoveredLines a))
  /\ PatchCoverCount (data a) = wrap64 (mapSum Line.NumStmt (coveredLines a)).

(** The report before the percentages are filled in. *)
Definition rawReport (w : World) (diffFiles : list gitdiff.File)
    (coverProfiles prevCoverProfiles : list cover.Profile) : CoverageData :=
  let a := patchCoverage diffFiles coverProfiles zeroAcc in
  let P := partiallyCoveredLines a in
  {| NumStmt := wrap64 (stmtTotal coverProfiles);
     CoverCount := wrap64 (coveredTotal coverProfiles);
     Coverage := 0%float;
     PatchNumStmt := fold_left sub64 (takenBack P (rangeKeys w P)) (PatchNumStmt (data a));
     PatchCoverCount := PatchCoverCount (data a);
     PatchCoverage := 0%float;
     HasPrevCoverage := false;
     PrevNumStmt := wrap64 (stmtTotal prevCoverProfiles);
     PrevCoverCount := wrap64 (coveredTotal prevCoverProfiles);
     PrevCoverage := 0%float;
     Uncovered_lines := readBack w (String.concat "" (sectionOf P <$> rangeKeys w P)) |}.

(** Every recorded line carries a non-negative statement count. *)
Definition lines_nonneg (a : Acc) : Prop :=
  (forall k ls l, coveredLines a !! k = Some ls -> In l ls -> 0 <= Line.NumStmt l)
  /\ (forall k ls l, partiallyCoveredLines a !! k = Some ls -> In l ls ->
        0 <= Line.NumStmt l).

(** The statements credited so far, as an unbounded integer. *)
Definition creditedStmts (a : Acc) : Z :=
  mapSum Line.NumStmt (coveredLines a) + mapSum Line.NumStmt (partiallyCoveredLines a).

(** Two blocks whose statement counts add up to 2^63. *)
Definition overflowing : list cover.Profile :=
  [profile "a.go" [block 1 1 (2 ^ 63 - 1) 1; block 2 2 1 0]].

(** Two files with one valid, unexecuted added line each. *)
Definition twoFiles : list gitdiff.File :=
  [oneHunk "b.go" 20 [addLine "x()"]; oneHunk "c.go" 20 [addLine "y()"]].
Definition twoProfiles : list cover.Profile :=
  [profile "m/b.go" [block 20 20 1 0]; profile "m/c.go" [block 20 20 3 0]].

(** Two runs in the same file-system conditions give the same report. *)
Definition deterministic (diffFiles : list gitdiff.File)
    (coverProfiles prevCoverProfiles : list cover.Profile) : Prop :=
  forall w1 w2,
    range_ok w1 -> range_ok w2 ->
    canCreate w1 = canCreate w2 -> canRead w1 = canRead w2 -> onDisk w1 = onDisk w2 ->
    computeCoverage w1 diffFiles coverProfiles prevCoverProfiles
    = computeCoverage w2 diffFiles coverProfiles prevCoverProfiles.

(** A run of white-space runes: a concatenation of entries of [table]. *)
Definition spacesOf (table : list string) (s : string) : Prop :=
  exists ws, Forall (fun w => In w table) ws /\ s = String.concat "" ws.

(** [dropS n s] is [s[n:]], and all of nothing when [s] is shorter. *)
Fixpoint dropS (n : nat) (s : string) : string :=
  match n, s with
  | O, _ => s
  | S k, String _ s' => dropS k s'
  | S _, EmptyString => EmptyString
  end.

(** * More of cover.go, and its callers *)

(** No line of the diff is an added line. *)
Definition noAddLines (diffFiles : list gitdiff.File) : Prop :=
  forall f t line,
    In f diffFiles -> In t (gitdiff.TextFragments f) -> In line (gitdiff.Lines t) ->
    gitdiff.Op line <> gitdiff.OpAdd.

(** Some added line of [f] has its number within the block. *)
Definition addLineIn (b : cover.ProfileBlock) (f : gitdiff.File) : Prop :=
  exists t (j : nat) line,
    In t (gitdiff.TextFragments f)
    /\ gitdiff.Lines t !! j = Some line
    /\ gitdiff.Op line = gitdiff.OpAdd
    /\ inBlock b (add64 (gitdiff.NewPosition t) (Z.of_nat j)) = true.

(** A diff of deletions only. *)
Definition deletionsOnly : gitdiff.File :=
  oneHunk "a.go" 10
    [ {| gitdiff.Op := gitdiff.OpDelete; gitdiff.Line_ := "a := 1" +:+ newline |};
      contextLine "b := 2" ].

(** ** The patch counters, read off the inputs *)

(** The statements a block brings to [PatchCoverCount] for a matched diff
    file: those of an executed block one of whose lines was added. *)
Definition coveredStmts (f : gitdiff.File) (b : cover.ProfileBlock) : Z :=
  match scanFragments b (gitdiff.TextFragments f) with
  | Some _ => if 0 <? cover.Count b then cover.NumStmt b else 0
  | None => 0
  end.

(** The statements a block brings to the final [PatchNumStmt]: an executed
    block counts whatever the text of its first added line, another one only
    when that text is valid. *)
Definition countedStmts (f : gitdiff.File) (b : cover.ProfileBlock) : Z :=
  match scanFragments b (gitdiff.TextFragments f) with
  | Some (_, s) =>
      if (0 <? cover.Count b) || negb (isInvalidLine s) then cover.NumStmt b else 0
  | None => 0
  end.

(** The sum of [term] over every profile, every diff file matched with it and
    every block of the profile. *)
Definition overPatch (term : gitdiff.File -> cover.ProfileBlock -> Z)
    (diffFiles : list gitdiff.File) (profiles : list cover.Profile) : Z :=
  Zsum ((fun p =>
           Zsum ((fun f => Zsum (term f <$> cover.Blocks p)) <$> matched p diffFiles))
        <$> profiles).

(** ** ProcessFiles (cover.go, lines 22 to 53) *)

Definition set_HasPrevCoverage (v : bool) (d : CoverageData) : CoverageData :=
  {| NumStmt := NumStmt d; CoverCount := CoverCount d;
     Coverage := Coverage d; PatchNumStmt := PatchNumStmt d;
     PatchCoverCount := PatchCoverCount d; PatchCoverage := PatchCoverage d;
     HasPrevCoverage := v; PrevNumStmt := PrevNumStmt d;
     PrevCoverCount := PrevCoverCount d; PrevCoverage := PrevCoverage d;
     Uncovered_lines := Uncovered_lines d |}.

(** A Go result [(v, err)]: the value when [err == nil], the error otherwise. *)
Inductive result (A : Type) : Type :=
| Ok (v : A)
| Err (err : error).
Arguments Ok {A} v.
Arguments Err {A} err.

(** What the calls out of the package answer during one run: [os.Open] on a
    file name (the content behind the handle), [gitdiff.Parse] on that
    content, [cover.ParseProfiles] on a file name. *)
Record Inputs :=
  { os_Open : string -> result string;
    gitdiff_Parse : string -> result (list gitdiff.File);
    cover_ParseProfiles : string -> result (list cover.Profile) }.

Definition ProcessFiles (io : Inputs) (w : World)
    (coverageFile diffFile prevCovFile : string) : CoverageData * option error :=
  match os_Open io diffFile with
  | Err err => (zeroData, Some err)
  | Ok patch =>
  match gitdiff_Parse io patch with
  | Err err => (zeroData, Some err)
  | Ok files =>
  match cover_ParseProfiles io coverageFile with
  | Err err => (zeroData, Some err)
  | Ok profiles =>
  (* [var prevProfiles []*cover.Profile] stays nil unless a name was given *)
  match (if negb (String.eqb prevCovFile "")
         then cover_ParseProfiles io prevCovFile else Ok []) with
  | Err err => (zeroData, Some err)
  | Ok prevProfiles =>
  match computeCoverage w files profiles prevProfiles with
  | (_, Some err) => (zeroData, Some err)
  | (d, None) => (set_HasPrevCoverage (negb (String.eqb prevCovFile "")) d, None)
  end end end end end.

(** Every file is there and parses: the diff of [hunkAt9], one profile. *)
Definition inputsA : Inputs :=
  {| os_Open := fun name => if String.eqb name "patch.diff" then Ok "diff" else Err "open";
     gitdiff_Parse := fun content => Ok [hunkAt9];
     cover_ParseProfiles := fun name =>
       if String.eqb name "coverage.out" then Ok [profileA 3]
       else if String.eqb name "prev.out" then Ok []
       else Err "no such file" |}.

(** * cmd/go-patch-cover/command.go: the command's own copy

    Package main carries its own [ProcessFiles], [computeCoverage] and
    [printUncoveredLines] (lines 151 to 394).  Its [CoverageData] has no
    [Uncovered_lines] field and its [printUncoveredLines] writes the side
    file without reading it back.  Its [Line], [isInvalidLine] and
    [isLineCovered] repeat those of cover.go word for word, so the
    definitions above serve for both. *)

Module main.

Record CoverageData :=
  { NumStmt : Z;
    CoverCount : Z;
    Coverage : float;
    PatchNumStmt : Z;
    PatchCoverCount : Z;
    PatchCoverage : float;
    HasPrevCoverage : bool;
    PrevNumStmt : Z;
    PrevCoverCount : Z;
    PrevCoverage : float }.

(** [var data CoverageData] *)
Definition zeroData : CoverageData :=
  {| NumStmt := 0;
     CoverCount := 0;
     Coverage := 0%float;
     PatchNumStmt := 0;
     PatchCoverCount := 0;
     PatchCoverage := 0%float;
     HasPrevCoverage := false;
     PrevNumStmt := 0;
     PrevCoverCount := 0;
     PrevCoverage := 0%float |}.

Definition set_NumStmt (v : Z) (d : CoverageData) : CoverageData :=
  {| NumStmt := v;
     CoverCount := CoverCount d;
     Coverage := Coverage d;
     PatchNumStmt := PatchNumStmt d;
     PatchCoverCount := PatchCoverCount d;
     PatchCoverage := PatchCoverage d;
     HasPrevCoverage := HasPrevCoverage d;
     PrevNumStmt := PrevNumStmt d;
     PrevCoverCount := PrevCoverCount d;
     PrevCoverage := PrevCoverage d |}.

Definition set_CoverCount (v : Z) (d : CoverageData) : CoverageData :=
  {| NumStmt := NumStmt d;
     CoverCount := v;
     Coverage := Coverage d;
     PatchNumStmt := PatchNumStmt d;
     PatchCoverCount := PatchCoverCount d;
     PatchCoverage := PatchCoverage d;
     HasPrevCoverage := HasPrevCoverage d;
     PrevNumStmt := PrevNumStmt d;
     PrevCoverCount := PrevCoverCount d;
     PrevCoverage := PrevCoverage d |}.

Definition set_Coverage (v : float) (d : CoverageData) : CoverageData :=
  {| NumStmt := NumStmt d;
     CoverCount := CoverCount d;
     Coverage := v;
     PatchNumStmt := PatchNumStmt d;
     PatchCoverCount := PatchCoverCount d;
     PatchCoverage := PatchCoverage d;
     HasPrevCoverage := HasPrevCoverage d;
     PrevNumStmt := PrevNumStmt d;
     PrevCoverCount := PrevCoverCount d;
     PrevCoverage := PrevCoverage d |}.

Definition set_PatchNumStmt (v : Z) (d : CoverageData) : CoverageData :=
  {| NumStmt := NumStmt d;
     CoverCount := CoverCount d;
     Coverage := Coverage d;
     PatchNumStmt := v;
     PatchCoverCount := PatchCoverCount d;
     PatchCoverage := PatchCoverage d;
     HasPrevCoverage := HasPrevCoverage d;
     PrevNumStmt := PrevNumStmt d;
     PrevCoverCount := PrevCoverCount d;
     PrevCoverage := PrevCoverage d |}.

Definition set_PatchCoverCount (v : Z) (d : CoverageData) : CoverageData :=
  {| NumStmt := NumStmt d;
     CoverCount := CoverCount d;
     Coverage := Coverage d;
     PatchNumStmt := PatchNumStmt d;
     PatchCoverCount := v;
     PatchCoverage := PatchCoverage d;
     HasPrevCoverage := HasPrevCoverage d;
     PrevNumStmt := PrevNumStmt d;
     PrevCoverCount := PrevCoverCount d;
     PrevCoverage := PrevCoverage d |}.

Definition set_PatchCoverage (v : float) (d : CoverageData) : CoverageData :=
  {| NumStmt := NumStmt d;
     CoverCount := CoverCount d;
     Coverage := Coverage d;
     PatchNumStmt := PatchNumStmt d;
     PatchCoverCount := PatchCoverCount d;
     PatchCoverage := v;
     HasPrevCoverage := HasPrevCoverage d;
     PrevNumStmt := PrevNumStmt d;
     PrevCoverCount := PrevCoverCount d;
     PrevCoverage := PrevCoverage d |}.

Definition set_HasPrevCoverage (v : bool) (d : CoverageData) : CoverageData :=
  {| NumStmt := NumStmt d;
     CoverCount := CoverCount d;
     Coverage := Coverage d;
     PatchNumStmt := PatchNumStmt d;
     PatchCoverCount := PatchCoverCount d;
     PatchCoverage := PatchCoverage d;
     HasPrevCoverage := v;
     PrevNumStmt := PrevNumStmt d;
     PrevCoverCount := PrevCoverCount d;
     PrevCoverage := PrevCoverage d |}.

Definition set_PrevNumStmt (v : Z) (d : CoverageData) : CoverageData :=
  {| NumStmt := NumStmt d;
     CoverCount := CoverCount d;
     Coverage := Coverage d;
     PatchNumStmt := PatchNumStmt d;
     PatchCoverCount := PatchCoverCount d;
     PatchCoverage := PatchCoverage d;
     HasPrevCoverage := HasPrevCoverage d;
     PrevNumStmt := v;
     PrevCoverCount := PrevCoverCount d;
     PrevCoverage := PrevCoverage d |}.

Definition set_PrevCoverCount (v : Z) (d : CoverageData) : CoverageData :=
  {| NumStmt := NumStmt d;
     CoverCount := CoverCount d;
     Coverage := Coverage d;
     PatchNumStmt := PatchNumStmt d;
     PatchCoverCount := PatchCoverCount d;
     PatchCoverage := PatchCoverage d;
     HasPrevCoverage := HasPrevCoverage d;
     PrevNumStmt := PrevNumStmt d;
     PrevCoverCount := v;
     PrevCoverage := PrevCoverage d |}.

Definition set_PrevCoverage (v : float) (d : CoverageData) : CoverageData :=
  {| NumStmt := NumStmt d;
     CoverCount := CoverCount d;
     Coverage := Coverage d;
     PatchNumStmt := PatchNumStmt d;
     PatchCoverCount := PatchCoverCount d;
     PatchCoverage := PatchCoverage d;
     HasPrevCoverage := HasPrevCoverage d;
     PrevNumStmt := PrevNumStmt d;
     PrevCoverCount := PrevCoverCount d;
     PrevCoverage := v |}.

(** ** computeCoverage (lines 213 to 307) *)

Record Acc :=
  { data : CoverageData;
    coveredLines : gmap string (list Line.t);
    partiallyCoveredLines : gmap string (list Line.t) }.

Definition zeroAcc : Acc :=
  {| data := zeroData; coveredLines := ∅; partiallyCoveredLines := ∅ |}.

Definition credit (p : cover.Profile) (b : cover.ProfileBlock)
    (lineNum : Z) (lineString : string) (a : Acc) : Acc :=
  let l := {| Line.LineNum := lineNum; Line.NumStmt := cover.NumStmt b;
              Line.CoverCount := cover.Count b; Line.LineString := lineString |} in
  let d := set_PatchNumStmt (add64 (PatchNumStmt (data a)) (cover.NumStmt b)) (data a) in
  if 0 <? cover.Count b then
    {| data := set_PatchCoverCount (add64 (PatchCoverCount d) (cover.NumStmt b)) d;
       coveredLines := appendAt (cover.FileName p) l (coveredLines a);
       partiallyCoveredLines := partiallyCoveredLines a |}
  else
    {| data := d;
       coveredLines := coveredLines a;
       partiallyCoveredLines := appendAt (cover.FileName p) l (partiallyCoveredLines a) |}.

Definition blockStep (p : cover.Profile) (f : gitdiff.File) (a : Acc)
    (b : cover.ProfileBlock) : Acc :=
  match scanFragments b (gitdiff.TextFragments f) with
  | Some (lineNum, lineString) => credit p b lineNum lineString a
  | None => a
  end.

Definition fileStep (p : cover.Profile) (a : Acc) (f : gitdiff.File) : Acc :=
  if negb (strings.HasSuffix (cover.FileName p) (gitdiff.NewName f)) then a
  else fold_left (blockStep p f) (cover.Blocks p) a.

Definition profileStep (diffFiles : list gitdiff.File) (a : Acc) (p : cover.Profile) : Acc :=
  fold_left (fileStep p) diffFiles a.

Definition patchCoverage (diffFiles : list gitdiff.File)
    (coverProfiles : list cover.Profile) (a : Acc) : Acc :=
  fold_left (profileStep diffFiles) coverProfiles a.

Definition totalBlock (d : CoverageData) (b : cover.ProfileBlock) : CoverageData :=
  let d := set_NumStmt (add64 (NumStmt d) (cover.NumStmt b)) d in
  if 0 <? cover.Count b
  then set_CoverCount (add64 (CoverCount d) (cover.NumStmt b)) d
  else d.

Definition totalCoverage (coverProfiles : list cover.Profile) (d : CoverageData)
  : CoverageData :=
  fold_left (fun d p => fold_left totalBlock (cover.Blocks p) d) coverProfiles d.

Definition prevBlock (d : CoverageData) (b : cover.ProfileBlock) : CoverageData :=
  let d := set_PrevNumStmt (add64 (PrevNumStmt d) (cover.NumStmt b)) d in
  if 0 <? cover.Count b
  then set_PrevCoverCount (add64 (PrevCoverCount d) (cover.NumStmt b)) d
  else d.

Definition prevCoverage (prevCoverProfiles : list cover.Profile) (d : CoverageData)
  : CoverageData :=
  fold_left (fun d p => fold_left prevBlock (cover.Blocks p) d) prevCoverProfiles d.

(** ** printUncoveredLines (lines 317 to 371) *)

Definition lineStep (ok : bool) (covered : list Line.t)
    (st : list Line.t * CoverageData) (line : Line.t) : list Line.t * CoverageData :=
  let '(uncoveredLines, d) := st in
  let uncovered := negb ok || negb (isLineCovered line covered) in
  if negb (isInvalidLine (Line.LineString line)) then
    if uncovered then (uncoveredLines ++ [line], d) else (uncoveredLines, d)
  else
    let d := set_PatchNumStmt (sub64 (PatchNumStmt d) (Line.NumStmt line)) d in
    if negb uncovered
    then (uncoveredLines, set_PatchCoverCount (sub64 (PatchCoverCount d) (Line.NumStmt line)) d)
    else (uncoveredLines, d).

Definition fileNameStep (partiallyCoveredLines coveredLines : gmap string (list Line.t))
    (st : string * CoverageData) (fileName : string) : string * CoverageData :=
  let '(written, d) := st in
  let lines := partiallyCoveredLines !!! fileName in
  let ok := bool_decide (is_Some (coveredLines !! fileName)) in
  let '(uncoveredLines, d) :=
    fold_left (lineStep ok (coveredLines !!! fileName)) lines ([], d) in
  if (0 <? length uncoveredLines)%nat
  then (written +:+ renderSection fileName uncoveredLines, d)
  else (written, d).

(** The function returns [data]; what it leaves in uncovered_lines.txt is
    the second component: the text written when [os.Create] succeeded, the
    file as it was otherwise. *)
Definition printUncoveredLines (w : World)
    (partiallyCoveredLines coveredLines : gmap string (list Line.t))
    (d : CoverageData) : CoverageData * string :=
  let '(written, d) :=
    fold_left (fileNameStep partiallyCoveredLines coveredLines)
              (rangeKeys w partiallyCoveredLines) ("", d) in
  (d, if canCreate w then written else onDisk w).

Definition percentages (d : CoverageData) : CoverageData :=
  let d := if negb (NumStmt d =? 0)
           then set_Coverage (percent (CoverCount d) (NumStmt d)) d else d in
  let d := if negb (PatchNumStmt d =? 0)
           then set_PatchCoverage (percent (PatchCoverCount d) (PatchNumStmt d)) d else d in
  let d := if negb (PrevNumStmt d =? 0)
           then set_PrevCoverage (percent (PrevCoverCount d) (PrevNumStmt d)) d else d in
  if PatchNumStmt d =? 0 then set_PatchCoverage f100 d else d.

(** The report, the error, and the side file the call leaves behind. *)
Definition computeCoverage (w : World) (diffFiles : list gitdiff.File)
    (coverProfiles prevCoverProfiles : list cover.Profile)
  : CoverageData * option error * string :=
  let a := patchCoverage diffFiles coverProfiles zeroAcc in
  let d := totalCoverage coverProfiles (data a) in
  let d := prevCoverage prevCoverProfiles d in
  let '(d, file) := printUncoveredLines w (partiallyCoveredLines a) (coveredLines a) d in
  (percentages d, None, file).

(** ** ProcessFiles (lines 151 to 182) *)

Definition ProcessFiles (io : Inputs) (w : World)
    (coverageFile diffFile prevCovFile : string) : CoverageData * option error :=
  match os_Open io diffFile with
  | Err err => (zeroData, Some err)
  | Ok patch =>
  match gitdiff_Parse io patch with
  | Err err => (zeroData, Some err)
  | Ok files =>
  match cover_ParseProfiles io coverageFile with
  | Err err => (zeroData, Some err)
  | Ok profiles =>
  match (if negb (String.eqb prevCovFile "")
         then cover_ParseProfiles io prevCovFile else Ok []) with
  | Err err => (zeroData, Some err)
  | Ok prevProfiles =>
  match computeCoverage w files profiles prevProfiles with
  | (_, Some err, _) => (zeroData, Some err)
  | (d, None, _) => (set_HasPrevCoverage (negb (String.eqb prevCovFile "")) d, None)
  end end end end end.

End main.

(** The fields the two [CoverageData] structs share. *)
Definition shared (d : CoverageData) : main.CoverageData :=
  {| main.NumStmt := NumStmt d;
     main.CoverCount := CoverCount d;
     main.Coverage := Coverage d;
     main.PatchNumStmt := PatchNumStmt d;
     main.PatchCoverCount := PatchCoverCount d;
     main.PatchCoverage := PatchCoverage d;
     main.HasPrevCoverage := HasPrevCoverage d;
     main.PrevNumStmt := PrevNumStmt d;
     main.PrevCoverCount := PrevCoverCount d;
     main.PrevCoverage := PrevCoverage d |}.

Definition sharedAcc (a : Acc) : main.Acc :=
  {| main.data := shared (data a);
     main.coveredLines := coveredLines a;
     main.partiallyCoveredLines := partiallyCoveredLines a |}.

(** The loop states of [printUncoveredLines], side by side. *)
Definition sharedSnd {A} (st : A * CoverageData) : A * main.CoverageData :=
  (st.1, shared st.2).

(** * Package utility (env.go and the configuration file) *)

Module utility.

(** env.go, lines 5 to 10 *)
Definition UnitTest : string := "Unit Test".
Definition IntegrationTest : string := "Integration Test".

Record ServiceConfig :=
  { UTServiceThreshold : float;
    UTMCCThreshold : float;
    IntegrationServiceThreshold : float;
    IntegrationMCCThreshold : float;
    ExcludedUTCodeFiles : string;
    ExcludedIntegrationCodeFiles : string }.

(** The package variables the functions below read (env.go, lines 12 to
    25), as [InitEnvVars] and [InitConfigValues] left them. *)
Record Vars :=
  { RepoName : string;
    TestType : string;
    BranchName : string;
    ExcludedCodeFiles : string;
    ServiceConfigs : ServiceConfig }.

Definition IsMaster (v : Vars) : bool :=
  String.eqb (BranchName v) "master" || String.eqb (BranchName v) "main".

Definition isExcludedCodeFileOverridden (v : Vars) : bool :=
  if String.eqb (ExcludedCodeFiles v) "" then false
  else negb (strings.Contains (ExcludedCodeFiles v) "=jsonpath").

Definition GetExcludedCodeFile (v : Vars) : string :=
  if isExcludedCodeFileOverridden v then ExcludedCodeFiles v
  else if String.eqb (TestType v) UnitTest
       then ExcludedUTCodeFiles (ServiceConfigs v)
       else ExcludedIntegrationCodeFiles (ServiceConfigs v).

Definition GetThresholdConfigBasedOnTestType (v : Vars) : float * float :=
  if String.eqb (TestType v) UnitTest
  then (UTServiceThreshold (ServiceConfigs v), UTMCCThreshold (ServiceConfigs v))
  else if String.eqb (TestType v) IntegrationTest
  then (IntegrationServiceThreshold (ServiceConfigs v),
        IntegrationMCCThreshold (ServiceConfigs v))
  else (0%float, 0%float).

(** [a >= b] on float64 is [b <= a]: false as soon as one side is a NaN. *)
Definition GetThresholdCondition (v : Vars) (serviceCoverage mccCoverage : float)
  : bool * bool :=
  if String.eqb (TestType v) UnitTest
  then (PrimFloat.leb (UTServiceThreshold (ServiceConfigs v)) serviceCoverage,
        PrimFloat.leb (UTMCCThreshold (ServiceConfigs v)) mccCoverage)
  else if String.eqb (TestType v) IntegrationTest
  then (PrimFloat.leb (IntegrationServiceThreshold (ServiceConfigs v)) serviceCoverage,
        PrimFloat.leb (IntegrationMCCThreshold (ServiceConfigs v)) mccCoverage)
  else (false, false).

End utility.

(** * cmd/go-patch-cover/exclude_files.go *)

(** [strings.Split(s, sep)] for a non-empty [sep] (the one call site passes
    a comma): the pieces of [s] between the non-overlapping occurrences of
    [sep], scanning from the left; [cur] is the piece being read, [skip] the
    bytes of an occurrence still to be passed over. *)
Fixpoint split_from (skip : nat) (s sep cur : string) : list string :=
  match s with
  | EmptyString => [cur]
  | String c s' =>
      match skip with
      | S k => split_from k s' sep cur
      | O =>
          if String.prefix sep s
          then cur :: split_from (String.length sep - 1) s' sep ""
          else split_from 0 s' sep (cur +:+ String c "")
      end
  end.
Definition strings_Split (s sep : string) : list string := split_from 0 s sep "".

(** [regexp.MatchString(pattern, s)]: the answer of the regular expression
    library, an error when the pattern does not compile. *)
Definition Regexp := string -> string -> result bool.

Definition getRepoName (v : utility.Vars) : string * string :=
  let prefix := "github.com/org/" in
  if String.eqb (utility.RepoName v) "demo-repo" then (prefix, "demo_repo")
  else (prefix, utility.RepoName v).

Definition matchesPattern (MatchString : Regexp) (pattern file : string) : bool :=
  if strings.Contains file "easyjson" then true
  else
    let regexPattern := "^" +:+ strings.ReplaceAll pattern "*" ".*" +:+ "$" in
    (* [matched, _ := ...]: the error is dropped, [matched] is then false *)
    match MatchString regexPattern file with
    | Ok matched => matched
    | Err _ => false
    end.

Definition shouldExcludeFile (MatchString : Regexp) (v : utility.Vars)
    (excludedPatterns filePath : string) : bool :=
  let patterns := strings_Split excludedPatterns "," in
  let '(prefix, repoName) := getRepoName v in
  existsb (fun pattern =>
             matchesPattern MatchString (prefix +:+ repoName +:+ "/" +:+ pattern) filePath)
          patterns.

(** [bufio.Scanner] over a string, with the default split function
    ([bufio.ScanLines]) and the default buffer.  A line ends at a newline
    byte; the last line may lack it, and is then delivered unless empty.
    One carriage return before the newline is dropped.  A line that does not
    fit the buffer with its newline ends the scan with [ErrTooLong]. *)
Definition MaxScanTokenSize : Z := 64 * 1024.

Fixpoint pieces (s cur : string) : list string :=
  match s with
  | EmptyString => if String.eqb cur "" then [] else [cur]
  | String c s' =>
      if Ascii.eqb c "010" then cur :: pieces s' "" else pieces s' (cur +:+ String c "")
  end.

Definition dropCR (s : string) : string :=
  if strings.HasSuffix s (String "013" "")
  then String.substring 0 (String.length s - 1) s else s.

Fixpoint scanTokens (ps : list string) : list string * option error :=
  match ps with
  | [] => ([], None)
  | p :: rest =>
      if MaxScanTokenSize <=? Z.of_nat (String.length p)
      then ([], Some "bufio.Scanner: token too long")
      else let '(ls, e) := scanTokens rest in (dropCR p :: ls, e)
  end.

(** The lines [scanner.Scan()] delivers, and [scanner.Err()] after them. *)
Definition Scanner (content : string) : list string * option error :=
  scanTokens (pieces content "").

(** The text before the first colon. *)
Fixpoint beforeColon (s : string) : option string :=
  match s with
  | EmptyString => None
  | String c s' =>
      if Ascii.eqb c ":" then Some ""
      else String c <$> beforeColon s'
  end.

(** [re.FindStringSubmatch(line)] for [^([^:]+):], then [match[1]]: the
    non-empty text before the first colon. *)
Definition pathMatch (line : string) : option string :=
  match beforeColon line with
  | Some path => if String.eqb path "" then None else Some path
  | None => None
  end.

(** One iteration of [for scanner.Scan()] in [modifyCoverageFile]; the state
    is [filteredLines] and [filePath]. *)
Definition keepStep (MatchString : Regexp) (v : utility.Vars) (excludedPatterns : string)
    (st : list string * string) (text : string) : list string * string :=
  let '(filteredLines, filePath) := st in
  let line := strings.TrimSpace text in
  if negb (String.eqb line "") then
    match pathMatch line with
    | Some path =>
        let filePath := path in
        if negb (shouldExcludeFile MatchString v excludedPatterns filePath)
        then (filteredLines ++ [line], filePath)
        else (filteredLines, filePath)
    | None => (filteredLines, filePath)
    end
  else (filteredLines, filePath).

(** [os.ReadFile] and [os.WriteFile] as the run finds them. *)
Record Files :=
  { os_ReadFile : string -> result string;
    os_WriteFile : string -> string -> option error }.

(** The calls of [os.WriteFile] made, each with the file name and the
    content, and the error returned. *)
Definition modifyCoverageFile (MatchString : Regexp) (v : utility.Vars) (os : Files)
    (covFile excludedPatterns : string) : list (string * string) * option error :=
  match os_ReadFile os covFile with
  | Err err => ([], Some err)
  | Ok content =>
      let '(lines, scanErr) := Scanner content in
      let '(filteredLines, _) :=
        fold_left (keepStep MatchString v excludedPatterns) lines ([], "") in
      match scanErr with
      | Some err => ([], Some err)
      | None =>
          let modifiedContent := String.concat newline filteredLines in
          ([(covFile, modifiedContent)], os_WriteFile os covFile modifiedContent)
      end
  end.

(** A matcher for the samples: it knows one pattern. *)
Definition sampleRegexp : Regexp := fun pattern s =>
  Ok (String.eqb pattern "^github.com/org/svc/.*_mock.go$"
      && strings.HasSuffix s "_mock.go").
Definition sampleVars : utility.Vars :=
  {| utility.RepoName := "svc"; utility.TestType := utility.UnitTest;
     utility.BranchName := "main"; utility.ExcludedCodeFiles := "";
     utility.ServiceConfigs :=
       {| utility.UTServiceThreshold := 80%float; utility.UTMCCThreshold := 90%float;
          utility.IntegrationServiceThreshold := 50%float;
          utility.IntegrationMCCThreshold := 60%float;
          utility.ExcludedUTCodeFiles := "*_mock.go";
          utility.ExcludedIntegrationCodeFiles := "" |} |}.
Definition sampleCoverage : string :=
  "mode: set" +:+ String "013" "" +:+ newline
  +:+ "  github.com/org/svc/a.go:3.2,5.3 2 1" +:+ newline
  +:+ newline
  +:+ "github.com/org/svc/a_mock.go:1.1,2.2 1 0" +:+ newline
  +:+ "no colon here" +:+ newline
  +:+ "github.com/org/svc/b_easyjson.go:1.1,2.2 1 0".
Definition sampleFiles (content : string) : Files :=
  {| os_ReadFile := fun name =>
       if String.eqb name "coverage.out" then Ok content else Err "no such file";
     os_WriteFile := fun _ _ => None |}.

(** Byte [c] occurs in [s]. *)
Fixpoint occurs (c : ascii) (s : string) : bool :=
  match s with
  | EmptyString => false
  | String c' s' => Ascii.eqb c' c || occurs c s'
  end.

(** The lines [modifyCoverageFile] keeps: the trimmed lines that are not
    empty, start with a path and a colon, and whose path is not excluded. *)
Definition keepOk (MatchString : Regexp) (v : utility.Vars) (excludedPatterns : string)
    (line : string) : bool :=
  negb (String.eqb line "")
  && match pathMatch line with
     | Some path => negb (shouldExcludeFile MatchString v excludedPatterns path)
     | None => false
     end.
Definition keptLines (MatchString : Regexp) (v : utility.Vars) (excludedPatterns : string)
    (lines : list string) : list string :=
  List.filter (keepOk MatchString v excludedPatterns) (strings.TrimSpace <$> lines).

(** What the scanner needs of a line to give it back unchanged. *)
Definition plainLine (l : string) : Prop :=
  l <> "" /\ occurs "010" l = false /\ strings.HasSuffix l (String "013" "") = false
  /\ Z.of_nat (String.length l) < MaxScanTokenSize.

(** * Package utility: reading the command's output back *)

(** [\d] of the regular expressions: an ASCII digit. *)
Definition isDigit (c : ascii) : bool :=
  (48 <=? nat_of_ascii c)%nat && (nat_of_ascii c <=? 57)%nat.

(** The longest run of digits [s] starts with, and what follows it. *)
Fixpoint digitsRun (s : string) : string * string :=
  match s with
  | EmptyString => ("", "")
  | String c s' =>
      if isDigit c then let '(d, r) := digitsRun s' in (String c d, r) else ("", s)
  end.

(** A match of [total (\d+) statements] that starts where [s] starts: the
    text of the group.  The run of digits has to be the longest one, a
    shorter run being followed by a digit and not by the space. *)
Definition matchTotalAt (s : string) : option string :=
  if String.prefix "total " s then
    let '(d, r) := digitsRun (dropS 6 s) in
    if negb (String.eqb d "") && String.prefix " statements" r then Some d else None
  else None.

(** [re.FindStringSubmatch(line)] for [total (\d+) statements], then
    [match[1]]: the leftmost match. *)
Fixpoint findTotal (s : string) : option string :=
  match matchTotalAt s with
  | Some d => Some d
  | None =>
      match s with
      | EmptyString => None
      | String _ s' => findTotal s'
      end
  end.

(** [strconv.Atoi] with a 64-bit [int]: an optional sign, then decimal
    digits; an error on anything else and on a value out of range. *)
Definition strconv_Atoi (s : string) : result Z :=
  let '(neg, digits) :=
    match s with
    | String "+" rest => (false, rest)
    | String "-" rest => (true, rest)
    | _ => (false, s)
    end in
  match NilZero.uint_of_string digits with
  | None => Err "invalid syntax"
  | Some d =>
      let n := Z.of_uint d in
      if neg then (if n <=? 2 ^ 63 then Ok (- n) else Err "value out of range")
      else (if n <=? 2 ^ 63 - 1 then Ok n else Err "value out of range")
  end.

(** unnamed/part_000, lines 89 to 102 *)
Definition parseTotalLines (line : string) : Z :=
  match findTotal line with
  | None => 0
  | Some numStr =>
      match strconv_Atoi numStr with
      | Ok num => num
      | Err _ => 0
      end
  end.

(** The second line the command's default template prints (command.go,
    line 199): [total {{printf "%d" .NumStmt}} statements]. *)
Definition totalLine (d : main.CoverageData) : string :=
  "total " +:+ Sprintf_d (main.NumStmt d) +:+ " statements".

(** * cmd/go-patch-cover/command.go: Run *)

(** The fields of [CoverCommand] that [c.fs.Parse(args)] fills, and the
    arguments left after the flags ([c.fs.Arg(i)] is the [i]-th of them, the
    empty string when there are fewer). *)
Record Flags :=
  { HelpFlag : bool;
    VersionFlag : bool;
    OutputFlag : string;
    TemplateFlag : string;
    Args : list string }.

(** The libraries [Run] calls: [flag.FlagSet.Parse], the JSON encoder, and
    the template engine (parsing [tmpl], then executing it on the report:
    the first error). *)
Record Libraries :=
  { flag_Parse : list string -> result Flags;
    json_Encode : main.CoverageData -> option error;
    template_Execute : string -> main.CoverageData -> option error }.

Definition quote : string := String (ascii_of_nat 34) "".

(** command.go, lines 197 to 211 *)
Definition defaultTmpl : string :=
  "new coverage: {{printf " +:+ quote +:+ "%.1f" +:+ quote +:+ " .Coverage}}% of " +:+ newline
  +:+ "total {{printf " +:+ quote +:+ "%d" +:+ quote +:+ " .NumStmt}} statements" +:+ newline
  +:+ "patch coverage: {{printf " +:+ quote +:+ "%.1f" +:+ quote
  +:+ " .PatchCoverage}}% of changed statements ({{ .PatchCoverCount }}/{{ .PatchNumStmt }})"
  +:+ newline.

Definition RenderTemplateOutput (lib : Libraries) (data : main.CoverageData)
    (tmplOverride : string) : option error :=
  let tmpl := if negb (String.eqb tmplOverride "") then tmplOverride else defaultTmpl in
  template_Execute lib tmpl data.

(** command.go, lines 94 to 148.  The result is the calls of [os.WriteFile]
    on the coverage file, and the error; what is printed is left out.
    [os] answers the file calls of [modifyCoverageFile], [io] the calls of
    [ProcessFiles], which come after them. *)
Definition Run (lib : Libraries) (MatchString : Regexp) (v : utility.Vars)
    (os : Files) (io : Inputs) (w : World) (args : list string)
  : list (string * string) * option error :=
  match flag_Parse lib args with
  | Err err => ([], Some ("flag parse error: " +:+ err))
  | Ok c =>
  if HelpFlag c then ([], None) else
  if VersionFlag c then ([], None) else
  let covFile := nth 0 (Args c) "" in
  if String.eqb covFile "" then ([], Some "missing coverage file argument") else
  let excludedFiles := utility.GetExcludedCodeFile v in
  let '(writes, err) :=
    if negb (String.eqb excludedFiles "")
    then modifyCoverageFile MatchString v os covFile excludedFiles
    else ([], None) in
  match err with
  | Some _ => (writes, Some "error in excluding code files")
  | None =>
  let diffFile := nth 1 (Args c) "" in
  if String.eqb diffFile "" then (writes, Some "missing diff file argument") else
  let prevCovFile := nth 2 (Args c) "" in
  match main.ProcessFiles io w covFile diffFile prevCovFile with
  | (_, Some err) => (writes, Some ("processing error: " +:+ err))
  | (coverage, None) =>
      if String.eqb (OutputFlag c) "json" then
        match json_Encode lib coverage with
        | Some err => (writes, Some ("json output error: " +:+ err))
        | None => (writes, None)
        end
      else
        match RenderTemplateOutput lib coverage (TemplateFlag c) with
        | Some err => (writes, Some ("json output error: " +:+ err))
        | None => (writes, None)
        end
  end end end.

(** Libraries for the samples: every argument is positional. *)
Definition sampleLibs : Libraries :=
  {| flag_Parse := fun args =>
       Ok {| HelpFlag := false; VersionFlag := false; OutputFlag := "template";
             TemplateFlag := ""; Args := args |};
     json_Encode := fun _ => None;
     template_Execute := fun _ _ => None |}.

(** Every block that holds an added line of a diff file matched with its
    profile was executed. *)
Definition patchExecuted (diffFiles : list gitdiff.File) (profiles : list cover.Profile)
  : Prop :=
  forall p f b,
    In p profiles -> In f diffFiles ->
    endsWith (cover.FileName p) (gitdiff.NewName f) ->
    In b (cover.Blocks p) -> addLineIn b f -> 0 < cover.Count b.

(** * Properties *)

(** ** The definitions on small inputs *)

Example f100_is_100 : f100 = 100%float.
Proof. vm_compute. reflexivity. Qed.

Example TrimSpace_ascii : strings.TrimSpace "  	// x 	 " = "// x".
Proof. vm_compute. reflexivity. Qed.

Example TrimSpace_nbsp :
  strings.TrimSpace (strings.bytes [194; 160; 97; 32; 227; 128; 128]%nat) = "a".
Proof. vm_compute. reflexivity. Qed.

Example ReplaceAll_newline :
  strings.ReplaceAll (strings.bytes [97; 10; 98; 10]%nat) (strings.bytes [10]%nat) "" = "ab".
Proof. vm_compute. reflexivity. Qed.

Example HasSuffix_module_prefix :
  strings.HasSuffix "github.com/org/repo/pkg/file.go" "pkg/file.go" = true.
Proof. vm_compute. reflexivity. Qed.

Example Sprintf_d_samples :
  Sprintf_d 0 = "0" /\ Sprintf_d 10 = "10" /\ Sprintf_d (-5) = "-5".
Proof. repeat split; vm_compute; reflexivity. Qed.

Example isInvalidLine_samples :
  isInvalidLine "	// only a comment" = true
  /\ isInvalidLine "   " = true
  /\ isInvalidLine "/* opens" = true
  /\ isInvalidLine "x := 1 /* opens later" = false
  /\ isInvalidLine "closes */" = true
  /\ isInvalidLine "*/ x := 1" = false
  /\ isInvalidLine "Name string `json:name`" = true
  /\ isInvalidLine "}" = false
  /\ isInvalidLine "return x // trailing comment" = false.
Proof. repeat split; vm_compute; reflexivity. Qed.

(** The scenarios of the design document. *)

(** A: lines 10 to 12 added, one executed block over them. *)
Example scenario_A :
  let r := (computeCoverage world0 [hunkAt9] [profileA 3] []).1 in
  PatchNumStmt r = 2 /\ PatchCoverCount r = 2 /\ PatchCoverage r = 100%float.
Proof. repeat split; vm_compute; reflexivity. Qed.

(** B: the same block, not executed; its first added line is reported. *)
Example scenario_B :
  let r := (computeCoverage world0 [hunkAt9] [profileA 0] []).1 in
  PatchNumStmt r = 2 /\ PatchCoverCount r = 0 /\ PatchCoverage r = 0%float
  /\ Uncovered_lines r
     = renderSection "example.com/m/a.go"
         [ {| Line.LineNum := 10; Line.NumStmt := 2; Line.CoverCount := 0;
              Line.LineString := "a := 1" |} ].
Proof. repeat split; vm_compute; reflexivity. Qed.

(** C: one blank line added at line 20 inside a block that was not executed. *)
Example scenario_C :
  let r := (computeCoverage world0 [oneHunk "a.go" 20 [addLine ""]]
              [profile "a.go" [block 20 20 2 0]] []).1 in
  PatchNumStmt r = 0 /\ PatchCoverCount r = 0 /\ PatchCoverage r = 100%float
  /\ Uncovered_lines r = "".
Proof. repeat split; vm_compute; reflexivity. Qed.

(** D: no previous profile. *)
Example scenario_D :
  let r := (computeCoverage world0 [hunkAt9] [profileA 3] []).1 in
  HasPrevCoverage r = false /\ PrevCoverage r = 0%float.
Proof. split; vm_compute; reflexivity. Qed.

(** E: the diff touches a file no profile names. *)
Example scenario_E :
  let r := (computeCoverage world0 [oneHunk "other.go" 10 [addLine "f()"]]
              [profileA 3] []).1 in
  PatchNumStmt r = 0 /\ PatchCoverCount r = 0 /\ NumStmt r = 2.
Proof. repeat split; vm_compute; reflexivity. Qed.

(** ** Strings *)

Section StringFacts.

Local Arguments String.append !_ _ / : simpl nomatch.

Lemma prefix_iff (p s : string) :
  String.prefix p s = true <-> exists r, s = p +:+ r.
Proof.
  revert s. induction p as [|a p IH]; intros s; simpl.
  - split; [intros _; exists s; reflexivity | intros _; destruct s; reflexivity].
  - destruct s as [|c s]; simpl.
    + split; [discriminate | intros [r Hr]; discriminate].
    + destruct (ascii_dec a c) as [->|Hne].
      * rewrite IH. split; intros [r Hr]; exists r.
        -- cbn. now rewrite Hr.
        -- cbn in Hr. now inversion Hr.
      * split; [discriminate | intros [r Hr]; cbn in Hr; inversion Hr; congruence].
Qed.



Lemma length_app (a b : string) :
  String.length (a +:+ b) = (String.length a + String.length b)%nat.
Proof. induction a; cbn; [reflexivity | now rewrite IHa]. Qed.

Lemma substring_all (s : string) : String.substring 0 (String.length s) s = s.
Proof. induction s; cbn; [reflexivity | now rewrite IHs]. Qed.

Lemma substring_skip (a b : string) (n : nat) :
  String.substring (String.length a) n (a +:+ b) = String.substring 0 n b.
Proof. induction a; cbn; [reflexivity | exact IHa]. Qed.

(** A string splits at any position within it. *)
Lemma substring_split (s : string) (k : nat) :
  (k <= String.length s)%nat ->
  s = String.substring 0 k s +:+ String.substring k (String.length s - k) s.
Proof.
  revert k. induction s as [|c s IH]; intros k Hk; cbn in Hk.
  - destruct k; [reflexivity | lia].
  - destruct k as [|k].
    + cbn. now rewrite substring_all.
    + cbn. f_equal. apply IH. lia.
Qed.

Lemma HasSuffix_iff (s suf : string) :
  strings.HasSuffix s suf = true <-> exists r, s = r +:+ suf.
Proof.
  unfold strings.HasSuffix. rewrite andb_true_iff, Nat.leb_le, String.eqb_eq. split.
  - intros [Hlen Heq].
    exists (String.substring 0 (String.length s - String.length suf) s).
    pose proof (substring_split s (String.length s - String.length suf)) as Hs.
    replace (String.length s - (String.length s - String.length suf))%nat
      with (String.length suf) in Hs by lia.
    rewrite Heq in Hs. apply Hs. lia.
  - intros [r ->]. rewrite length_app. split; [lia|].
    replace (String.length r + String.length suf - String.length suf)%nat
      with (String.length r) by lia.
    rewrite substring_skip. apply substring_all.
Qed.

End StringFacts.


(** ** Machine arithmetic *)

Section Wrap.

Lemma wrap64_range (z : Z) : int64_range (wrap64 z).
Proof.
  unfold int64_range, wrap64.
  pose proof (Z.mod_pos_bound (z + 2 ^ 63) (2 ^ 64) ltac:(lia)). lia.
Qed.

Lemma wrap64_id (z : Z) : int64_range z -> wrap64 z = z.
Proof.
  unfold int64_range, wrap64. intros H.
  rewrite Z.mod_small by lia. lia.
Qed.

Lemma wrap64_add_l (a b : Z) : wrap64 (wrap64 a + b) = wrap64 (a + b).
Proof.
  unfold wrap64. f_equal.
  replace ((a + 2 ^ 63) mod 2 ^ 64 - 2 ^ 63 + b + 2 ^ 63)
    with ((a + 2 ^ 63) mod 2 ^ 64 + b) by lia.
  rewrite Zplus_mod_idemp_l. f_equal. lia.
Qed.

Lemma wrap64_sub_l (a b : Z) : wrap64 (wrap64 a - b) = wrap64 (a - b).
Proof. rewrite <- !Z.add_opp_r. apply wrap64_add_l. Qed.

Lemma add64_range (a b : Z) : int64_range (add64 a b).
Proof. apply wrap64_range. Qed.

Lemma sub64_range (a b : Z) : int64_range (sub64 a b).
Proof. apply wrap64_range. Qed.

End Wrap.

(** ** Sums over the lines a map holds *)

Section Sums.

Lemma Zsum_cons (x : Z) (l : list Z) : Zsum (x :: l) = x + Zsum l.
Proof. reflexivity. Qed.

Lemma Zsum_app (l1 l2 : list Z) : Zsum (l1 ++ l2) = Zsum l1 + Zsum l2.
Proof. unfold Zsum. induction l1 as [|x l1 IH]; cbn; [reflexivity | rewrite IH; lia]. Qed.

#[local] Instance Zsum_perm : Proper (Permutation ==> eq) Zsum.
Proof.
  intros l1 l2 H. unfold Zsum.
  induction H as [|x l1 l2 _ IH|x y l|l1 l2 l3 _ IH1 _ IH2]; cbn; lia.
Qed.

Lemma Zsum_nonneg (l : list Z) : Forall (fun x => 0 <= x) l -> 0 <= Zsum l.
Proof. unfold Zsum. induction 1; cbn; lia. Qed.

Lemma mapSum_empty g : mapSum g ∅ = 0.
Proof. unfold mapSum. now rewrite map_to_list_empty. Qed.

Lemma mapSum_insert_fresh g k ls (m : gmap string (list Line.t)) :
  m !! k = None -> mapSum g (<[k := ls]> m) = Zsum (g <$> ls) + mapSum g m.
Proof.
  intros Hk. unfold mapSum. now rewrite (map_to_list_insert m k ls Hk).
Qed.

Lemma mapSum_delete g k ls (m : gmap string (list Line.t)) :
  m !! k = Some ls -> mapSum g m = Zsum (g <$> ls) + mapSum g (delete k m).
Proof.
  intros Hk. unfold mapSum. now rewrite <- (map_to_list_delete m k ls Hk).
Qed.

Lemma mapSum_appendAt g k l (m : gmap string (list Line.t)) :
  mapSum g (appendAt k l m) = mapSum g m + g l.
Proof.
  unfold appendAt. rewrite lookup_total_alt.
  destruct (m !! k) as [old|] eqn:Hk; cbn.
  - rewrite <- insert_delete_eq, mapSum_insert_fresh by apply lookup_delete_eq.
    rewrite (mapSum_delete g k old m Hk), fmap_app, Zsum_app. cbn. lia.
  - rewrite mapSum_insert_fresh by exact Hk. cbn. lia.
Qed.

Lemma mapSum_nonneg g (m : gmap string (list Line.t)) :
  (forall l, 0 <= g l) -> 0 <= mapSum g m.
Proof.
  intros Hg. unfold mapSum. apply Zsum_nonneg, Forall_fmap, Forall_forall.
  intros kv _. cbn. apply Zsum_nonneg, Forall_fmap, Forall_forall. intros; apply Hg.
Qed.

End Sums.

(** ** Block-to-diff-line matching *)

Section Scan.

Variable b : cover.ProfileBlock.

(** What [scanLines] returns is the first Add line, counting every line of
    the hunk, whose number [NewPosition + index] lies in the block. *)
Lemma scanLines_Some pos lines : forall i0 n s,
  scanLines b pos i0 lines = Some (n, s) ->
  exists (j : nat) (line : gitdiff.Line),
    lines !! j = Some line
    /\ gitdiff.Op line = gitdiff.OpAdd
    /\ n = add64 pos (Z.of_nat (i0 + j))
    /\ s = strings.ReplaceAll (gitdiff.Line_ line) newline ""
    /\ inBlock b n = true
    /\ (forall (j' : nat) line', (j' < j)%nat -> lines !! j' = Some line' ->
          gitdiff.Op line' = gitdiff.OpAdd ->
          inBlock b (add64 pos (Z.of_nat (i0 + j'))) = false).
Proof.
  induction lines as [|line rest IH]; intros i0 n s H; cbn in H; [discriminate|].
  assert (Hrest : scanLines b pos (S i0) rest = Some (n, s) ->
    exists (j : nat) (line0 : gitdiff.Line),
      (line :: rest) !! j = Some line0
      /\ gitdiff.Op line0 = gitdiff.OpAdd
      /\ n = add64 pos (Z.of_nat (i0 + j))
      /\ s = strings.ReplaceAll (gitdiff.Line_ line0) newline ""
      /\ inBlock b n = true
      /\ (forall (j' : nat) line', (j' < j)%nat -> (line :: rest) !! j' = Some line' ->
            gitdiff.Op line' = gitdiff.OpAdd ->
            inBlock b (add64 pos (Z.of_nat (i0 + j'))) = false
            \/ (j' = 0%nat /\ line' = line))).
  { intros Hs. destruct (IH _ _ _ Hs) as (j & l & Hj & Hop & Hn & Hstr & Hin & Hfirst).
    exists (S j), l. repeat split; try assumption.
    - rewrite Hn. do 2 f_equal. lia.
    - intros [|j'] line' Hlt Hl Hadd; [right; cbn in Hl; split; congruence|].
      left. replace (i0 + S j')%nat with (S i0 + j')%nat by lia.
      eapply Hfirst; [lia | exact Hl | exact Hadd]. }
  destruct (gitdiff.Op line) eqn:Hop.
  - destruct (Hrest H) as (j & l & ? & ? & ? & ? & ? & Hf).
    exists j, l. repeat split; try assumption.
    intros j' line' ? ? Hadd. destruct (Hf j' line') as [|[_ ->]]; try assumption; congruence.
  - destruct (Hrest H) as (j & l & ? & ? & ? & ? & ? & Hf).
    exists j, l. repeat split; try assumption.
    intros j' line' ? ? Hadd. destruct (Hf j' line') as [|[_ ->]]; try assumption; congruence.
  - destruct (inBlock b (add64 pos (Z.of_nat i0))) eqn:Hin.
    + inversion H; subst. exists 0%nat, line. rewrite Nat.add_0_r.
      repeat split; try assumption; try reflexivity. intros; lia.
    + destruct (Hrest H) as (j & l & ? & ? & ? & ? & ? & Hf).
      exists j, l. repeat split; try assumption.
      intros j' line' ? ? Hadd. destruct (Hf j' line') as [|[-> ->]]; try assumption.
      now rewrite Nat.add_0_r.
Qed.

Lemma scanFragments_Some frags : forall n s,
  scanFragments b frags = Some (n, s) ->
  exists (t : gitdiff.TextFragment) (j : nat) (line : gitdiff.Line),
    In t frags
    /\ gitdiff.Lines t !! j = Some line
    /\ gitdiff.Op line = gitdiff.OpAdd
    /\ n = add64 (gitdiff.NewPosition t) (Z.of_nat j)
    /\ s = strings.ReplaceAll (gitdiff.Line_ line) newline ""
    /\ inBlock b n = true
    /\ (forall (j' : nat) line', (j' < j)%nat -> gitdiff.Lines t !! j' = Some line' ->
          gitdiff.Op line' = gitdiff.OpAdd ->
          inBlock b (add64 (gitdiff.NewPosition t) (Z.of_nat j')) = false).
Proof.
  induction frags as [|t rest IH]; intros n s H; cbn in H; [discriminate|].
  destruct (scanLines b (gitdiff.NewPosition t) 0 (gitdiff.Lines t)) as [[n' s']|] eqn:Hs.
  - inversion H; subst.
    destruct (scanLines_Some _ _ _ _ _ Hs) as (j & l & ? & ? & ? & ? & ? & Hfirst).
    exists t, j, l. repeat split; try assumption. now left.
  - destruct (IH _ _ H) as (t' & j & l & ? & ?).
    exists t', j, l. split; [now right | assumption].
Qed.

End Scan.

(** C4. The line number a block is matched on is the hunk's [NewPosition]
    plus the index of the Add line among all the lines of the hunk (context,
    deleted and added alike), in Go's [int] arithmetic; it is their sum as
    integers whenever that sum fits in 64 bits.  The Add lines that come
    earlier in the hunk were tested with their own such number, and
    rejected. *)
Theorem lineNum_counts_all_lines (p : cover.Profile) (f : gitdiff.File) (a : Acc)
    (b : cover.ProfileBlock) (n : Z) (s : string) :
  scanFragments b (gitdiff.TextFragments f) = Some (n, s) ->
  blockStep p f a b = credit p b n s a
  /\ exists (t : gitdiff.TextFragment) (j : nat) (line : gitdiff.Line),
       In t (gitdiff.TextFragments f)
       /\ gitdiff.Lines t !! j = Some line
       /\ gitdiff.Op line = gitdiff.OpAdd
       /\ n = add64 (gitdiff.NewPosition t) (Z.of_nat j)
       /\ (int64_range (gitdiff.NewPosition t + Z.of_nat j) ->
           n = gitdiff.NewPosition t + Z.of_nat j)
       /\ (forall (j' : nat) line', (j' < j)%nat ->
             gitdiff.Lines t !! j' = Some line' ->
             gitdiff.Op line' = gitdiff.OpAdd ->
             inBlock b (add64 (gitdiff.NewPosition t) (Z.of_nat j')) = false).
Proof.
  intros H. split; [unfold blockStep; now rewrite H|].
  destruct (scanFragments_Some _ _ _ _ H)
    as (t & j & line & Ht & Hj & Hop & Hn & _ & _ & Hfirst).
  exists t, j, line. repeat split; try assumption.
  intros Hr. rewrite Hn. apply wrap64_id, Hr.
Qed.

Lemma lineNum_counts_all_lines_witness :
  blockStep (profileA 3) hunkAt9 zeroAcc (block 10 12 2 3)
  = credit (profileA 3) (block 10 12 2 3) 10 "a := 1" zeroAcc
  /\ exists (t : gitdiff.TextFragment) (j : nat) (line : gitdiff.Line),
       In t (gitdiff.TextFragments hunkAt9)
       /\ gitdiff.Lines t !! j = Some line
       /\ gitdiff.Op line = gitdiff.OpAdd
       /\ 10 = add64 (gitdiff.NewPosition t) (Z.of_nat j)
       /\ (int64_range (gitdiff.NewPosition t + Z.of_nat j) ->
           10 = gitdiff.NewPosition t + Z.of_nat j)
       /\ (forall (j' : nat) line', (j' < j)%nat ->
             gitdiff.Lines t !! j' = Some line' ->
             gitdiff.Op line' = gitdiff.OpAdd ->
             inBlock (block 10 12 2 3) (add64 (gitdiff.NewPosition t) (Z.of_nat j')) = false).
Proof.
  apply (lineNum_counts_all_lines (profileA 3) hunkAt9 zeroAcc (block 10 12 2 3) 10 "a := 1").
  vm_compute. reflexivity.
Defined.

(** The first added line of [hunkAt9] is its second line: it is line 10, not
    line 9. *)
Example hunkAt9_first_added_line :
  scanFragments (block 9 9 1 1) (gitdiff.TextFragments hunkAt9) = None
  /\ scanFragments (block 10 10 1 1) (gitdiff.TextFragments hunkAt9) = Some (10, "a := 1").
Proof. split; vm_compute; reflexivity. Qed.

(** ** Credits *)

Lemma fold_left_id {A B} (f : A -> B -> A) (l : list B) (a : A) :
  (forall x, In x l -> forall a', f a' x = a') -> fold_left f l a = a.
Proof.
  induction l as [|x l IH]; intros H; cbn; [reflexivity|].
  rewrite (H x (or_introl eq_refl)). apply IH. intros y Hy. apply H. now right.
Qed.

Section Credits.







End Credits.


Example credited_twice_totals :
  PatchNumStmt (computeCoverage world0 twoNames [profileX] []).1 = 2
  /\ NumStmt (computeCoverage world0 twoNames [profileX] []).1 = 1.
Proof. split; vm_compute; reflexivity. Qed.


(** Three added lines in the block's range, one credit. *)
Example three_lines_one_credit :
  credits (patchCoverage [hunkAt9] [profileA 3] zeroAcc) = 1
  /\ PatchNumStmt (computeCoverage world0 [hunkAt9] [profileA 3] []).1 = 2.
Proof. split; vm_compute; reflexivity. Qed.

(** ** Covered and candidate lines never meet *)

Section Split.

Lemma fold_left_inv {A B} (P : A -> Prop) (f : A -> B -> A) (l : list B) :
  (forall a x, In x l -> P a -> P (f a x)) -> forall a, P a -> P (fold_left f l a).
Proof.
  induction l as [|x l IH]; intros H a Ha; cbn; [exact Ha|].
  apply IH; [intros; apply H; [now right | assumption]|].
  apply H; [now left | exact Ha].
Qed.

Lemma lookup_appendAt k l (m : gmap string (list Line.t)) k' ls :
  appendAt k l m !! k' = Some ls ->
  (k' = k /\ ls = (m !!! k) ++ [l]) \/ (k' <> k /\ m !! k' = Some ls).
Proof.
  unfold appendAt. intros H. destruct (decide (k = k')) as [->|Hne].
  - rewrite lookup_insert_eq in H. left. split; congruence.
  - rewrite lookup_insert_ne in H by exact Hne. right. split; congruence.
Qed.

(** Every line of [m !!! k] is a line of the list stored under [k]. *)
Lemma In_lookup_total (m : gmap string (list Line.t)) k l :
  In l (m !!! k) -> exists ls, m !! k = Some ls /\ In l ls.
Proof.
  rewrite lookup_total_alt. destruct (m !! k) as [ls|]; cbn; [eauto | tauto].
Qed.

Lemma appendAt_Forall (Q : Line.t -> Prop) k l (m : gmap string (list Line.t)) :
  Q l ->
  (forall k' ls x, m !! k' = Some ls -> In x ls -> Q x) ->
  forall k' ls x, appendAt k l m !! k' = Some ls -> In x ls -> Q x.
Proof.
  intros Hl Hm k' ls x Hk Hx.
  destruct (lookup_appendAt _ _ _ _ _ Hk) as [[-> ->]|[_ Hk']].
  - apply in_app_or in Hx. destruct Hx as [Hx|[<-|[]]]; [|exact Hl].
    destruct (In_lookup_total _ _ _ Hx) as (ls' & ? & ?). eapply Hm; eassumption.
  - eapply Hm; eassumption.
Qed.

Lemma counts_split_credit p b n s a : counts_split a -> counts_split (credit p b n s a).
Proof.
  intros [Hc Hp]. unfold credit, counts_split.
  destruct (0 <? cover.Count b) eqn:Hb; cbn; split; try assumption.
  - apply (appendAt_Forall (fun l => 0 < Line.CoverCount l)); [cbn; lia | exact Hc].
  - apply (appendAt_Forall (fun l => Line.CoverCount l <= 0)); [cbn; lia | exact Hp].
Qed.

Lemma counts_split_patchCoverage diffFiles ps a :
  counts_split a -> counts_split (patchCoverage diffFiles ps a).
Proof.
  unfold patchCoverage. revert a. apply fold_left_inv. intros a p _.
  unfold profileStep. revert a. apply fold_left_inv. intros a f _ Ha.
  unfold fileStep. destruct (negb _); [exact Ha|].
  revert a Ha. apply fold_left_inv. intros a b _ Ha.
  unfold blockStep. destruct (scanFragments _ _) as [[n s]|]; [|exact Ha].
  now apply counts_split_credit.
Qed.

Lemma counts_split_zero : counts_split zeroAcc.
Proof. split; intros k ls l H; cbn in H; rewrite lookup_empty in H; discriminate. Qed.

(** The triple match fails as soon as the execution counts differ in sign. *)
Lemma isLineCovered_false line cov :
  Line.CoverCount line <= 0 ->
  (forall c, In c cov -> 0 < Line.CoverCount c) ->
  isLineCovered line cov = false.
Proof.
  intros Hl. induction cov as [|c cov IH]; intros Hc; cbn; [reflexivity|].
  assert ((Line.CoverCount c =? Line.CoverCount line) = false) as ->.
  { apply Z.eqb_neq. specialize (Hc c (or_introl eq_refl)). lia. }
  rewrite andb_false_r. apply IH. intros; apply Hc. now right.
Qed.

Lemma candidates_uncovered a k lines line :
  counts_split a ->
  partiallyCoveredLines a !! k = Some lines -> In line lines ->
  isLineCovered line (coveredLines a !!! k) = false.
Proof.
  intros [Hc Hp] Hk Hl. apply isLineCovered_false; [eapply Hp; eassumption|].
  intros c Hin. destruct (In_lookup_total _ _ _ Hin) as (ls & ? & ?). eapply Hc; eassumption.
Qed.

End Split.

(** ** printUncoveredLines in closed form *)

Section ClosedForm.

Local Arguments String.append !_ _ / : simpl nomatch.

Lemma append_empty_r (s : string) : s +:+ "" = s.
Proof. induction s; cbn; [reflexivity | now rewrite IHs]. Qed.

Lemma append_assoc (a b c : string) : (a +:+ b) +:+ c = a +:+ (b +:+ c).
Proof. induction a; cbn; [reflexivity | now rewrite IHa]. Qed.

Lemma concat_cons (x : string) (xs : list string) :
  String.concat "" (x :: xs) = x +:+ String.concat "" xs.
Proof. destruct xs; cbn; [now rewrite append_empty_r | reflexivity]. Qed.

Lemma set_PatchNumStmt_same d : set_PatchNumStmt (PatchNumStmt d) d = d.
Proof. destruct d; reflexivity. Qed.

Lemma fold_sub64 ns : forall p,
  int64_range p -> fold_left sub64 ns p = wrap64 (p - Zsum ns).
Proof.
  induction ns as [|n ns IH]; intros p Hp.
  - cbn. rewrite Z.sub_0_r. symmetry. now apply wrap64_id.
  - cbn [fold_left]. change (Zsum (n :: ns)) with (n + Zsum ns).
    rewrite IH by apply sub64_range. unfold sub64. rewrite wrap64_sub_l. f_equal. lia.
Qed.

Variables (ok : bool) (cov : list Line.t).

Lemma lineLoop_closed lines :
  (forall l, In l lines -> isLineCovered l cov = false) ->
  forall u d,
    fold_left (lineStep ok cov) lines (u, d)
    = (u ++ validLines lines,
       set_PatchNumStmt (fold_left sub64 (invalidStmts lines) (PatchNumStmt d)) d).
Proof.
  induction lines as [|line rest IH]; intros H u d.
  - cbn. now rewrite app_nil_r, set_PatchNumStmt_same.
  - cbn [fold_left]. unfold lineStep at 2.
    rewrite (H line (or_introl eq_refl)). cbn [negb]. rewrite orb_true_r.
    unfold validLines, invalidStmts. cbn [List.filter].
    destruct (isInvalidLine (Line.LineString line)); cbn [negb fmap list_fmap fold_left].
    + rewrite IH by (intros; apply H; now right). reflexivity.
    + rewrite IH by (intros; apply H; now right).
      rewrite <- app_assoc. reflexivity.
Qed.

End ClosedForm.

Section ClosedFormFiles.

Variables P C : gmap string (list Line.t).
Hypothesis uncovered : forall k l, In l (P !!! k) -> isLineCovered l (C !!! k) = false.

Lemma fileNameStep_closed written d k :
  fileNameStep P C (written, d) k
  = (written +:+ sectionOf P k,
     set_PatchNumStmt (fold_left sub64 (invalidStmts (P !!! k)) (PatchNumStmt d)) d).
Proof.
  unfold fileNameStep. rewrite lineLoop_closed by apply uncovered.
  unfold sectionOf. cbn [app]. destruct (0 <? length (validLines (P !!! k)))%nat.
  - reflexivity.
  - now rewrite append_empty_r.
Qed.

Lemma fileNameLoop_closed keys : forall written d,
  fold_left (fileNameStep P C) keys (written, d)
  = (written +:+ String.concat "" (sectionOf P <$> keys),
     set_PatchNumStmt (fold_left sub64 (takenBack P keys) (PatchNumStmt d)) d).
Proof.
  induction keys as [|k keys IH]; intros written d.
  - cbn. now rewrite append_empty_r, set_PatchNumStmt_same.
  - cbn [fold_left]. rewrite fileNameStep_closed, IH.
    cbn [fmap list_fmap]. rewrite concat_cons, append_assoc.
    unfold takenBack. cbn [flat_map]. rewrite fold_left_app. reflexivity.
Qed.

Lemma printUncoveredLines_closed w d :
  printUncoveredLines w P C d
  = set_Uncovered_lines
      (readBack w (String.concat "" (sectionOf P <$> rangeKeys w P)))
      (set_PatchNumStmt
         (fold_left sub64 (takenBack P (rangeKeys w P)) (PatchNumStmt d)) d).
Proof.
  unfold printUncoveredLines. rewrite fileNameLoop_closed. reflexivity.
Qed.

End ClosedFormFiles.

(** ** TrimSpace

    [TrimSpace] splits its argument into a run of white space, the result,
    and a run of white space; the result neither starts nor ends with a
    white-space rune. *)

Section Trim.

Local Arguments String.append !_ _ / : simpl nomatch.

Lemma rev_app_append (s1 s2 : string) : String.rev_app s1 s2 = String.rev_app s1 "" +:+ s2.
Proof.
  revert s2. induction s1 as [|a s1 IH]; intros s2; cbn; [reflexivity|].
  rewrite IH, (IH (String a "")), append_assoc. reflexivity.
Qed.

Lemma rev_cons (a : ascii) (s : string) : String.rev (String a s) = String.rev s +:+ String a "".
Proof. unfold String.rev. cbn. apply rev_app_append. Qed.

Lemma rev_append (a b : string) : String.rev (a +:+ b) = String.rev b +:+ String.rev a.
Proof.
  induction a as [|c a IH].
  - change ("" +:+ b) with b. change (String.rev "") with "". now rewrite append_empty_r.
  - change (String c a +:+ b) with (String c (a +:+ b)).
    now rewrite !rev_cons, IH, append_assoc.
Qed.

Lemma rev_involutive (s : string) : String.rev (String.rev s) = s.
Proof.
  induction s as [|c s IH]; [reflexivity|].
  rewrite rev_cons, rev_append, IH. reflexivity.
Qed.

Lemma dropS_append (e s : string) : dropS (String.length e) (e +:+ s) = s.
Proof. induction e; cbn; [reflexivity | assumption]. Qed.

Lemma trim_from_skip table s : forall skip,
  strings.trim_from table skip s = strings.trim_from table 0 (dropS skip s).
Proof.
  induction s as [|c s IH]; intros [|k]; try reflexivity. cbn. apply IH.
Qed.

Lemma leadingSpace_Some table s w :
  strings.leadingSpace table s = Some w ->
  exists e r, In e table /\ s = e +:+ r /\ w = String.length e.
Proof.
  unfold strings.leadingSpace. destruct (List.find _ table) as [e|] eqn:Hf; [|discriminate].
  intros [= <-]. apply List.find_some in Hf as [Hin Hp].
  apply prefix_iff in Hp as [r ->]. eauto.
Qed.

Lemma leadingSpace_None table s :
  strings.leadingSpace table s = None ->
  forall e, In e table -> ~ exists r, s = e +:+ r.
Proof.
  unfold strings.leadingSpace. destruct (List.find _ table) as [e|] eqn:Hf; [discriminate|].
  intros _ e He Hex. apply prefix_iff in Hex.
  pose proof (List.find_none _ _ Hf e He) as Hn. cbn in Hn. congruence.
Qed.

Lemma spacesOf_nil table : spacesOf table "".
Proof. exists []. split; [constructor | reflexivity]. Qed.

Lemma spacesOf_cons table e s : In e table -> spacesOf table s -> spacesOf table (e +:+ s).
Proof.
  intros He (ws & Hws & ->). exists (e :: ws). split; [now constructor|].
  now rewrite concat_cons.
Qed.

Lemma concat_app (l1 l2 : list string) :
  String.concat "" (l1 ++ l2) = String.concat "" l1 +:+ String.concat "" l2.
Proof.
  induction l1 as [|x l1 IH]; [reflexivity|].
  cbn [app]. now rewrite !concat_cons, IH, append_assoc.
Qed.

Lemma spacesOf_rev table s : spacesOf (List.map String.rev table) s -> spacesOf table (String.rev s).
Proof.
  intros (ws & Hws & ->). induction Hws as [|w ws Hw _ IH].
  - apply spacesOf_nil.
  - rewrite concat_cons, rev_append. destruct IH as (ws' & Hws' & ->).
    apply in_map_iff in Hw as (e & <- & He). rewrite rev_involutive.
    exists (ws' ++ [e]). split.
    + apply Forall_app. split; [assumption | now repeat constructor].
    + rewrite concat_app, concat_cons. cbn. now rewrite append_empty_r.
Qed.

(** Trimming from the left, for any table of non-empty encodings. *)
Lemma trim_left_spec table :
  Forall (fun e => e <> "") table ->
  forall s, exists pre,
    s = pre +:+ strings.trim_from table 0 s
    /\ spacesOf table pre
    /\ strings.leadingSpace table (strings.trim_from table 0 s) = None.
Proof.
  intros Hne s. remember (String.length s) as n eqn:Hn. revert s Hn.
  induction n as [n IH] using lt_wf_ind. intros s Hn.
  destruct s as [|c s'].
  - exists "". repeat split; [apply spacesOf_nil|]. cbn.
    unfold strings.leadingSpace.
    destruct (List.find _ table) as [e|] eqn:Hf; [|reflexivity]. exfalso.
    apply List.find_some in Hf as [Hin Hp]. apply prefix_iff in Hp as [r Hr].
    rewrite Forall_forall in Hne. apply (Hne e); [now apply list_elem_of_In|].
    destruct e; [reflexivity | discriminate].
  - cbn [strings.trim_from].
    destruct (strings.leadingSpace table (String c s')) as [w|] eqn:Hl.
    + destruct (leadingSpace_Some _ _ _ Hl) as (e & r & He & Hs & ->).
      assert (String.length e <> 0)%nat as Hlen.
      { rewrite Forall_forall in Hne. specialize (Hne e (proj2 (list_elem_of_In _ _) He)).
        destruct e; [congruence | cbn; lia]. }
      rewrite trim_from_skip.
      assert (dropS (String.length e - 1) s' = r) as ->.
      { replace (dropS (String.length e - 1) s')
          with (dropS (String.length e) (String c s'))
          by (destruct (String.length e); [congruence | cbn; now rewrite Nat.sub_0_r]).
        rewrite Hs. apply dropS_append. }
      destruct (IH (String.length r)) with (s := r) as (pre & Hr & Hsp & Hnone);
        [|reflexivity|].
      { rewrite Hn, Hs, length_app. lia. }
      exists (e +:+ pre). repeat split.
      * rewrite Hs, append_assoc. now rewrite <- Hr.
      * now apply spacesOf_cons.
      * exact Hnone.
    + exists "". repeat split; [apply spacesOf_nil | exact Hl].
Qed.

Lemma whiteSpace_nonempty : Forall (fun e => e <> "") strings.whiteSpace.
Proof. repeat constructor; discriminate. Qed.

Lemma whiteSpace_rev_nonempty :
  Forall (fun e => e <> "") (List.map String.rev strings.whiteSpace).
Proof. repeat constructor; discriminate. Qed.

Lemma TrimSpace_spec (line : string) :
  exists pre post,
    line = pre +:+ strings.TrimSpace line +:+ post
    /\ spacesOf strings.whiteSpace pre
    /\ spacesOf strings.whiteSpace post
    /\ (forall e, In e strings.whiteSpace ->
          ~ (exists r, strings.TrimSpace line = e +:+ r)
          /\ ~ (exists r, strings.TrimSpace line = r +:+ e)).
Proof.
  unfold strings.TrimSpace, strings.TrimRightSpace, strings.TrimLeftSpace.
  destruct (trim_left_spec _ whiteSpace_nonempty line) as (pre & Hl & Hpre & Hnl).
  set (L := strings.trim_from strings.whiteSpace 0 line) in *.
  destruct (trim_left_spec _ whiteSpace_rev_nonempty (String.rev L))
    as (tsop & Hr & Hpost & Hnr).
  set (R := strings.trim_from (List.map String.rev strings.whiteSpace) 0 (String.rev L)) in *.
  assert (HL : L = String.rev R +:+ String.rev tsop).
  { rewrite <- rev_append, <- Hr. symmetry. apply rev_involutive. }
  exists pre, (String.rev tsop). repeat split.
  - now rewrite <- HL.
  - exact Hpre.
  - now apply spacesOf_rev.
  - intros [r Hex]. apply (leadingSpace_None _ _ Hnl e H).
    exists (r +:+ String.rev tsop). now rewrite HL, Hex, append_assoc.
  - intros [r Hex]. apply (leadingSpace_None _ _ Hnr (String.rev e)).
    + apply in_map_iff. eauto.
    + exists (String.rev r). rewrite <- rev_append, <- Hex. symmetry. apply rev_involutive.
Qed.

End Trim.

(** C10. After block matching, every candidate line differs from every
    covered line of its file in the sign of its execution count, so
    [isLineCovered] answers false for each candidate, and
    [printUncoveredLines] never changes [PatchCoverCount]: the report carries
    the value block matching computed. *)
Theorem candidates_always_uncovered (w : World) (diffFiles : list gitdiff.File)
    (coverProfiles prevCoverProfiles : list cover.Profile) :
  let a := patchCoverage diffFiles coverProfiles zeroAcc in
  counts_split a
  /\ (forall k lines line,
        partiallyCoveredLines a !! k = Some lines -> In line lines ->
        isLineCovered line (coveredLines a !!! k) = false)
  /\ (forall d, PatchCoverCount
                  (printUncoveredLines w (partiallyCoveredLines a) (coveredLines a) d)
                = PatchCoverCount d)
  /\ PatchCoverCount (computeCoverage w diffFiles coverProfiles prevCoverProfiles).1
     = PatchCoverCount (data a).
Proof.
  intros a.
  assert (Hs : counts_split a) by apply counts_split_patchCoverage, counts_split_zero.
  assert (Hu : forall k l, In l (partiallyCoveredLines a !!! k) ->
                 isLineCovered l (coveredLines a !!! k) = false).
  { intros k l Hl. destruct (In_lookup_total _ _ _ Hl) as (ls & Hk & Hin).
    eapply candidates_uncovered; eassumption. }
  assert (Hp : forall d, PatchCoverCount
                  (printUncoveredLines w (partiallyCoveredLines a) (coveredLines a) d)
                = PatchCoverCount d).
  { intros d. rewrite printUncoveredLines_closed by exact Hu. reflexivity. }
  repeat split; try apply Hs.
  - intros k lines line Hk Hl. eapply candidates_uncovered; eassumption.
  - exact Hp.
  - unfold computeCoverage. cbn [fst]. fold a.
    assert (Hperc : forall d, PatchCoverCount (percentages d) = PatchCoverCount d).
    { intros d. unfold percentages.
      repeat match goal with |- context [if ?c then _ else _] => destruct c end;
        reflexivity. }
    rewrite Hperc, Hp.
    assert (Hprev : forall ps d, PatchCoverCount (prevCoverage ps d) = PatchCoverCount d).
    { intros ps. unfold prevCoverage. induction ps as [|p ps IH]; intros d; cbn; [reflexivity|].
      rewrite IH. generalize (cover.Blocks p) d. clear.
      induction l as [|b l IHl]; intros d; cbn; [reflexivity|].
      rewrite IHl. unfold prevBlock. destruct (0 <? cover.Count b); reflexivity. }
    assert (Htot : forall ps d, PatchCoverCount (totalCoverage ps d) = PatchCoverCount d).
    { intros ps. unfold totalCoverage. induction ps as [|p ps IH]; intros d; cbn; [reflexivity|].
      rewrite IH. generalize (cover.Blocks p) d. clear.
      induction l as [|b l IHl]; intros d; cbn; [reflexivity|].
      rewrite IHl. unfold totalBlock. destruct (0 <? cover.Count b); reflexivity. }
    now rewrite Hprev, Htot.
Qed.

Lemma candidates_always_uncovered_witness :
  isLineCovered
    {| Line.LineNum := 10; Line.NumStmt := 2; Line.CoverCount := 0;
       Line.LineString := "a := 1" |}
    (coveredLines (patchCoverage [hunkAt9] [profileA 0; profileA 3] zeroAcc)
       !!! "example.com/m/a.go") = false.
Proof.
  refine (proj1 (proj2
    (candidates_always_uncovered world0 [hunkAt9] [profileA 0; profileA 3] []))
    "example.com/m/a.go" _ _ _ _).
  - vm_compute. reflexivity.
  - left. reflexivity.
Defined.

(** ** Whole-repository totals in closed form *)

Section Totals.

Lemma wrap64_add_add x a b : wrap64 (wrap64 (x + a) + b) = wrap64 (x + (a + b)).
Proof. rewrite wrap64_add_l. f_equal. lia. Qed.

Lemma totalBlocks_closed bs : forall d,
  int64_range (NumStmt d) -> int64_range (CoverCount d) ->
  fold_left totalBlock bs d
  = set_CoverCount (wrap64 (CoverCount d + Zsum (coveredWeight <$> bs)))
      (set_NumStmt (wrap64 (NumStmt d + Zsum (cover.NumStmt <$> bs))) d).
Proof.
  induction bs as [|b bs IH]; intros d Hn Hc.
  - cbn. rewrite !Z.add_0_r, !wrap64_id by assumption. now destruct d.
  - cbn [fold_left fmap list_fmap].
    rewrite !Zsum_cons.
    assert (Hw : coveredWeight b = if 0 <? cover.Count b then cover.NumStmt b else 0)
      by reflexivity.
    rewrite Hw. unfold totalBlock at 2.
    destruct (0 <? cover.Count b).
    + rewrite IH by apply add64_range.
      unfold set_CoverCount, set_NumStmt, add64; cbn. f_equal; first [apply wrap64_add_add | f_equal; lia].
    + rewrite IH by (try apply add64_range; exact Hc).
      unfold set_CoverCount, set_NumStmt, add64; cbn. f_equal; first [apply wrap64_add_add | f_equal; lia].
Qed.

Lemma totalCoverage_closed ps : forall d,
  int64_range (NumStmt d) -> int64_range (CoverCount d) ->
  totalCoverage ps d
  = set_CoverCount (wrap64 (CoverCount d + coveredTotal ps))
      (set_NumStmt (wrap64 (NumStmt d + stmtTotal ps)) d).
Proof.
  unfold totalCoverage, coveredTotal, stmtTotal.
  induction ps as [|p ps IH]; intros d Hn Hc.
  - cbn. rewrite !Z.add_0_r, !wrap64_id by assumption. now destruct d.
  - cbn [fold_left fmap list_fmap].
    rewrite totalBlocks_closed by assumption.
    rewrite IH by (cbn; apply wrap64_range). cbn.
    change (foldr Z.add 0) with Zsum. now rewrite !wrap64_add_add.
Qed.

Lemma prevBlocks_closed bs : forall d,
  int64_range (PrevNumStmt d) -> int64_range (PrevCoverCount d) ->
  fold_left prevBlock bs d
  = set_PrevCoverCount (wrap64 (PrevCoverCount d + Zsum (coveredWeight <$> bs)))
      (set_PrevNumStmt (wrap64 (PrevNumStmt d + Zsum (cover.NumStmt <$> bs))) d).
Proof.
  induction bs as [|b bs IH]; intros d Hn Hc.
  - cbn. rewrite !Z.add_0_r, !wrap64_id by assumption. now destruct d.
  - cbn [fold_left fmap list_fmap].
    rewrite !Zsum_cons.
    assert (Hw : coveredWeight b = if 0 <? cover.Count b then cover.NumStmt b else 0)
      by reflexivity.
    rewrite Hw. unfold prevBlock at 2.
    destruct (0 <? cover.Count b).
    + rewrite IH by apply add64_range.
      unfold set_PrevCoverCount, set_PrevNumStmt, add64; cbn. f_equal; first [apply wrap64_add_add | f_equal; lia].
    + rewrite IH by (try apply add64_range; exact Hc).
      unfold set_PrevCoverCount, set_PrevNumStmt, add64; cbn. f_equal; first [apply wrap64_add_add | f_equal; lia].
Qed.

Lemma prevCoverage_closed ps : forall d,
  int64_range (PrevNumStmt d) -> int64_range (PrevCoverCount d) ->
  prevCoverage ps d
  = set_PrevCoverCount (wrap64 (PrevCoverCount d + coveredTotal ps))
      (set_PrevNumStmt (wrap64 (PrevNumStmt d + stmtTotal ps)) d).
Proof.
  unfold prevCoverage, coveredTotal, stmtTotal.
  induction ps as [|p ps IH]; intros d Hn Hc.
  - cbn. rewrite !Z.add_0_r, !wrap64_id by assumption. now destruct d.
  - cbn [fold_left fmap list_fmap].
    rewrite prevBlocks_closed by assumption.
    rewrite IH by (cbn; apply wrap64_range). cbn.
    change (foldr Z.add 0) with Zsum. now rewrite !wrap64_add_add.
Qed.

End Totals.

(** ** computeCoverage in closed form *)

Section Closed.

Lemma patchCoverage_inv (Q : Acc -> Prop) diffFiles ps :
  (forall p b n s a, In p ps -> In b (cover.Blocks p) -> Q a -> Q (credit p b n s a)) ->
  forall a, Q a -> Q (patchCoverage diffFiles ps a).
Proof.
  intros Hcredit. unfold patchCoverage. apply fold_left_inv. intros a p Hp.
  unfold profileStep. revert a. apply fold_left_inv. intros a f _ Ha.
  unfold fileStep. destruct (negb _); [exact Ha|].
  revert a Ha. apply fold_left_inv. intros a b Hb Ha.
  unfold blockStep. destruct (scanFragments _ _) as [[n s]|]; [|exact Ha].
  now apply Hcredit.
Qed.

Lemma patchOnly_patchCoverage diffFiles ps :
  patchOnly (data (patchCoverage diffFiles ps zeroAcc)).
Proof.
  apply (patchCoverage_inv (fun a => patchOnly (data a))); [|reflexivity].
  intros p b n s a _ _ H. unfold patchOnly, credit in *.
  destruct (0 <? cover.Count b); cbn [data]; rewrite H; reflexivity.
Qed.

Lemma sums_inv_patchCoverage diffFiles ps :
  sums_inv (patchCoverage diffFiles ps zeroAcc).
Proof.
  apply (patchCoverage_inv sums_inv).
  - intros p b n s a _ _ [Hn Hc]. unfold sums_inv, credit.
    destruct (0 <? cover.Count b); cbn [data coveredLines partiallyCoveredLines];
      rewrite !mapSum_appendAt; cbn [PatchNumStmt PatchCoverCount set_PatchNumStmt
        set_PatchCoverCount Line.NumStmt]; rewrite ?Hn, ?Hc; unfold add64;
      rewrite !wrap64_add_l; split; f_equal; lia.
  - unfold sums_inv. cbn. rewrite !mapSum_empty. split; reflexivity.
Qed.

Lemma patch_uncovered diffFiles ps :
  let a := patchCoverage diffFiles ps zeroAcc in
  forall k l, In l (partiallyCoveredLines a !!! k) ->
              isLineCovered l (coveredLines a !!! k) = false.
Proof.
  intros a k l Hl. destruct (In_lookup_total _ _ _ Hl) as (ls & Hk & Hin).
  eapply candidates_uncovered; try eassumption.
  apply counts_split_patchCoverage, counts_split_zero.
Qed.

Lemma int64_range_0 : int64_range 0.
Proof. unfold int64_range. lia. Qed.

Lemma computeCoverage_closed w diffFiles ps prev :
  computeCoverage w diffFiles ps prev
  = (percentages (rawReport w diffFiles ps prev), None).
Proof.
  unfold computeCoverage, rawReport. cbv zeta.
  set (a := patchCoverage diffFiles ps zeroAcc).
  pose proof (patchOnly_patchCoverage diffFiles ps) as Hd. fold a in Hd.
  rewrite printUncoveredLines_closed by apply patch_uncovered.
  assert (Ht : totalCoverage ps (data a)
               = set_CoverCount (wrap64 (coveredTotal ps))
                   (set_NumStmt (wrap64 (stmtTotal ps)) (data a))).
  { rewrite totalCoverage_closed; rewrite Hd; cbn; try apply int64_range_0. reflexivity. }
  rewrite Ht.
  rewrite prevCoverage_closed; cbn [PrevNumStmt PrevCoverCount set_CoverCount set_NumStmt];
    rewrite Hd; cbn; try apply int64_range_0.
  reflexivity.
Qed.

End Closed.

(** ** Percentages and the error result *)

Lemma percentages_spec d :
  floatsZero d ->
  let r := percentages d in
  NumStmt r = NumStmt d /\ CoverCount r = CoverCount d
  /\ PatchNumStmt r = PatchNumStmt d /\ PatchCoverCount r = PatchCoverCount d
  /\ PrevNumStmt r = PrevNumStmt d /\ PrevCoverCount r = PrevCoverCount d
  /\ HasPrevCoverage r = HasPrevCoverage d
  /\ Uncovered_lines r = Uncovered_lines d
  /\ Coverage r = (if NumStmt d =? 0 then 0%float
                   else percent (CoverCount d) (NumStmt d))
  /\ PatchCoverage r = (if PatchNumStmt d =? 0 then 100%float
                        else percent (PatchCoverCount d) (PatchNumStmt d))
  /\ PrevCoverage r = (if PrevNumStmt d =? 0 then 0%float
                       else percent (PrevCoverCount d) (PrevNumStmt d)).
Proof.
  intros (Hc & Hp & Hv). unfold percentages. cbv zeta.
  destruct (NumStmt d =? 0) eqn:E1; cbn [negb];
    cbn [PatchNumStmt set_Coverage];
    destruct (PatchNumStmt d =? 0) eqn:E2; cbn [negb];
    cbn [PrevNumStmt set_Coverage set_PatchCoverage];
    destruct (PrevNumStmt d =? 0) eqn:E3; cbn [negb];
    cbn [NumStmt CoverCount Coverage PatchNumStmt PatchCoverCount PatchCoverage
         HasPrevCoverage PrevNumStmt PrevCoverCount PrevCoverage Uncovered_lines
         set_Coverage set_PatchCoverage set_PrevCoverage];
    rewrite ?E2; cbn [NumStmt CoverCount Coverage PatchNumStmt PatchCoverCount
         PatchCoverage HasPrevCoverage PrevNumStmt PrevCoverCount PrevCoverage
         Uncovered_lines set_Coverage set_PatchCoverage set_PrevCoverage];
    repeat split; try assumption; try reflexivity; apply f100_is_100.
Qed.

(** C3. In the report each percentage is [float64(cover) / float64(stmts) * 100]
    of the report's own counters when the statement counter is not zero;
    [Coverage] and [PrevCoverage] are 0 when theirs is zero, and
    [PatchCoverage] is 100 when [PatchNumStmt], as step 4 left it, is zero.
    A quotient is formed only under a non-zero test of its divisor, and the
    error result is nil. *)
Theorem percentages_guarded (w : World) (diffFiles : list gitdiff.File)
    (coverProfiles prevCoverProfiles : list cover.Profile) :
  let r := (computeCoverage w diffFiles coverProfiles prevCoverProfiles).1 in
  Coverage r = (if NumStmt r =? 0 then 0%float
                else (float64_of_int (CoverCount r) / float64_of_int (NumStmt r) * 100)%float)
  /\ PatchCoverage r
     = (if PatchNumStmt r =? 0 then 100%float
        else (float64_of_int (PatchCoverCount r) / float64_of_int (PatchNumStmt r) * 100)%float)
  /\ PrevCoverage r
     = (if PrevNumStmt r =? 0 then 0%float
        else (float64_of_int (PrevCoverCount r) / float64_of_int (PrevNumStmt r) * 100)%float)
  /\ (computeCoverage w diffFiles coverProfiles prevCoverProfiles).2 = None.
Proof.
  rewrite computeCoverage_closed. cbn [fst snd]. cbv zeta.
  destruct (percentages_spec (rawReport w diffFiles coverProfiles prevCoverProfiles))
    as (-> & -> & -> & -> & -> & -> & _ & _ & -> & -> & ->);
    [repeat split; reflexivity|].
  unfold percent. rewrite f100_is_100. repeat split; reflexivity.
Qed.

Lemma percentages_set_Uncovered_lines v d :
  percentages (set_Uncovered_lines v d) = set_Uncovered_lines v (percentages d).
Proof.
  unfold percentages. cbv zeta. cbn [NumStmt set_Uncovered_lines].
  destruct (NumStmt d =? 0); cbn [negb PatchNumStmt set_Coverage set_Uncovered_lines];
    destruct (PatchNumStmt d =? 0) eqn:E2;
    cbn [negb PrevNumStmt set_Coverage set_PatchCoverage set_Uncovered_lines];
    destruct (PrevNumStmt d =? 0);
    cbn [negb PatchNumStmt set_Coverage set_PatchCoverage set_PrevCoverage
         set_Uncovered_lines];
    rewrite ?E2; reflexivity.
Qed.

(** C9. [computeCoverage] returns a report and a nil error for all inputs and
    whatever the file system does.  When uncovered_lines.txt cannot be
    created the report is the one of a successful run, except that its text
    is what was read back: the file's earlier content, or nothing. *)
Theorem computeCoverage_never_fails (w : World) (diffFiles : list gitdiff.File)
    (coverProfiles prevCoverProfiles : list cover.Profile) :
  (computeCoverage w diffFiles coverProfiles prevCoverProfiles).2 = None
  /\ computeCoverage (failCreate w) diffFiles coverProfiles prevCoverProfiles
     = (set_Uncovered_lines (if canRead w then onDisk w else "")
          (computeCoverage w diffFiles coverProfiles prevCoverProfiles).1,
        None).
Proof.
  rewrite !computeCoverage_closed. cbn [fst snd]. split; [reflexivity|].
  f_equal.
  change (rawReport (failCreate w) diffFiles coverProfiles prevCoverProfiles)
    with (set_Uncovered_lines (if canRead w then onDisk w else "")
            (rawReport w diffFiles coverProfiles prevCoverProfiles)).
  apply percentages_set_Uncovered_lines.
Qed.

(** ** Step 4 does not depend on the order of the files *)

Section Order.

Lemma Zsum_flat_map {A} (f : A -> list Z) (l : list A) :
  Zsum (flat_map f l) = Zsum ((fun x => Zsum (f x)) <$> l).
Proof.
  induction l as [|x l IH]; [reflexivity|].
  cbn [flat_map fmap list_fmap]. now rewrite Zsum_app, Zsum_cons, IH.
Qed.

Lemma Zsum_invalidStmts ls : Zsum (invalidStmts ls) = Zsum (invalidWeight <$> ls).
Proof.
  unfold invalidStmts. induction ls as [|l ls IH]; [reflexivity|].
  cbn [List.filter fmap list_fmap]. rewrite Zsum_cons. unfold invalidWeight at 1.
  destruct (isInvalidLine (Line.LineString l)); cbn [fmap list_fmap];
    rewrite ?Zsum_cons, IH; lia.
Qed.

Lemma takenBack_sum (P : gmap string (list Line.t)) keys :
  Permutation keys (map_to_list P).*1 ->
  Zsum (takenBack P keys) = mapSum invalidWeight P.
Proof.
  intros Hperm. unfold takenBack, mapSum. rewrite Zsum_flat_map.
  rewrite (Zsum_perm _ _ (fmap_Permutation _ _ _ Hperm)).
  rewrite <- list_fmap_compose. f_equal.
  apply Forall_fmap_ext_1, Forall_forall. intros [k ls] Hin. cbn.
  apply elem_of_map_to_list in Hin.
  rewrite (lookup_total_correct _ _ _ Hin). apply Zsum_invalidStmts.
Qed.

Lemma Zsum_fmap_plus {A} (g h : A -> Z) (l : list A) :
  Zsum ((fun x => g x + h x) <$> l) = Zsum (g <$> l) + Zsum (h <$> l).
Proof.
  induction l as [|x l IH]; [reflexivity|].
  cbn [fmap list_fmap]. rewrite !Zsum_cons, IH. lia.
Qed.

Lemma mapSum_split (m : gmap string (list Line.t)) :
  mapSum Line.NumStmt m = mapSum validWeight m + mapSum invalidWeight m.
Proof.
  unfold mapSum. rewrite <- Zsum_fmap_plus. f_equal.
  apply Forall_fmap_ext_1, Forall_forall. intros [k ls] _. cbn.
  rewrite <- Zsum_fmap_plus. f_equal.
  apply Forall_fmap_ext_1, Forall_forall. intros l _.
  unfold validWeight, invalidWeight. destruct (isInvalidLine _); lia.
Qed.

(** The patch counters of the report, for a run-time whose [range] visits
    every key once: executed blocks count whatever their line's text, the
    others only when the text is valid. *)
Lemma final_patch_counters w diffFiles ps prev :
  range_ok w ->
  let a := patchCoverage diffFiles ps zeroAcc in
  let r := (computeCoverage w diffFiles ps prev).1 in
  PatchNumStmt r
  = wrap64 (mapSum Line.NumStmt (coveredLines a)
            + mapSum validWeight (partiallyCoveredLines a))
  /\ PatchCoverCount r = wrap64 (mapSum Line.NumStmt (coveredLines a)).
Proof.
  intros Hw a r. subst r. rewrite computeCoverage_closed. cbn [fst].
  destruct (percentages_spec (rawReport w diffFiles ps prev))
    as (_ & _ & -> & -> & _); [repeat split; reflexivity|].
  unfold rawReport. cbv zeta. cbn [PatchNumStmt PatchCoverCount]. fold a.
  destruct (sums_inv_patchCoverage diffFiles ps) as [Hn Hc]. fold a in Hn, Hc.
  split; [|exact Hc].
  rewrite fold_sub64 by (rewrite Hn; apply wrap64_range).
  rewrite takenBack_sum by apply Hw.
  rewrite Hn, wrap64_sub_l. f_equal.
  rewrite (mapSum_split (partiallyCoveredLines a)). lia.
Qed.

End Order.

(** ** Bounds on the counters *)

Section Bounds.

Lemma Zsum_le_fmap {A} (g h : A -> Z) (l : list A) :
  (forall x, In x l -> g x <= h x) -> Zsum (g <$> l) <= Zsum (h <$> l).
Proof.
  induction l as [|x l IH]; intros H; [cbn; lia|].
  cbn [fmap list_fmap]. rewrite !Zsum_cons.
  specialize (H x (or_introl eq_refl)) as Hx.
  assert (Zsum (g <$> l) <= Zsum (h <$> l)) by (apply IH; intros; apply H; now right).
  lia.
Qed.

Lemma mapSum_le_on (g h : Line.t -> Z) (m : gmap string (list Line.t)) :
  (forall k ls l, m !! k = Some ls -> In l ls -> g l <= h l) ->
  mapSum g m <= mapSum h m.
Proof.
  intros H. unfold mapSum. apply Zsum_le_fmap. intros [k ls] Hin. cbn.
  apply Zsum_le_fmap. intros l Hl. apply (H k ls); [|exact Hl].
  apply elem_of_map_to_list, list_elem_of_In, Hin.
Qed.

Lemma Zsum_zero {A} (l : list A) : Zsum ((fun _ => 0) <$> l) = 0.
Proof.
  induction l as [|x l IH]; [reflexivity|]. cbn [fmap list_fmap]. now rewrite Zsum_cons, IH.
Qed.

Lemma mapSum_zero (m : gmap string (list Line.t)) : mapSum (fun _ => 0) m = 0.
Proof.
  unfold mapSum.
  transitivity (Zsum ((fun _ => 0) <$> map_to_list m)); [|apply Zsum_zero].
  f_equal. apply Forall_fmap_ext_1, Forall_forall. intros kv _. apply Zsum_zero.
Qed.

Lemma mapSum_nonneg_on (g : Line.t -> Z) (m : gmap string (list Line.t)) :
  (forall k ls l, m !! k = Some ls -> In l ls -> 0 <= g l) -> 0 <= mapSum g m.
Proof. intros H. rewrite <- (mapSum_zero m). now apply mapSum_le_on. Qed.

Lemma lines_nonneg_patchCoverage diffFiles ps :
  nonnegStmts ps -> lines_nonneg (patchCoverage diffFiles ps zeroAcc).
Proof.
  intros Hps. apply (patchCoverage_inv lines_nonneg).
  - intros p b n s a Hp Hb [Hc Hpc]. specialize (Hps p b Hp Hb).
    unfold lines_nonneg, credit.
    destruct (0 <? cover.Count b); cbn [coveredLines partiallyCoveredLines];
      split; try assumption;
      apply (appendAt_Forall (fun l => 0 <= Line.NumStmt l)); assumption.
  - split; intros k ls l H; cbn in H; rewrite lookup_empty in H; discriminate.
Qed.

Lemma creditedStmts_credit p b n s a :
  creditedStmts (credit p b n s a) = creditedStmts a + cover.NumStmt b.
Proof.
  unfold creditedStmts, credit.
  destruct (0 <? cover.Count b); cbn [coveredLines partiallyCoveredLines];
    rewrite mapSum_appendAt; cbn; lia.
Qed.

Lemma creditedStmts_blocks p f bs : forall a,
  (forall b, In b bs -> 0 <= cover.NumStmt b) ->
  creditedStmts (fold_left (blockStep p f) bs a)
  <= creditedStmts a + Zsum (cover.NumStmt <$> bs).
Proof.
  induction bs as [|b bs IH]; intros a H; [cbn; lia|].
  cbn [fold_left fmap list_fmap]. rewrite Zsum_cons.
  specialize (IH (blockStep p f a b) (fun b' Hb' => H b' (or_intror Hb'))).
  specialize (H b (or_introl eq_refl)).
  assert (creditedStmts (blockStep p f a b) <= creditedStmts a + cover.NumStmt b).
  { unfold blockStep. destruct (scanFragments _ _) as [[n s]|];
      [rewrite creditedStmts_credit|]; lia. }
  lia.
Qed.

Lemma creditedStmts_files p fs : forall a,
  (forall b, In b (cover.Blocks p) -> 0 <= cover.NumStmt b) ->
  creditedStmts (fold_left (fileStep p) fs a)
  <= creditedStmts a + Z.of_nat (length fs) * Zsum (cover.NumStmt <$> cover.Blocks p).
Proof.
  intros a H. revert a.
  assert (0 <= Zsum (cover.NumStmt <$> cover.Blocks p)) as Hs.
  { apply Zsum_nonneg, Forall_fmap, Forall_forall. intros b Hb. apply H, list_elem_of_In, Hb. }
  induction fs as [|f fs IH]; intros a; [cbn; lia|].
  cbn [fold_left length]. rewrite Nat2Z.inj_succ. specialize (IH (fileStep p a f)).
  assert (creditedStmts (fileStep p a f)
          <= creditedStmts a + Zsum (cover.NumStmt <$> cover.Blocks p)).
  { unfold fileStep. destruct (negb _); [lia|]. now apply creditedStmts_blocks. }
  lia.
Qed.

Lemma creditedStmts_patchCoverage diffFiles ps : forall a,
  nonnegStmts ps ->
  creditedStmts (patchCoverage diffFiles ps a)
  <= creditedStmts a + Z.of_nat (length diffFiles) * stmtTotal ps.
Proof.
  unfold patchCoverage, stmtTotal.
  induction ps as [|p ps IH]; intros a H; [cbn; lia|].
  cbn [fold_left fmap list_fmap]. rewrite Zsum_cons.
  assert (Hps : nonnegStmts ps) by (intros q b Hq; apply H; now right).
  specialize (IH (profileStep diffFiles a p) Hps).
  pose proof (creditedStmts_files p diffFiles a
                (fun b Hb => H p b (or_introl eq_refl) Hb)) as Hp.
  unfold profileStep in *. lia.
Qed.

Lemma totals_bounds ps :
  nonnegStmts ps -> 0 <= coveredTotal ps <= stmtTotal ps.
Proof.
  unfold coveredTotal, stmtTotal. intros H.
  induction ps as [|p ps IH]; [cbn; lia|].
  cbn [fmap list_fmap]. rewrite !Zsum_cons.
  assert (0 <= Zsum (coveredWeight <$> cover.Blocks p)
          <= Zsum (cover.NumStmt <$> cover.Blocks p)).
  { assert (Hb : forall b, In b (cover.Blocks p) -> 0 <= cover.NumStmt b)
      by (intros b; apply H; now left).
    revert Hb. generalize (cover.Blocks p). intros bs Hb.
    induction bs as [|b bs IHb]; [cbn; lia|].
    cbn [fmap list_fmap]. rewrite !Zsum_cons.
    specialize (IHb (fun b' Hb' => Hb b' (or_intror Hb'))).
    specialize (Hb b (or_introl eq_refl)).
    unfold coveredWeight at 1 3. destruct (0 <? cover.Count b); lia. }
  assert (0 <= Zsum ((fun p => Zsum (coveredWeight <$> cover.Blocks p)) <$> ps)
          <= Zsum ((fun p => Zsum (cover.NumStmt <$> cover.Blocks p)) <$> ps))
    by (apply IH; intros q b Hq; apply H; now right).
  lia.
Qed.

End Bounds.

Lemma range_ok_world0 : range_ok world0.
Proof. intros keys. apply Permutation_refl. Qed.

Lemma range_ok_world1 : range_ok world1.
Proof. intros keys. apply Permutation_sym, Permutation_rev. Qed.

(** Statement counts that add up to 2^63 wrap around: the total becomes
    negative while the covered count stays positive. *)
Lemma overflow_breaks_bounds :
  ~ report_bounded (computeCoverage world0 [] overflowing []).1.
Proof. intros [H _]. vm_compute in H. apply H. reflexivity. Qed.

Example overflow_counters :
  NumStmt (computeCoverage world0 [] overflowing []).1 = - 2 ^ 63
  /\ CoverCount (computeCoverage world0 [] overflowing []).1 = 2 ^ 63 - 1.
Proof. split; vm_compute; reflexivity. Qed.

(** C2, amended. When no block has a negative statement count and the
    statement totals stay below 2^63 (the current profiles' total, times the
    number of diff files when there are several, and the previous profiles'
    total), the report satisfies [CoverCount <= NumStmt],
    [PatchCoverCount <= PatchNumStmt] and [PrevCoverCount <= PrevNumStmt],
    step 4's subtractions included. *)
Theorem counters_bounded (w : World) (diffFiles : list gitdiff.File)
    (coverProfiles prevCoverProfiles : list cover.Profile) :
  range_ok w ->
  nonnegStmts coverProfiles -> nonnegStmts prevCoverProfiles ->
  Z.max 1 (Z.of_nat (length diffFiles)) * stmtTotal coverProfiles < 2 ^ 63 ->
  stmtTotal prevCoverProfiles < 2 ^ 63 ->
  report_bounded (computeCoverage w diffFiles coverProfiles prevCoverProfiles).1.
Proof.
  intros Hw Hps Hprev Hbound Hpbound.
  destruct (totals_bounds _ Hps) as [Hc0 Hc1].
  destruct (totals_bounds _ Hprev) as [Hv0 Hv1].
  assert (Hs : stmtTotal coverProfiles < 2 ^ 63) by nia.
  destruct (final_patch_counters w diffFiles coverProfiles prevCoverProfiles Hw)
    as [Hpn Hpc].
  unfold report_bounded. rewrite Hpn, Hpc. clear Hpn Hpc.
  rewrite computeCoverage_closed. cbn [fst].
  destruct (percentages_spec (rawReport w diffFiles coverProfiles prevCoverProfiles))
    as (-> & -> & _ & _ & -> & -> & _); [repeat split; reflexivity|].
  unfold rawReport. cbv zeta. cbn [NumStmt CoverCount PrevNumStmt PrevCoverCount].
  set (a := patchCoverage diffFiles coverProfiles zeroAcc).
  destruct (lines_nonneg_patchCoverage diffFiles _ Hps) as [Hnc Hnp]. fold a in Hnc, Hnp.
  pose proof (creditedStmts_patchCoverage diffFiles coverProfiles zeroAcc Hps) as Hcr.
  fold a in Hcr. unfold creditedStmts in Hcr. cbn [coveredLines partiallyCoveredLines zeroAcc] in Hcr.
  rewrite !mapSum_empty in Hcr.
  assert (0 <= mapSum Line.NumStmt (coveredLines a)) by now apply mapSum_nonneg_on.
  assert (0 <= mapSum validWeight (partiallyCoveredLines a)).
  { apply mapSum_nonneg_on. intros k ls l Hk Hl. unfold validWeight.
    destruct (isInvalidLine _); [lia | eapply Hnp; eassumption]. }
  assert (mapSum validWeight (partiallyCoveredLines a)
          <= mapSum Line.NumStmt (partiallyCoveredLines a)).
  { apply mapSum_le_on. intros k ls l Hk Hl. unfold validWeight.
    destruct (isInvalidLine _); [eapply Hnp; eassumption | lia]. }
  assert (Z.of_nat (length diffFiles) * stmtTotal coverProfiles < 2 ^ 63) by nia.
  rewrite !wrap64_id by (unfold int64_range; lia). lia.
Qed.

Lemma counters_bounded_witness :
  report_bounded (computeCoverage world0 [hunkAt9] [profileA 0; profileA 3] [profileA 3]).1.
Proof.
  apply (counters_bounded world0 [hunkAt9] [profileA 0; profileA 3] [profileA 3]).
  - intros keys. apply Permutation_refl.
  - intros p b [<-|[<-|[]]] [<-|[]]; vm_compute; discriminate.
  - intros p b [<-|[]] [<-|[]]; vm_compute; discriminate.
  - vm_compute. reflexivity.
  - vm_compute. reflexivity.
Defined.

(** C1: a comment line added inside a block that was executed. The block's
    statement stays in [PatchNumStmt]; in a block that was not executed it is
    taken back. *)
Theorem invalid_line_of_executed_block_counted :
  isInvalidLine "// only a comment" = true
  /\ PatchNumStmt (computeCoverage world0 [commentAt10] [blockAt10 1] []).1 = 1
  /\ PatchCoverCount (computeCoverage world0 [commentAt10] [blockAt10 1] []).1 = 1
  /\ PatchNumStmt (computeCoverage world0 [commentAt10] [blockAt10 0] []).1 = 0.
Proof. repeat split; vm_compute; reflexivity. Qed.

(** ** Two runs on the same inputs *)

(** With two files in the candidate map, visiting them in the two possible
    orders writes the two sections in different orders. *)
Lemma map_order_changes_text : ~ deterministic twoFiles twoProfiles [].
Proof.
  intros H.
  specialize (H world0 world1 range_ok_world0 range_ok_world1 eq_refl eq_refl eq_refl).
  apply (f_equal (fun r : CoverageData * option error => Uncovered_lines r.1)) in H.
  vm_compute in H. discriminate H.
Qed.

Lemma rawReport_counters w1 w2 diffFiles ps prev :
  range_ok w1 -> range_ok w2 ->
  set_Uncovered_lines "" (rawReport w1 diffFiles ps prev)
  = set_Uncovered_lines "" (rawReport w2 diffFiles ps prev).
Proof.
  intros H1 H2. unfold rawReport, set_Uncovered_lines. cbv zeta. cbn.
  set (a := patchCoverage diffFiles ps zeroAcc).
  destruct (sums_inv_patchCoverage diffFiles ps) as [Hn _]. fold a in Hn.
  f_equal.
  rewrite !fold_sub64 by (rewrite Hn; apply wrap64_range).
  rewrite !takenBack_sum by (apply H1 || apply H2). reflexivity.
Qed.

(** C6, amended. Two runs on the same inputs agree on every field of the
    report other than the uncovered-lines text.  The text is what is read
    back from the side file: the per-file sections in the order in which the
    run's [range] visits the files.  The two runs visit the same files,
    possibly in different orders; when they visit them in the same order
    (as they must when at most one file has candidate lines) and the file
    system answers alike, the reports are equal. *)
Theorem same_report_up_to_section_order (w1 w2 : World) (diffFiles : list gitdiff.File)
    (coverProfiles prevCoverProfiles : list cover.Profile) :
  range_ok w1 -> range_ok w2 ->
  let P := partiallyCoveredLines (patchCoverage diffFiles coverProfiles zeroAcc) in
  let r1 := (computeCoverage w1 diffFiles coverProfiles prevCoverProfiles).1 in
  let r2 := (computeCoverage w2 diffFiles coverProfiles prevCoverProfiles).1 in
  set_Uncovered_lines "" r1 = set_Uncovered_lines "" r2
  /\ Uncovered_lines r1
     = readBack w1 (String.concat "" (sectionOf P <$> rangeKeys w1 P))
  /\ Uncovered_lines r2
     = readBack w2 (String.concat "" (sectionOf P <$> rangeKeys w2 P))
  /\ Permutation (rangeKeys w1 P) (rangeKeys w2 P)
  /\ (rangeKeys w1 P = rangeKeys w2 P ->
      canCreate w1 = canCreate w2 -> canRead w1 = canRead w2 -> onDisk w1 = onDisk w2 ->
      r1 = r2)
  /\ ((length (map_to_list P) <= 1)%nat -> rangeKeys w1 P = rangeKeys w2 P).
Proof.
  intros H1 H2 P r1 r2. subst r1 r2. rewrite !computeCoverage_closed. cbn [fst].
  assert (Hone : (length (map_to_list P) <= 1)%nat -> rangeKeys w1 P = rangeKeys w2 P).
  { unfold rangeKeys. intros Hlen. specialize (H1 (map_to_list P).*1).
    specialize (H2 (map_to_list P).*1). rewrite <- (length_fmap fst) in Hlen.
    destruct ((map_to_list P).*1) as [|k [|k' ks]]; [| |cbn in Hlen; lia].
    - apply Permutation_sym, Permutation_nil in H1, H2. congruence.
    - apply Permutation_sym, Permutation_length_1_inv in H1, H2. congruence. }
  repeat split; [| | | | |exact Hone].
  - rewrite <- !percentages_set_Uncovered_lines. f_equal. now apply rawReport_counters.
  - destruct (percentages_spec (rawReport w1 diffFiles coverProfiles prevCoverProfiles))
      as (_ & _ & _ & _ & _ & _ & _ & -> & _); [repeat split; reflexivity|]. reflexivity.
  - destruct (percentages_spec (rawReport w2 diffFiles coverProfiles prevCoverProfiles))
      as (_ & _ & _ & _ & _ & _ & _ & -> & _); [repeat split; reflexivity|]. reflexivity.
  - unfold rangeKeys. etransitivity; [apply H1 | symmetry; apply H2].
  - intros Hk Hc Hr Hd. f_equal. unfold rawReport, readBack. cbv zeta. fold P.
    now rewrite Hk, Hc, Hr, Hd.
Qed.

Lemma same_report_up_to_section_order_witness :
  set_Uncovered_lines "" (computeCoverage world0 twoFiles twoProfiles []).1
  = set_Uncovered_lines "" (computeCoverage world1 twoFiles twoProfiles []).1.
Proof.
  apply (same_report_up_to_section_order world0 world1 twoFiles twoProfiles []).
  - intros keys. apply Permutation_refl.
  - intros keys. apply Permutation_sym, Permutation_rev.
Defined.

(** ** File matching *)

Lemma profileStep_unmatched p diffFiles a :
  (forall f, In f diffFiles -> ~ endsWith (cover.FileName p) (gitdiff.NewName f)) ->
  profileStep diffFiles a p = a.
Proof.
  intros Hall. unfold profileStep. apply fold_left_id. intros f Hf a'.
  unfold fileStep. destruct (strings.HasSuffix _ _) eqn:Hs; [|reflexivity].
  exfalso. apply (Hall f Hf). now apply HasSuffix_iff.
Qed.

Lemma patchCoverage_unmatched p diffFiles ps1 ps2 a :
  (forall f, In f diffFiles -> ~ endsWith (cover.FileName p) (gitdiff.NewName f)) ->
  patchCoverage diffFiles (ps1 ++ p :: ps2) a = patchCoverage diffFiles (ps1 ++ ps2) a.
Proof.
  intros Hall. unfold patchCoverage. rewrite !fold_left_app. cbn [fold_left].
  now rewrite profileStep_unmatched.
Qed.

(** C7. A diff file takes part in the patch statistics of a profile exactly
    when the profile's file name ends with the diff file's new name: then the
    profile's blocks are matched against it, otherwise the accumulated
    statistics and line sets are left as they are.  A profile name with a
    module prefix ends with the bare path.  A profile none of whose diff
    files match leaves the accumulator unchanged, and a report computed with
    it has the patch statistics of the report computed without it. *)
Theorem suffix_file_matching (p : cover.Profile) (f : gitdiff.File)
    (diffFiles : list gitdiff.File) (a : Acc) :
  (endsWith (cover.FileName p) (gitdiff.NewName f) ->
     fileStep p a f = fold_left (blockStep p f) (cover.Blocks p) a)
  /\ (~ endsWith (cover.FileName p) (gitdiff.NewName f) -> fileStep p a f = a)
  /\ strings.HasSuffix "github.com/org/repo/pkg/file.go" "pkg/file.go" = true
  /\ ((forall f', In f' diffFiles -> ~ endsWith (cover.FileName p) (gitdiff.NewName f')) ->
        profileStep diffFiles a p = a
        /\ forall w ps1 ps2 prev,
             let r := (computeCoverage w diffFiles (ps1 ++ p :: ps2) prev).1 in
             let r' := (computeCoverage w diffFiles (ps1 ++ ps2) prev).1 in
             PatchNumStmt r = PatchNumStmt r'
             /\ PatchCoverCount r = PatchCoverCount r'
             /\ PatchCoverage r = PatchCoverage r'
             /\ Uncovered_lines r = Uncovered_lines r').
Proof.
  repeat split.
  - intros He. apply HasSuffix_iff in He. unfold fileStep. now rewrite He.
  - intros Hn. unfold fileStep. destruct (strings.HasSuffix _ _) eqn:Hs; [|reflexivity].
    exfalso. apply Hn. now apply HasSuffix_iff.
  - now apply profileStep_unmatched.
  - rewrite !computeCoverage_closed. cbn [fst].
    destruct (percentages_spec (rawReport w diffFiles (ps1 ++ p :: ps2) prev))
      as (_ & _ & -> & _); [repeat split; reflexivity|].
    destruct (percentages_spec (rawReport w diffFiles (ps1 ++ ps2) prev))
      as (_ & _ & -> & _); [repeat split; reflexivity|].
    unfold rawReport. cbv zeta. cbn [PatchNumStmt].
    now rewrite patchCoverage_unmatched.
  - rewrite !computeCoverage_closed. cbn [fst].
    destruct (percentages_spec (rawReport w diffFiles (ps1 ++ p :: ps2) prev))
      as (_ & _ & _ & -> & _); [repeat split; reflexivity|].
    destruct (percentages_spec (rawReport w diffFiles (ps1 ++ ps2) prev))
      as (_ & _ & _ & -> & _); [repeat split; reflexivity|].
    unfold rawReport. cbv zeta. cbn [PatchCoverCount].
    now rewrite patchCoverage_unmatched.
  - rewrite !computeCoverage_closed. cbn [fst].
    destruct (percentages_spec (rawReport w diffFiles (ps1 ++ p :: ps2) prev))
      as (_ & _ & _ & _ & _ & _ & _ & _ & _ & -> & _); [repeat split; reflexivity|].
    destruct (percentages_spec (rawReport w diffFiles (ps1 ++ ps2) prev))
      as (_ & _ & _ & _ & _ & _ & _ & _ & _ & -> & _); [repeat split; reflexivity|].
    unfold rawReport. cbv zeta. cbn [PatchNumStmt PatchCoverCount].
    now rewrite patchCoverage_unmatched.
  - rewrite !computeCoverage_closed. cbn [fst].
    destruct (percentages_spec (rawReport w diffFiles (ps1 ++ p :: ps2) prev))
      as (_ & _ & _ & _ & _ & _ & _ & -> & _); [repeat split; reflexivity|].
    destruct (percentages_spec (rawReport w diffFiles (ps1 ++ ps2) prev))
      as (_ & _ & _ & _ & _ & _ & _ & -> & _); [repeat split; reflexivity|].
    unfold rawReport. cbv zeta. cbn [Uncovered_lines].
    now rewrite patchCoverage_unmatched.
Qed.

Lemma suffix_file_matching_witness :
  fileStep (profile "github.com/org/repo/pkg/file.go" [block 1 1 1 1]) zeroAcc
           (oneHunk "pkg/file.go" 1 [addLine "f()"])
  = fold_left (blockStep (profile "github.com/org/repo/pkg/file.go" [block 1 1 1 1])
                         (oneHunk "pkg/file.go" 1 [addLine "f()"]))
              [block 1 1 1 1] zeroAcc.
Proof.
  apply (suffix_file_matching (profile "github.com/org/repo/pkg/file.go" [block 1 1 1 1])
           (oneHunk "pkg/file.go" 1 [addLine "f()"]) [] zeroAcc).
  exists "github.com/org/repo/". reflexivity.
Defined.

(** * More of cover.go, and its callers *)

(** ** isLineCovered *)

(** X1. [isLineCovered] answers true exactly when some covered line has the
    same line number, the same text and the same execution count. *)
Theorem isLineCovered_iff (line : Line.t) (cov : list Line.t) :
  isLineCovered line cov = true <->
  exists c, In c cov
            /\ Line.LineNum c = Line.LineNum line
            /\ Line.LineString c = Line.LineString line
            /\ Line.CoverCount c = Line.CoverCount line.
Proof.
  induction cov as [|c cov IH]; cbn.
  - split; [discriminate | intros (c & [] & _)].
  - destruct ((Line.LineNum c =? Line.LineNum line)
              && String.eqb (Line.LineString c) (Line.LineString line)
              && (Line.CoverCount c =? Line.CoverCount line)) eqn:E.
    + split; [intros _ | reflexivity].
      apply andb_true_iff in E as [E E3]. apply andb_true_iff in E as [E1 E2].
      exists c. repeat split; [now left | now apply Z.eqb_eq | now apply String.eqb_eq
                              | now apply Z.eqb_eq].
    + rewrite IH. split.
      * intros (c' & Hin & H). exists c'. split; [now right | exact H].
      * intros (c' & [<-|Hin] & H1 & H2 & H3); [|exists c'; auto].
        exfalso. apply Z.eqb_eq in H1, H3. apply String.eqb_eq in H2.
        rewrite H1, H2, H3 in E. discriminate.
Qed.

(** ** Which blocks are credited *)

Lemma scanLines_None b pos lines : forall i0,
  scanLines b pos i0 lines = None <->
  (forall (j : nat) line, lines !! j = Some line -> gitdiff.Op line = gitdiff.OpAdd ->
     inBlock b (add64 pos (Z.of_nat (i0 + j))) = false).
Proof.
  induction lines as [|line rest IH]; intros i0.
  - split; [intros _ j l H; destruct j; discriminate | reflexivity].
  - cbn [scanLines]. split.
    + intros H [|j] l Hl Hop.
      * cbn in Hl. injection Hl as <-. rewrite Hop in H. rewrite Nat.add_0_r.
        destruct (inBlock b (add64 pos (Z.of_nat i0))); [discriminate | reflexivity].
      * cbn in Hl. replace (i0 + S j)%nat with (S i0 + j)%nat by lia.
        assert (Hr : scanLines b pos (S i0) rest = None).
        { destruct (gitdiff.Op line); try exact H.
          destruct (inBlock b (add64 pos (Z.of_nat i0))); [discriminate | exact H]. }
        exact (proj1 (IH (S i0)) Hr j l Hl Hop).
    + intros H.
      assert (Hrest : scanLines b pos (S i0) rest = None).
      { apply IH. intros j l Hl Hop. replace (S i0 + j)%nat with (i0 + S j)%nat by lia.
        apply (H (S j) l); assumption. }
      destruct (gitdiff.Op line) eqn:Hop; try exact Hrest.
      specialize (H 0%nat line eq_refl Hop). rewrite Nat.add_0_r in H. now rewrite H.
Qed.

Lemma scanFragments_None b frags :
  scanFragments b frags = None <->
  (forall t (j : nat) line, In t frags -> gitdiff.Lines t !! j = Some line ->
     gitdiff.Op line = gitdiff.OpAdd ->
     inBlock b (add64 (gitdiff.NewPosition t) (Z.of_nat j)) = false).
Proof.
  induction frags as [|t rest IH]; cbn [scanFragments].
  - split; [intros _ t j l [] | reflexivity].
  - destruct (scanLines b (gitdiff.NewPosition t) 0 (gitdiff.Lines t)) as [hit|] eqn:Hs.
    + split; [discriminate|]. intros H. exfalso.
      assert (scanLines b (gitdiff.NewPosition t) 0 (gitdiff.Lines t) = None);
        [|congruence].
      apply scanLines_None. intros j l Hl Hop. apply (H t j l); [now left | assumption..].
    + rewrite IH. split.
      * intros H t' j l [<-|Hin] Hl Hop; [|now apply (H t' j l)].
        exact (proj1 (scanLines_None _ _ _ 0%nat) Hs j l Hl Hop).
      * intros H t' j l Hin. apply H. now right.
Qed.

(** X2. For a matched diff file, a block is credited exactly when some added
    line of the file has its number within [StartLine, EndLine]: with no
    such line the pass over the block changes nothing, with one the block is
    credited with a line of its range. *)
Theorem block_credited_iff (p : cover.Profile) (f : gitdiff.File) (a : Acc)
    (b : cover.ProfileBlock) :
  (~ addLineIn b f -> blockStep p f a b = a)
  /\ (addLineIn b f ->
      exists n s, blockStep p f a b = credit p b n s a /\ inBlock b n = true).
Proof.
  unfold blockStep, addLineIn. split.
  - intros Hno. destruct (scanFragments b (gitdiff.TextFragments f)) as [[n s]|] eqn:Hs;
      [|reflexivity].
    exfalso. apply Hno.
    destruct (scanFragments_Some _ _ _ _ Hs) as (t & j & line & ? & ? & ? & -> & _ & ? & _).
    exists t, j, line. auto.
  - intros (t & j & line & Ht & Hj & Hop & Hin).
    destruct (scanFragments b (gitdiff.TextFragments f)) as [[n s]|] eqn:Hs.
    + exists n, s. split; [reflexivity|].
      now destruct (scanFragments_Some _ _ _ _ Hs) as (_ & _ & _ & _ & _ & _ & _ & _ & ? & _).
    + exfalso. rewrite (proj1 (scanFragments_None _ _) Hs t j line Ht Hj Hop) in Hin.
      discriminate.
Qed.

Lemma block_credited_iff_witness :
  exists n s, blockStep (profileA 3) hunkAt9 zeroAcc (block 12 20 1 1)
              = credit (profileA 3) (block 12 20 1 1) n s zeroAcc
              /\ inBlock (block 12 20 1 1) n = true.
Proof.
  apply (block_credited_iff (profileA 3) hunkAt9 zeroAcc (block 12 20 1 1)).
  exists {| gitdiff.NewPosition := 9;
            gitdiff.Lines := [contextLine "x"; addLine "a := 1"; addLine "b := 2";
                              addLine "c := 3"] |}, 3%nat, (addLine "c := 3").
  repeat split; try reflexivity. left. reflexivity.
Defined.

(** ** A diff without added lines *)

Lemma blockStep_noAdd p f a b :
  (forall t line, In t (gitdiff.TextFragments f) -> In line (gitdiff.Lines t) ->
     gitdiff.Op line <> gitdiff.OpAdd) ->
  blockStep p f a b = a.
Proof.
  intros H. unfold blockStep.
  destruct (scanFragments b (gitdiff.TextFragments f)) as [[n s]|] eqn:Hs; [|reflexivity].
  destruct (scanFragments_Some _ _ _ _ Hs) as (t & j & line & Ht & Hj & Hop & _).
  exfalso. apply (H t line Ht); [|exact Hop].
  apply list_elem_of_In. eapply list_elem_of_lookup_2. exact Hj.
Qed.

Lemma patchCoverage_noAdd diffFiles ps a :
  noAddLines diffFiles -> patchCoverage diffFiles ps a = a.
Proof.
  intros H. unfold patchCoverage. apply fold_left_id. intros p _ a1.
  unfold profileStep. apply fold_left_id. intros f Hf a2.
  unfold fileStep. destruct (negb _); [reflexivity|].
  apply fold_left_id. intros b _ a3. apply blockStep_noAdd.
  intros t line. now apply H.
Qed.

Lemma flat_map_nil {A B} (f : A -> list B) (l : list A) :
  (forall x, f x = []) -> flat_map f l = [].
Proof. intros H. induction l as [|x l IH]; [reflexivity|]. cbn. now rewrite H, IH. Qed.

Lemma concat_empties {A} (f : A -> string) (l : list A) :
  (forall x, f x = "") -> String.concat "" (f <$> l) = "".
Proof.
  intros H. induction l as [|x l IH]; [reflexivity|].
  change (String.concat "" (f x :: (f <$> l)) = ""). rewrite H.
  destruct (f <$> l); [reflexivity | exact IH].
Qed.

(** X3. When no line of the diff is an added line (a diff of deletions, or an
    empty diff), nothing is credited to the patch: both patch counters are 0,
    the patch percentage is 100 and the uncovered-lines text is what reading
    back an empty side file gives. *)
Theorem no_added_line_no_patch (w : World) (diffFiles : list gitdiff.File)
    (coverProfiles prevCoverProfiles : list cover.Profile) :
  noAddLines diffFiles ->
  let r := (computeCoverage w diffFiles coverProfiles prevCoverProfiles).1 in
  PatchNumStmt r = 0 /\ PatchCoverCount r = 0 /\ PatchCoverage r = 100%float
  /\ Uncovered_lines r = readBack w "".
Proof.
  intros H r. subst r. rewrite computeCoverage_closed. cbn [fst].
  set (raw := rawReport w diffFiles coverProfiles prevCoverProfiles).
  assert (Hraw : PatchNumStmt raw = 0 /\ PatchCoverCount raw = 0
                 /\ Uncovered_lines raw = readBack w "").
  { subst raw. unfold rawReport. cbv zeta.
    cbn [PatchNumStmt PatchCoverCount Uncovered_lines].
    rewrite (patchCoverage_noAdd diffFiles coverProfiles zeroAcc H).
    cbn [zeroAcc partiallyCoveredLines data].
    unfold takenBack. rewrite flat_map_nil, concat_empties.
    - repeat split; reflexivity.
    - intros k. unfold sectionOf. now rewrite lookup_total_empty.
    - intros k. now rewrite lookup_total_empty. }
  destruct Hraw as (Hn & Hc & Hu).
  destruct (percentages_spec raw)
    as (_ & _ & -> & -> & _ & _ & _ & -> & _ & -> & _); [repeat split; reflexivity|].
  rewrite Hn. repeat split; assumption.
Qed.

Lemma no_added_line_no_patch_witness :
  let r := (computeCoverage world0 [deletionsOnly] [profileA 0] []).1 in
  PatchNumStmt r = 0 /\ PatchCoverCount r = 0 /\ PatchCoverage r = 100%float
  /\ Uncovered_lines r = readBack world0 "".
Proof.
  apply (no_added_line_no_patch world0 [deletionsOnly] [profileA 0] []).
  intros f t line [<-|[]] [<-|[]] [<-|[<-|[]]]; discriminate.
Defined.

(** ** The whole-repository totals *)

(** X4. The whole-repository figures depend on the coverage profiles alone:
    [NumStmt] and [CoverCount] are the sums, in 64-bit arithmetic, of the
    statement counts of all blocks and of the executed blocks of the current
    profiles, [PrevNumStmt] and [PrevCoverCount] the same sums over the
    previous profiles, whatever the diff, the file system and the other
    profile list are; the percentages [Coverage] and [PrevCoverage] follow
    the counters, with 0 when the statement count is 0. *)
Theorem totals_of_profiles (w : World) (diffFiles : list gitdiff.File)
    (coverProfiles prevCoverProfiles : list cover.Profile) :
  let r := (computeCoverage w diffFiles coverProfiles prevCoverProfiles).1 in
  NumStmt r = wrap64 (stmtTotal coverProfiles)
  /\ CoverCount r = wrap64 (coveredTotal coverProfiles)
  /\ PrevNumStmt r = wrap64 (stmtTotal prevCoverProfiles)
  /\ PrevCoverCount r = wrap64 (coveredTotal prevCoverProfiles)
  /\ Coverage r = (if NumStmt r =? 0 then 0%float else percent (CoverCount r) (NumStmt r))
  /\ PrevCoverage r = (if PrevNumStmt r =? 0 then 0%float
                       else percent (PrevCoverCount r) (PrevNumStmt r)).
Proof.
  intros r. subst r. rewrite computeCoverage_closed. cbn [fst].
  destruct (percentages_spec (rawReport w diffFiles coverProfiles prevCoverProfiles))
    as (-> & -> & _ & _ & -> & -> & _ & _ & -> & _ & ->); [repeat split; reflexivity|].
  repeat split; reflexivity.
Qed.

(** ** The patch counters, read off the inputs *)

Section OverPatch.

Variable h : Acc -> Z.
Variable term : gitdiff.File -> cover.ProfileBlock -> Z.
Hypothesis h_blockStep : forall p f a b, h (blockStep p f a b) = h a + term f b.

Lemma h_blocks p f bs : forall a,
  h (fold_left (blockStep p f) bs a) = h a + Zsum (term f <$> bs).
Proof.
  induction bs as [|b bs IH]; intros a; [cbn; lia|].
  cbn [fold_left fmap list_fmap]. rewrite IH, h_blockStep, Zsum_cons. lia.
Qed.

Lemma h_files p fs : forall a,
  h (fold_left (fileStep p) fs a)
  = h a + Zsum ((fun f => Zsum (term f <$> cover.Blocks p)) <$> matched p fs).
Proof.
  induction fs as [|f fs IH]; intros a; [cbn; lia|].
  cbn [fold_left]. rewrite IH. unfold fileStep, matched. cbn [List.filter].
  destruct (strings.HasSuffix (cover.FileName p) (gitdiff.NewName f)); cbn [negb].
  - rewrite h_blocks. cbn [fmap list_fmap]. rewrite Zsum_cons. lia.
  - reflexivity.
Qed.

Lemma h_patchCoverage diffFiles ps : forall a,
  h (patchCoverage diffFiles ps a) = h a + overPatch term diffFiles ps.
Proof.
  unfold patchCoverage, overPatch.
  induction ps as [|p ps IH]; intros a; [cbn; lia|].
  cbn [fold_left fmap list_fmap]. rewrite IH. unfold profileStep.
  rewrite h_files, Zsum_cons. lia.
Qed.

End OverPatch.

Lemma covered_blockStep p f a b :
  mapSum Line.NumStmt (coveredLines (blockStep p f a b))
  = mapSum Line.NumStmt (coveredLines a) + coveredStmts f b.
Proof.
  unfold blockStep, coveredStmts.
  destruct (scanFragments b (gitdiff.TextFragments f)) as [[n s]|]; [|lia].
  unfold credit. cbv zeta. destruct (0 <? cover.Count b); cbn [coveredLines]; [|lia].
  now rewrite mapSum_appendAt.
Qed.

Lemma counted_blockStep p f a b :
  mapSum Line.NumStmt (coveredLines (blockStep p f a b))
  + mapSum validWeight (partiallyCoveredLines (blockStep p f a b))
  = mapSum Line.NumStmt (coveredLines a) + mapSum validWeight (partiallyCoveredLines a)
    + countedStmts f b.
Proof.
  unfold blockStep, countedStmts.
  destruct (scanFragments b (gitdiff.TextFragments f)) as [[n s]|]; [|lia].
  unfold credit. cbv zeta.
  destruct (0 <? cover.Count b); cbn [coveredLines partiallyCoveredLines orb];
    rewrite mapSum_appendAt; [cbn; lia|].
  unfold validWeight at 2. cbn [Line.LineString Line.NumStmt].
  destruct (isInvalidLine s); cbn [negb]; lia.
Qed.

Lemma rawReport_patch w diffFiles ps prev :
  range_ok w ->
  PatchCoverCount (rawReport w diffFiles ps prev)
  = wrap64 (overPatch coveredStmts diffFiles ps)
  /\ PatchNumStmt (rawReport w diffFiles ps prev)
     = wrap64 (overPatch countedStmts diffFiles ps).
Proof.
  intros Hw.
  pose proof (h_patchCoverage (fun a => mapSum Line.NumStmt (coveredLines a))
                coveredStmts covered_blockStep diffFiles ps zeroAcc) as Hc.
  pose proof (h_patchCoverage
                (fun a => mapSum Line.NumStmt (coveredLines a)
                          + mapSum validWeight (partiallyCoveredLines a))
                countedStmts counted_blockStep diffFiles ps zeroAcc) as Hn.
  cbv beta in Hc, Hn. cbn [zeroAcc coveredLines partiallyCoveredLines] in Hc, Hn.
  rewrite mapSum_empty in Hc. repeat rewrite mapSum_empty in Hn.
  unfold rawReport. cbv zeta. cbn [PatchNumStmt PatchCoverCount].
  set (a := patchCoverage diffFiles ps zeroAcc) in *.
  destruct (sums_inv_patchCoverage diffFiles ps) as [Sn Sc]. fold a in Sn, Sc.
  split; [rewrite Sc; f_equal; lia|].
  rewrite fold_sub64 by (rewrite Sn; apply wrap64_range).
  rewrite takenBack_sum by apply Hw.
  rewrite Sn, wrap64_sub_l. f_equal.
  rewrite (mapSum_split (partiallyCoveredLines a)). lia.
Qed.

(** X5. The patch counters of the report, read off the inputs (for a run
    whose map iteration visits every file once).  [PatchCoverCount] is the
    sum, in 64-bit arithmetic, over every profile, every diff file whose new
    name is a suffix of the profile's name and every block of the profile one
    of whose lines was added, of the statements of the executed blocks;
    [PatchNumStmt] is the same sum where a block that was not executed counts
    only when the text of its first added line is valid. *)
Theorem patch_counters_of_inputs (w : World) (diffFiles : list gitdiff.File)
    (coverProfiles prevCoverProfiles : list cover.Profile) :
  range_ok w ->
  let r := (computeCoverage w diffFiles coverProfiles prevCoverProfiles).1 in
  PatchCoverCount r = wrap64 (overPatch coveredStmts diffFiles coverProfiles)
  /\ PatchNumStmt r = wrap64 (overPatch countedStmts diffFiles coverProfiles).
Proof.
  intros Hw r. subst r. rewrite computeCoverage_closed. cbn [fst].
  destruct (percentages_spec (rawReport w diffFiles coverProfiles prevCoverProfiles))
    as (_ & _ & -> & -> & _); [repeat split; reflexivity|].
  now apply rawReport_patch.
Qed.

Lemma patch_counters_of_inputs_witness :
  let r := (computeCoverage world0 [hunkAt9; commentAt10] [profileA 3; blockAt10 0] []).1 in
  PatchCoverCount r
  = wrap64 (overPatch coveredStmts [hunkAt9; commentAt10] [profileA 3; blockAt10 0])
  /\ PatchNumStmt r
     = wrap64 (overPatch countedStmts [hunkAt9; commentAt10] [profileA 3; blockAt10 0]).
Proof.
  apply (patch_counters_of_inputs world0 [hunkAt9; commentAt10]
           [profileA 3; blockAt10 0] []).
  intros keys. apply Permutation_refl.
Defined.

Lemma rawReport_of_inputs w diffFiles ps prev :
  range_ok w ->
  set_Uncovered_lines "" (rawReport w diffFiles ps prev)
  = {| NumStmt := wrap64 (stmtTotal ps);
       CoverCount := wrap64 (coveredTotal ps);
       Coverage := 0%float;
       PatchNumStmt := wrap64 (overPatch countedStmts diffFiles ps);
       PatchCoverCount := wrap64 (overPatch coveredStmts diffFiles ps);
       PatchCoverage := 0%float;
       HasPrevCoverage := false;
       PrevNumStmt := wrap64 (stmtTotal prev);
       PrevCoverCount := wrap64 (coveredTotal prev);
       PrevCoverage := 0%float;
       Uncovered_lines := "" |}.
Proof.
  intros Hw. destruct (rawReport_patch w diffFiles ps prev Hw) as [Hc Hn].
  unfold set_Uncovered_lines. rewrite Hc, Hn. reflexivity.
Qed.

Lemma matched_perm p (fs fs' : list gitdiff.File) :
  Permutation fs fs' -> Permutation (matched p fs) (matched p fs').
Proof.
  unfold matched. induction 1 as [|f l l' _ IH|f f' l|l l' l'' _ IH1 _ IH2]; cbn [List.filter].
  - constructor.
  - destruct (strings.HasSuffix _ _); [now constructor | exact IH].
  - destruct (strings.HasSuffix _ (gitdiff.NewName f)),
             (strings.HasSuffix _ (gitdiff.NewName f')); try reflexivity.
    apply perm_swap.
  - now transitivity (List.filter
      (fun f => strings.HasSuffix (cover.FileName p) (gitdiff.NewName f)) l').
Qed.

Lemma overPatch_perm term fs fs' ps ps' :
  Permutation fs fs' -> Permutation ps ps' ->
  overPatch term fs ps = overPatch term fs' ps'.
Proof.
  intros Hf Hp. unfold overPatch.
  transitivity (Zsum ((fun p =>
      Zsum ((fun f => Zsum (term f <$> cover.Blocks p)) <$> matched p fs')) <$> ps)).
  - f_equal. apply Forall_fmap_ext_1, Forall_forall. intros p _.
    apply Zsum_perm, fmap_Permutation, matched_perm, Hf.
  - apply Zsum_perm, fmap_Permutation, Hp.
Qed.

Lemma stmtTotal_perm ps ps' : Permutation ps ps' -> stmtTotal ps = stmtTotal ps'.
Proof. intros H. unfold stmtTotal. now apply Zsum_perm, fmap_Permutation. Qed.

Lemma coveredTotal_perm ps ps' : Permutation ps ps' -> coveredTotal ps = coveredTotal ps'.
Proof. intros H. unfold coveredTotal. now apply Zsum_perm, fmap_Permutation. Qed.

(** X6. The order of the diff files, of the coverage profiles and of the
    previous profiles does not matter for the figures: two runs whose inputs
    are reorderings of each other (each run's map iteration visiting every
    file once) agree on every counter and every percentage of the report.
    Only the uncovered-lines text can differ. *)
Theorem figures_independent_of_input_order (w w' : World)
    (diffFiles diffFiles' : list gitdiff.File)
    (coverProfiles coverProfiles' prevCoverProfiles prevCoverProfiles' : list cover.Profile) :
  range_ok w -> range_ok w' ->
  Permutation diffFiles diffFiles' ->
  Permutation coverProfiles coverProfiles' ->
  Permutation prevCoverProfiles prevCoverProfiles' ->
  set_Uncovered_lines "" (computeCoverage w diffFiles coverProfiles prevCoverProfiles).1
  = set_Uncovered_lines ""
      (computeCoverage w' diffFiles' coverProfiles' prevCoverProfiles').1.
Proof.
  intros Hw Hw' Hf Hp Hq. rewrite !computeCoverage_closed. cbn [fst].
  rewrite <- !percentages_set_Uncovered_lines. f_equal.
  rewrite !rawReport_of_inputs by assumption.
  rewrite (overPatch_perm countedStmts _ _ _ _ Hf Hp),
          (overPatch_perm coveredStmts _ _ _ _ Hf Hp),
          (stmtTotal_perm _ _ Hp), (coveredTotal_perm _ _ Hp),
          (stmtTotal_perm _ _ Hq), (coveredTotal_perm _ _ Hq).
  reflexivity.
Qed.

Lemma figures_independent_of_input_order_witness :
  set_Uncovered_lines "" (computeCoverage world0 twoFiles twoProfiles [profileA 1]).1
  = set_Uncovered_lines ""
      (computeCoverage world1 (rev twoFiles) (rev twoProfiles) [profileA 1]).1.
Proof.
  apply (figures_independent_of_input_order world0 world1 twoFiles (rev twoFiles)
           twoProfiles (rev twoProfiles) [profileA 1] [profileA 1]).
  - intros keys. apply Permutation_refl.
  - intros keys. symmetry. apply Permutation_rev.
  - apply Permutation_rev.
  - apply Permutation_rev.
  - apply Permutation_refl.
Defined.

(** ** ProcessFiles *)

(** X7. [ProcessFiles] fails exactly when opening the diff, parsing it,
    parsing the coverage file or - only when a previous coverage file is
    named - parsing that file fails, the steps being tried in this order and
    the error returned being that of the first step that fails; together with
    an error it returns the zero report. *)
Theorem ProcessFiles_error (io : Inputs) (w : World)
    (coverageFile diffFile prevCovFile : string) (e : error) :
  let res := ProcessFiles io w coverageFile diffFile prevCovFile in
  (res.2 = Some e <->
     os_Open io diffFile = Err e
     \/ (exists patch, os_Open io diffFile = Ok patch
           /\ (gitdiff_Parse io patch = Err e
               \/ exists files, gitdiff_Parse io patch = Ok files
                    /\ (cover_ParseProfiles io coverageFile = Err e
                        \/ exists profiles,
                             cover_ParseProfiles io coverageFile = Ok profiles
                             /\ prevCovFile <> ""
                             /\ cover_ParseProfiles io prevCovFile = Err e))))
  /\ (res.2 <> None -> res.1 = zeroData).
Proof.
  cbv zeta. unfold ProcessFiles.
  destruct (os_Open io diffFile) as [patch|e1].
  2:{ cbn. split; [|reflexivity]. split.
      - intros [= ->]. now left.
      - intros [[= ->]|(patch & [=] & _)]. reflexivity. }
  destruct (gitdiff_Parse io patch) as [files|e2] eqn:Hparse.
  2:{ cbn. split; [|reflexivity]. split.
      - intros [= ->]. right. exists patch. split; [reflexivity|]. now left.
      - intros [[=]|(patch' & [= <-] & [H|(files & H & _)])]; congruence. }
  destruct (cover_ParseProfiles io coverageFile) as [profiles|e3] eqn:Hcov.
  2:{ cbn. split; [|reflexivity]. split.
      - intros [= ->]. right. exists patch. split; [reflexivity|]. right.
        exists files. split; [exact Hparse|]. now left.
      - intros [[=]|(patch' & [= <-] & [H|(files' & H & [H'|(profiles & H' & _)])])];
          congruence. }
  destruct (String.eqb prevCovFile "") eqn:Hprev; cbn [negb].
  - apply String.eqb_eq in Hprev.
    rewrite computeCoverage_closed. cbn. split; [|congruence]. split; [discriminate|].
    intros [[=]|(patch' & [= <-] & [H|(files' & H & [H'|(profiles' & _ & Hne & _)])])];
      congruence.
  - apply String.eqb_neq in Hprev.
    destruct (cover_ParseProfiles io prevCovFile) as [prev|e4] eqn:Hp.
    + rewrite computeCoverage_closed. cbn. split; [|congruence]. split; [discriminate|].
      intros [[=]|(patch' & [= <-] & [H|(files' & H & [H'|(profiles' & _ & _ & H')])])];
        congruence.
    + cbn. split; [|reflexivity]. split.
      * intros [= ->]. right. exists patch. split; [reflexivity|]. right.
        exists files. split; [exact Hparse|]. right. exists profiles. auto.
      * intros [[=]|(patch' & [= <-] & [H|(files' & H & [H'|(profiles' & _ & _ & H')])])];
          congruence.
Qed.

(** X8. When the diff and the coverage file open and parse, [ProcessFiles]
    returns the report of [computeCoverage] with [HasPrevCoverage] telling
    whether a previous coverage file was named.  Without a name the previous
    file is not parsed at all and the previous figures are 0; with a name
    that parses, [HasPrevCoverage] is true whatever the file holds. *)
Theorem ProcessFiles_success (io : Inputs) (w : World)
    (coverageFile diffFile prevCovFile patch : string)
    (files : list gitdiff.File) (profiles : list cover.Profile) :
  os_Open io diffFile = Ok patch ->
  gitdiff_Parse io patch = Ok files ->
  cover_ParseProfiles io coverageFile = Ok profiles ->
  (prevCovFile = "" ->
     let r := (computeCoverage w files profiles []).1 in
     ProcessFiles io w coverageFile diffFile prevCovFile
     = (set_HasPrevCoverage false r, None)
     /\ PrevNumStmt r = 0 /\ PrevCoverCount r = 0 /\ PrevCoverage r = 0%float)
  /\ (forall prev, prevCovFile <> "" -> cover_ParseProfiles io prevCovFile = Ok prev ->
        ProcessFiles io w coverageFile diffFile prevCovFile
        = (set_HasPrevCoverage true (computeCoverage w files profiles prev).1, None)).
Proof.
  intros Ho Hd Hc. unfold ProcessFiles. rewrite Ho, Hd, Hc. split.
  - intros ->. cbn [String.eqb negb]. rewrite computeCoverage_closed. cbn [fst].
    split; [reflexivity|].
    destruct (percentages_spec (rawReport w files profiles []))
      as (_ & _ & _ & _ & -> & -> & _ & _ & _ & _ & ->); [repeat split; reflexivity|].
    repeat split; reflexivity.
  - intros prev Hne Hp. apply String.eqb_neq in Hne. rewrite Hne. cbn [negb].
    rewrite Hp, computeCoverage_closed. reflexivity.
Qed.

Lemma ProcessFiles_success_witness :
  ProcessFiles inputsA world0 "coverage.out" "patch.diff" "prev.out"
  = (set_HasPrevCoverage true (computeCoverage world0 [hunkAt9] [profileA 3] []).1, None).
Proof.
  apply (ProcessFiles_success inputsA world0 "coverage.out" "patch.diff" "prev.out"
           "diff" [hunkAt9] [profileA 3] eq_refl eq_refl eq_refl).
  - discriminate.
  - reflexivity.
Defined.

(** * The command's copy (command.go) against the package's (cover.go) *)

Section Copies.

Lemma fold_left_commute {A A' B} (phi : A -> A') (f : A -> B -> A) (f' : A' -> B -> A')
    (l : list B) :
  (forall a x, f' (phi a) x = phi (f a x)) ->
  forall a, fold_left f' l (phi a) = phi (fold_left f l a).
Proof.
  intros H. induction l as [|x l IH]; intros a; [reflexivity|].
  cbn [fold_left]. now rewrite H, IH.
Qed.

Lemma shared_credit p b n s a :
  main.credit p b n s (sharedAcc a) = sharedAcc (credit p b n s a).
Proof. unfold main.credit, credit. cbv zeta. now destruct (0 <? cover.Count b). Qed.

Lemma shared_blockStep p f a b :
  main.blockStep p f (sharedAcc a) b = sharedAcc (blockStep p f a b).
Proof.
  unfold main.blockStep, blockStep.
  destruct (scanFragments b (gitdiff.TextFragments f)) as [[n s]|]; [|reflexivity].
  apply shared_credit.
Qed.

Lemma shared_fileStep p a f :
  main.fileStep p (sharedAcc a) f = sharedAcc (fileStep p a f).
Proof.
  unfold main.fileStep, fileStep. destruct (negb _); [reflexivity|].
  apply fold_left_commute. intros; apply shared_blockStep.
Qed.

Lemma shared_patchCoverage diffFiles ps a :
  main.patchCoverage diffFiles ps (sharedAcc a) = sharedAcc (patchCoverage diffFiles ps a).
Proof.
  unfold main.patchCoverage, patchCoverage. apply fold_left_commute. intros a' p.
  unfold main.profileStep, profileStep. apply fold_left_commute.
  intros; apply shared_fileStep.
Qed.

Lemma shared_totalCoverage ps d :
  main.totalCoverage ps (shared d) = shared (totalCoverage ps d).
Proof.
  unfold main.totalCoverage, totalCoverage. apply fold_left_commute. intros d' p.
  apply fold_left_commute. intros d'' b.
  unfold main.totalBlock, totalBlock. cbv zeta. now destruct (0 <? cover.Count b).
Qed.

Lemma shared_prevCoverage ps d :
  main.prevCoverage ps (shared d) = shared (prevCoverage ps d).
Proof.
  unfold main.prevCoverage, prevCoverage. apply fold_left_commute. intros d' p.
  apply fold_left_commute. intros d'' b.
  unfold main.prevBlock, prevBlock. cbv zeta. now destruct (0 <? cover.Count b).
Qed.

Lemma shared_lineStep ok cov st line :
  main.lineStep ok cov (sharedSnd st) line = sharedSnd (lineStep ok cov st line).
Proof.
  destruct st as [u d]. unfold main.lineStep, lineStep, sharedSnd. cbn [fst snd].
  destruct (negb (isInvalidLine (Line.LineString line)));
    destruct (negb ok || negb (isLineCovered line cov)); reflexivity.
Qed.

Lemma shared_fileNameStep P C st k :
  main.fileNameStep P C (sharedSnd st) k = sharedSnd (fileNameStep P C st k).
Proof.
  destruct st as [written d]. unfold main.fileNameStep, fileNameStep, sharedSnd at 1.
  cbn [fst snd].
  pose proof (fold_left_commute sharedSnd
                (lineStep (bool_decide (is_Some (C !! k))) (C !!! k))
                (main.lineStep (bool_decide (is_Some (C !! k))) (C !!! k))
                (P !!! k) (fun st l => shared_lineStep _ _ st l) ([], d)) as H.
  unfold sharedSnd at 1 in H. cbn [fst snd] in H. rewrite H.
  destruct (fold_left _ (P !!! k) ([], d)) as [u d']. unfold sharedSnd. cbn [fst snd].
  now destruct (0 <? length u)%nat.
Qed.

Lemma shared_printUncoveredLines w P C d :
  exists file,
    main.printUncoveredLines w P C (shared d) = (shared (printUncoveredLines w P C d), file)
    /\ Uncovered_lines (printUncoveredLines w P C d) = (if canRead w then file else "").
Proof.
  unfold main.printUncoveredLines, printUncoveredLines.
  pose proof (fold_left_commute sharedSnd (fileNameStep P C) (main.fileNameStep P C)
                (rangeKeys w P) (fun st k => shared_fileNameStep P C st k) ("", d)) as H.
  unfold sharedSnd at 1 in H. cbn [fst snd] in H. rewrite H.
  destruct (fold_left (fileNameStep P C) (rangeKeys w P) ("", d)) as [written d'].
  unfold sharedSnd. cbn [fst snd].
  exists (if canCreate w then written else onDisk w). split; reflexivity.
Qed.

Lemma shared_percentages d : main.percentages (shared d) = shared (percentages d).
Proof.
  unfold main.percentages, percentages. cbv zeta.
  cbn [shared main.NumStmt main.PatchNumStmt main.PrevNumStmt main.CoverCount
       main.PatchCoverCount main.PrevCoverCount].
  destruct (NumStmt d =? 0) eqn:E1; cbn [negb];
    destruct (PatchNumStmt d =? 0) eqn:E2; cbn; rewrite ?E2; cbn;
    destruct (PrevNumStmt d =? 0) eqn:E3; cbn; rewrite ?E2; reflexivity.
Qed.

Lemma main_computeCoverage_shared w diffFiles ps prev :
  exists file,
    main.computeCoverage w diffFiles ps prev
    = (shared (computeCoverage w diffFiles ps prev).1, None, file)
    /\ Uncovered_lines (computeCoverage w diffFiles ps prev).1
       = (if canRead w then file else "").
Proof.
  unfold main.computeCoverage, computeCoverage. cbv zeta. cbn [fst].
  change main.zeroAcc with (sharedAcc zeroAcc).
  rewrite shared_patchCoverage.
  set (a := patchCoverage diffFiles ps zeroAcc).
  cbn [sharedAcc main.data main.coveredLines main.partiallyCoveredLines].
  rewrite shared_totalCoverage, shared_prevCoverage.
  set (d := prevCoverage prev (totalCoverage ps (data a))).
  destruct (shared_printUncoveredLines w (partiallyCoveredLines a) (coveredLines a) d)
    as (file & -> & Hu).
  exists file. rewrite shared_percentages. split; [reflexivity|].
  set (d' := printUncoveredLines w (partiallyCoveredLines a) (coveredLines a) d) in *.
  rewrite <- Hu. unfold percentages. cbv zeta.
  repeat match goal with |- context [if ?c then _ else _] => destruct c end; reflexivity.
Qed.

End Copies.

(** X9. The command's copy of [computeCoverage] (command.go) computes what
    the package's (cover.go) computes: on the same inputs and run-time it
    returns no error and the same value in each of the ten fields the two
    reports share, and the side file it leaves behind is the one whose
    content the package's version reads back into [Uncovered_lines]. *)
Theorem command_copy_agrees (w : World) (diffFiles : list gitdiff.File)
    (coverProfiles prevCoverProfiles : list cover.Profile) :
  let lib := computeCoverage w diffFiles coverProfiles prevCoverProfiles in
  let cmd := main.computeCoverage w diffFiles coverProfiles prevCoverProfiles in
  cmd.1 = (shared lib.1, None)
  /\ lib.2 = None
  /\ Uncovered_lines lib.1 = (if canRead w then cmd.2 else "").
Proof.
  cbv zeta.
  destruct (main_computeCoverage_shared w diffFiles coverProfiles prevCoverProfiles)
    as (file & -> & ->).
  rewrite computeCoverage_closed. repeat split; reflexivity.
Qed.

(** X10. The report of the command's copy does not depend on the run-time:
    two runs on the same inputs, whatever the file system answers and in
    whatever order the map of candidate lines is visited (every file once),
    return equal reports. *)
Theorem command_report_deterministic (w1 w2 : World) (diffFiles : list gitdiff.File)
    (coverProfiles prevCoverProfiles : list cover.Profile) :
  range_ok w1 -> range_ok w2 ->
  (main.computeCoverage w1 diffFiles coverProfiles prevCoverProfiles).1
  = (main.computeCoverage w2 diffFiles coverProfiles prevCoverProfiles).1.
Proof.
  intros H1 H2.
  destruct (main_computeCoverage_shared w1 diffFiles coverProfiles prevCoverProfiles)
    as (file1 & -> & _).
  destruct (main_computeCoverage_shared w2 diffFiles coverProfiles prevCoverProfiles)
    as (file2 & -> & _).
  cbn [fst]. f_equal. rewrite !computeCoverage_closed. cbn [fst].
  change (shared (set_Uncovered_lines ""
            (percentages (rawReport w1 diffFiles coverProfiles prevCoverProfiles)))
          = shared (set_Uncovered_lines ""
            (percentages (rawReport w2 diffFiles coverProfiles prevCoverProfiles)))).
  rewrite <- !percentages_set_Uncovered_lines.
  now rewrite (rawReport_counters w1 w2).
Qed.

Lemma command_report_deterministic_witness :
  (main.computeCoverage world0 twoFiles twoProfiles []).1
  = (main.computeCoverage (failCreate world1) twoFiles twoProfiles []).1.
Proof.
  apply (command_report_deterministic world0 (failCreate world1) twoFiles twoProfiles []).
  - intros keys. apply Permutation_refl.
  - intros keys. symmetry. apply Permutation_rev.
Defined.

(** X11. The command's copy of [ProcessFiles] fails exactly when the
    package's does, with the same error, and otherwise returns the same
    value in each shared field. *)
Theorem command_ProcessFiles_agrees (io : Inputs) (w : World)
    (coverageFile diffFile prevCovFile : string) :
  main.ProcessFiles io w coverageFile diffFile prevCovFile
  = (shared (ProcessFiles io w coverageFile diffFile prevCovFile).1,
     (ProcessFiles io w coverageFile diffFile prevCovFile).2).
Proof.
  unfold main.ProcessFiles, ProcessFiles.
  destruct (os_Open io diffFile) as [patch|e1]; [|reflexivity].
  destruct (gitdiff_Parse io patch) as [files|e2]; [|reflexivity].
  destruct (cover_ParseProfiles io coverageFile) as [profiles|e3]; [|reflexivity].
  destruct (if negb (String.eqb prevCovFile "")
            then cover_ParseProfiles io prevCovFile else Ok []) as [prev|e4];
    [|reflexivity].
  destruct (main_computeCoverage_shared w files profiles prev) as (file & -> & _).
  rewrite computeCoverage_closed. reflexivity.
Qed.

(** * Package utility *)

(** X12. The gate of [GetThresholdCondition] against the thresholds of
    [GetThresholdConfigBasedOnTestType].  For the test types "Unit Test" and
    "Integration Test" each coverage passes exactly when it is at least the
    threshold the other function reports.  For any other test type the
    thresholds reported are 0 and 0, and yet no coverage passes, whatever
    its value. *)
Theorem threshold_gate (v : utility.Vars) (serviceCoverage mccCoverage : float) :
  let thresholds := utility.GetThresholdConfigBasedOnTestType v in
  let known := String.eqb (utility.TestType v) utility.UnitTest
               || String.eqb (utility.TestType v) utility.IntegrationTest in
  (known = true ->
     utility.GetThresholdCondition v serviceCoverage mccCoverage
     = (PrimFloat.leb thresholds.1 serviceCoverage, PrimFloat.leb thresholds.2 mccCoverage))
  /\ (known = false ->
      thresholds = (0%float, 0%float)
      /\ utility.GetThresholdCondition v serviceCoverage mccCoverage = (false, false)).
Proof.
  cbv zeta. unfold utility.GetThresholdConfigBasedOnTestType, utility.GetThresholdCondition.
  destruct (String.eqb (utility.TestType v) utility.UnitTest);
    destruct (String.eqb (utility.TestType v) utility.IntegrationTest);
    cbn; split; intros H; try discriminate H; auto.
Qed.

(** * exclude_files.go *)

Section Exclude.

Local Arguments String.append !_ _ / : simpl nomatch.

Lemma split_from_cons s sep : forall skip cur,
  exists piece rest, split_from skip s sep cur = piece :: rest.
Proof.
  induction s as [|c s IH]; intros skip cur; cbn [split_from]; [eauto|].
  destruct skip; [|apply IH].
  destruct (String.prefix sep (String c s)); [eauto | apply IH].
Qed.

Lemma matchesPattern_easyjson MatchString pattern file :
  strings.Contains file "easyjson" = true -> matchesPattern MatchString pattern file = true.
Proof. intros H. unfold matchesPattern. now rewrite H. Qed.

Lemma shouldExcludeFile_easyjson MatchString v excludedPatterns filePath :
  strings.Contains filePath "easyjson" = true ->
  shouldExcludeFile MatchString v excludedPatterns filePath = true.
Proof.
  intros H. unfold shouldExcludeFile, strings_Split.
  destruct (getRepoName v) as [prefix repoName].
  destruct (split_from_cons excludedPatterns "," 0 "") as (piece & rest & ->).
  cbn [existsb]. now rewrite matchesPattern_easyjson.
Qed.

End Exclude.

(** X13. A file whose path contains "easyjson" is excluded whatever the
    list of patterns is - the empty list included -, whatever the repository
    name and whatever the regular expression library answers. *)
Theorem easyjson_always_excluded (MatchString : Regexp) (v : utility.Vars)
    (excludedPatterns filePath : string) :
  strings.Contains filePath "easyjson" = true ->
  shouldExcludeFile MatchString v excludedPatterns filePath = true.
Proof. apply shouldExcludeFile_easyjson. Qed.

Lemma easyjson_always_excluded_witness :
  shouldExcludeFile sampleRegexp sampleVars "" "github.com/org/svc/b_easyjson.go" = true.
Proof.
  apply (easyjson_always_excluded sampleRegexp sampleVars ""
           "github.com/org/svc/b_easyjson.go").
  vm_compute. reflexivity.
Defined.

(** ** modifyCoverageFile *)

Section Modify.

Local Arguments String.append !_ _ / : simpl nomatch.

Variable MatchString : Regexp.
Variable v : utility.Vars.
Variable excludedPatterns : string.

Lemma occurs_app c a b : occurs c (a +:+ b) = occurs c a || occurs c b.
Proof.
  induction a as [|x a IH]; [reflexivity|].
  cbn [String.append occurs]. rewrite IH. now rewrite orb_assoc.
Qed.

Lemma substring_prefix (r x : string) : String.substring 0 (String.length r) (r +:+ x) = r.
Proof.
  induction r as [|c r IH]; cbn [String.length String.append String.substring].
  - now destruct x.
  - now rewrite IH.
Qed.

(** *** The scanner *)

Lemma dropCR_sub p : exists post, p = dropCR p +:+ post.
Proof.
  unfold dropCR. destruct (strings.HasSuffix p (String "013" "")) eqn:H.
  - apply HasSuffix_iff in H as [r ->]. exists (String "013" "").
    rewrite length_app. cbn [String.length].
    replace (String.length r + 1 - 1)%nat with (String.length r) by lia.
    now rewrite substring_prefix.
  - exists "". now rewrite append_empty_r.
Qed.

Lemma pieces_nonl s : forall cur,
  occurs "010" cur = false -> Forall (fun p => occurs "010" p = false) (pieces s cur).
Proof.
  induction s as [|c s IH]; intros cur Hcur; cbn [pieces].
  - destruct (String.eqb cur ""); repeat constructor; exact Hcur.
  - destruct (Ascii.eqb c "010") eqn:E.
    + constructor; [exact Hcur | now apply IH].
    + apply IH. rewrite occurs_app, Hcur. cbn [occurs orb]. now rewrite E.
Qed.

Lemma scanTokens_ok ps : forall ls,
  scanTokens ps = (ls, None) ->
  ls = dropCR <$> ps
  /\ Forall (fun p => Z.of_nat (String.length p) < MaxScanTokenSize) ps.
Proof.
  induction ps as [|p ps IH]; intros ls H; cbn [scanTokens] in H.
  - injection H as <-. split; [reflexivity | constructor].
  - destruct (MaxScanTokenSize <=? Z.of_nat (String.length p)) eqn:E; [discriminate|].
    destruct (scanTokens ps) as [ls' e]. injection H as <- ->.
    destruct (IH ls' eq_refl) as [-> HF]. split; [reflexivity|].
    constructor; [lia | exact HF].
Qed.

Lemma Scanner_lines content lines :
  Scanner content = (lines, None) ->
  Forall (fun t => occurs "010" t = false
                   /\ Z.of_nat (String.length t) < MaxScanTokenSize) lines.
Proof.
  unfold Scanner. intros H. apply scanTokens_ok in H as [-> HF].
  pose proof (pieces_nonl content "" eq_refl) as Hn.
  induction (pieces content "") as [|p ps IH]; [constructor|].
  inversion HF; subst. inversion Hn; subst. cbn [fmap list_fmap].
  constructor; [|now apply IH].
  destruct (dropCR_sub p) as [post Hp]. split.
  - rewrite Hp, occurs_app in H3. now apply orb_false_iff in H3 as [? _].
  - rewrite Hp, length_app in H1. lia.
Qed.

Lemma pieces_app l : occurs "010" l = false ->
  forall rest cur, pieces (l +:+ rest) cur = pieces rest (cur +:+ l).
Proof.
  induction l as [|c l IH]; intros Hl rest cur.
  - now rewrite append_empty_r.
  - cbn [occurs] in Hl. apply orb_false_iff in Hl as [Hc Hl].
    cbn [String.append pieces]. rewrite Hc, (IH Hl), append_assoc. reflexivity.
Qed.

Lemma pieces_join ls :
  Forall plainLine ls -> pieces (String.concat newline ls) "" = ls.
Proof.
  induction ls as [|l ls IH]; intros H; [reflexivity|].
  inversion H as [|? ? (Hne & Hnl & _) Hrest]; subst.
  assert (Hl : String.eqb l "" = false) by now apply String.eqb_neq.
  destruct ls as [|l' ls].
  - cbn [String.concat]. rewrite <- (append_empty_r l) at 1.
    rewrite (pieces_app l Hnl). cbn [pieces String.append]. now rewrite Hl.
  - change (String.concat newline (l :: l' :: ls))
      with (l +:+ String "010" (String.concat newline (l' :: ls))).
    rewrite (pieces_app l Hnl). cbn [pieces String.append Ascii.eqb Bool.eqb].
    now rewrite (IH Hrest).
Qed.

Lemma scanTokens_plain ls : Forall plainLine ls -> scanTokens ls = (ls, None).
Proof.
  induction 1 as [|l ls (_ & _ & Hcr & Hlen) _ IH]; [reflexivity|].
  cbn [scanTokens]. destruct (MaxScanTokenSize <=? Z.of_nat (String.length l)) eqn:E; [lia|].
  rewrite IH. unfold dropCR. now rewrite Hcr.
Qed.

Lemma Scanner_join ls :
  Forall plainLine ls -> Scanner (String.concat newline ls) = (ls, None).
Proof. intros H. unfold Scanner. rewrite (pieces_join ls H). now apply scanTokens_plain. Qed.

(** *** Trimmed lines *)

Lemma trim_from_fixed table s :
  strings.leadingSpace table s = None -> strings.trim_from table 0 s = s.
Proof. intros H. destruct s as [|c s]; [reflexivity|]. cbn [strings.trim_from]. now rewrite H. Qed.

Lemma leadingSpace_none_intro table s :
  (forall e, In e table -> ~ exists r, s = e +:+ r) -> strings.leadingSpace table s = None.
Proof.
  intros H. destruct (strings.leadingSpace table s) as [w|] eqn:E; [|reflexivity].
  destruct (leadingSpace_Some _ _ _ E) as (e & r & He & Hs & _).
  exfalso. apply (H e He). now exists r.
Qed.

Lemma TrimSpace_fixed s :
  (forall e, In e strings.whiteSpace ->
     ~ (exists r, s = e +:+ r) /\ ~ (exists r, s = r +:+ e)) ->
  strings.TrimSpace s = s.
Proof.
  intros H. unfold strings.TrimSpace, strings.TrimRightSpace, strings.TrimLeftSpace.
  rewrite (trim_from_fixed strings.whiteSpace s)
    by (apply leadingSpace_none_intro; intros e He; apply (H e He)).
  rewrite trim_from_fixed; [apply rev_involutive|].
  apply leadingSpace_none_intro. intros e' He' [r Hr].
  apply in_map_iff in He' as (e & <- & He).
  apply (proj2 (H e He)). exists (String.rev r).
  rewrite <- (rev_involutive s), Hr, rev_append, rev_involutive. reflexivity.
Qed.

Lemma TrimSpace_idem t : strings.TrimSpace (strings.TrimSpace t) = strings.TrimSpace t.
Proof.
  apply TrimSpace_fixed. intros e He.
  destruct (TrimSpace_spec t) as (_ & _ & _ & _ & _ & H). exact (H e He).
Qed.

Lemma cr_whiteSpace : In (String "013" "") strings.whiteSpace.
Proof. do 4 right. left. reflexivity. Qed.

Lemma TrimSpace_plain t :
  occurs "010" t = false -> Z.of_nat (String.length t) < MaxScanTokenSize ->
  strings.TrimSpace t <> "" -> plainLine (strings.TrimSpace t).
Proof.
  intros Hnl Hlen Hne.
  destruct (TrimSpace_spec t) as (pre & post & Ht & _ & _ & H).
  repeat split.
  - exact Hne.
  - rewrite Ht, !occurs_app in Hnl.
    apply orb_false_iff in Hnl as [_ Hnl]. now apply orb_false_iff in Hnl as [? _].
  - destruct (strings.HasSuffix (strings.TrimSpace t) (String "013" "")) eqn:E;
      [|reflexivity].
    apply HasSuffix_iff in E. exfalso. exact (proj2 (H _ cr_whiteSpace) E).
  - rewrite Ht, !length_app in Hlen. lia.
Qed.

(** *** The loop *)

Lemma keepLoop_closed lines : forall acc filePath,
  (fold_left (keepStep MatchString v excludedPatterns) lines (acc, filePath)).1
  = acc ++ keptLines MatchString v excludedPatterns lines.
Proof.
  unfold keptLines.
  induction lines as [|t lines IH]; intros acc filePath.
  - cbn. now rewrite app_nil_r.
  - cbn [fold_left fmap list_fmap List.filter].
    destruct (keepStep MatchString v excludedPatterns (acc, filePath) t)
      as [acc' filePath'] eqn:Hstep.
    rewrite IH.
    assert (Hacc : acc' = if keepOk MatchString v excludedPatterns (strings.TrimSpace t)
                          then acc ++ [strings.TrimSpace t] else acc).
    { unfold keepStep in Hstep. unfold keepOk.
      destruct (String.eqb (strings.TrimSpace t) ""); cbn [negb andb] in *;
        [now injection Hstep as <- _|].
      destruct (pathMatch (strings.TrimSpace t)) as [path|]; [|now injection Hstep as <- _].
      destruct (shouldExcludeFile MatchString v excludedPatterns path); cbn [negb] in *;
        now injection Hstep as <- _. }
    rewrite Hacc.
    destruct (keepOk MatchString v excludedPatterns (strings.TrimSpace t));
      [now rewrite <- app_assoc | reflexivity].
Qed.

Lemma keptLines_wf lines :
  Forall (fun t => occurs "010" t = false
                   /\ Z.of_nat (String.length t) < MaxScanTokenSize) lines ->
  Forall (fun l => plainLine l /\ strings.TrimSpace l = l
                   /\ keepOk MatchString v excludedPatterns l = true)
         (keptLines MatchString v excludedPatterns lines).
Proof.
  unfold keptLines. induction 1 as [|t lines [Hnl Hlen] _ IH]; [constructor|].
  cbn [fmap list_fmap List.filter].
  destruct (keepOk MatchString v excludedPatterns (strings.TrimSpace t)) eqn:E; [|exact IH].
  constructor; [|exact IH]. split; [|split; [apply TrimSpace_idem | exact E]].
  apply TrimSpace_plain; try assumption. intros Hempty. rewrite Hempty in E. discriminate E.
Qed.

Lemma keptLines_fixed ls :
  Forall (fun l => plainLine l /\ strings.TrimSpace l = l
                   /\ keepOk MatchString v excludedPatterns l = true) ls ->
  keptLines MatchString v excludedPatterns ls = ls.
Proof.
  unfold keptLines. induction 1 as [|l ls (_ & Ht & Hk) _ IH]; [reflexivity|].
  cbn [fmap list_fmap List.filter]. rewrite Ht, Hk. now rewrite IH.
Qed.

Lemma modifyCoverageFile_closed os covFile content lines :
  os_ReadFile os covFile = Ok content ->
  Scanner content = (lines, None) ->
  let c1 := String.concat newline (keptLines MatchString v excludedPatterns lines) in
  modifyCoverageFile MatchString v os covFile excludedPatterns
  = ([(covFile, c1)], os_WriteFile os covFile c1).
Proof.
  intros Hr Hs c1. subst c1. unfold modifyCoverageFile. rewrite Hr, Hs.
  pose proof (keepLoop_closed lines [] "") as H.
  destruct (fold_left (keepStep MatchString v excludedPatterns) lines ([], ""))
    as [filteredLines filePath].
  cbn [fst app] in H. now rewrite H.
Qed.

End Modify.

Section ModifyFacts.

Local Arguments String.append !_ _ / : simpl nomatch.

Lemma beforeColon_Some s : forall p,
  beforeColon s = Some p -> occurs ":" p = false /\ exists rest, s = p +:+ ":" +:+ rest.
Proof.
  induction s as [|c s IH]; intros p H; cbn [beforeColon] in H; [discriminate|].
  destruct (Ascii.eqb c ":") eqn:E.
  - injection H as <-. apply Ascii.eqb_eq in E as ->. split; [reflexivity|]. now exists s.
  - destruct (beforeColon s) as [p'|]; [|discriminate]. injection H as <-.
    destruct (IH p' eq_refl) as [Ho [rest ->]]. split.
    + cbn [occurs]. now rewrite E, Ho.
    + now exists rest.
Qed.

Lemma keepOk_true MatchString v excludedPatterns l :
  keepOk MatchString v excludedPatterns l = true ->
  exists path rest,
    l = path +:+ ":" +:+ rest /\ path <> "" /\ occurs ":" path = false
    /\ shouldExcludeFile MatchString v excludedPatterns path = false
    /\ strings.Contains path "easyjson" = false.
Proof.
  unfold keepOk, pathMatch. intros H. apply andb_true_iff in H as [_ H].
  destruct (beforeColon l) as [path|] eqn:Hb; [|discriminate].
  destruct (String.eqb path "") eqn:Hne; [discriminate|].
  apply negb_true_iff in H. apply String.eqb_neq in Hne.
  destruct (beforeColon_Some l path Hb) as [Ho [rest ->]].
  exists path, rest. repeat split; try assumption.
  destruct (strings.Contains path "easyjson") eqn:Hc; [|reflexivity].
  now rewrite (shouldExcludeFile_easyjson MatchString v excludedPatterns path Hc) in H.
Qed.

Lemma keptLines_plain MatchString v excludedPatterns content lines :
  Scanner content = (lines, None) ->
  Forall (fun l => plainLine l /\ strings.TrimSpace l = l
                   /\ keepOk MatchString v excludedPatterns l = true)
         (keptLines MatchString v excludedPatterns lines).
Proof. intros H. apply keptLines_wf. now apply (Scanner_lines content). Qed.

Lemma Forall_plain {P Q : string -> Prop} ls :
  Forall (fun l => plainLine l /\ P l /\ Q l) ls -> Forall plainLine ls.
Proof. intros H. eapply Forall_impl; [exact H|]. now intros l [? _]. Qed.

End ModifyFacts.

(** X14. What [modifyCoverageFile] does to the coverage file.  When the file
    cannot be read, or one of its lines does not fit the scanner's buffer,
    the error is returned and nothing is written.  Otherwise the file is
    rewritten once, and the lines of the new content are exactly the lines
    of the old one, trimmed of surrounding white space, that are not empty,
    begin with a non-empty path followed by a colon, and whose path
    [shouldExcludeFile] does not exclude, in their original order; lines
    without such a path are dropped, and every remaining path is free of
    "easyjson". *)
Theorem modifyCoverageFile_outcome (MatchString : Regexp) (v : utility.Vars) (os : Files)
    (covFile excludedPatterns : string) :
  let res := modifyCoverageFile MatchString v os covFile excludedPatterns in
  match os_ReadFile os covFile with
  | Err e => res = ([], Some e)
  | Ok content =>
      match Scanner content with
      | (_, Some e) => res = ([], Some e)
      | (lines, None) =>
          let kept := keptLines MatchString v excludedPatterns lines in
          exists c1,
            res = ([(covFile, c1)], os_WriteFile os covFile c1)
            /\ Scanner c1 = (kept, None)
            /\ (forall l, In l kept ->
                  (exists t, In t lines /\ l = strings.TrimSpace t)
                  /\ exists path rest,
                       l = path +:+ ":" +:+ rest /\ path <> "" /\ occurs ":" path = false
                       /\ shouldExcludeFile MatchString v excludedPatterns path = false
                       /\ strings.Contains path "easyjson" = false)
      end
  end.
Proof.
  cbv zeta.
  destruct (os_ReadFile os covFile) as [content|e] eqn:Hr.
  2:{ unfold modifyCoverageFile. now rewrite Hr. }
  destruct (Scanner content) as [lines [e|]] eqn:Hs.
  { unfold modifyCoverageFile. rewrite Hr, Hs.
    now destruct (fold_left _ lines ([], "")). }
  exists (String.concat newline (keptLines MatchString v excludedPatterns lines)).
  pose proof (keptLines_plain MatchString v excludedPatterns content lines Hs) as Hwf.
  split; [now apply (modifyCoverageFile_closed _ _ _ os covFile content)|].
  split; [apply Scanner_join, (Forall_plain _ Hwf)|].
  intros l Hl. split.
  - unfold keptLines in Hl. apply filter_In in Hl as [Hl _].
    apply in_map_iff in Hl as (t & <- & Ht). now exists t.
  - rewrite Forall_forall in Hwf. apply list_elem_of_In in Hl.
    destruct (Hwf l Hl) as (_ & _ & Hk). now apply keepOk_true in Hk.
Qed.

(** X15. Excluding is idempotent: when a run of [modifyCoverageFile] has
    rewritten the coverage file, a second run with the same patterns that
    reads the new content back writes that very content again. *)
Theorem modifyCoverageFile_idempotent (MatchString : Regexp) (v : utility.Vars)
    (os os' : Files) (covFile excludedPatterns content c1 : string) (e : option error) :
  os_ReadFile os covFile = Ok content ->
  modifyCoverageFile MatchString v os covFile excludedPatterns = ([(covFile, c1)], e) ->
  os_ReadFile os' covFile = Ok c1 ->
  modifyCoverageFile MatchString v os' covFile excludedPatterns
  = ([(covFile, c1)], os_WriteFile os' covFile c1).
Proof.
  intros Hr Hres Hr'.
  destruct (Scanner content) as [lines [e0|]] eqn:Hs.
  { unfold modifyCoverageFile in Hres. rewrite Hr, Hs in Hres.
    destruct (fold_left _ lines ([], "")). discriminate Hres. }
  rewrite (modifyCoverageFile_closed _ _ _ os covFile content lines Hr Hs) in Hres.
  injection Hres as <- _.
  pose proof (keptLines_plain MatchString v excludedPatterns content lines Hs) as Hwf.
  rewrite (modifyCoverageFile_closed MatchString v excludedPatterns os' covFile _ _ Hr'
             (Scanner_join _ (Forall_plain _ Hwf))).
  now rewrite (keptLines_fixed _ _ _ _ Hwf).
Qed.

Lemma modifyCoverageFile_idempotent_witness :
  modifyCoverageFile sampleRegexp sampleVars
    (sampleFiles ("mode: set" +:+ newline +:+ "github.com/org/svc/a.go:3.2,5.3 2 1"))
    "coverage.out" "*_mock.go"
  = ([("coverage.out", "mode: set" +:+ newline +:+ "github.com/org/svc/a.go:3.2,5.3 2 1")],
     None).
Proof.
  apply (modifyCoverageFile_idempotent sampleRegexp sampleVars
           (sampleFiles sampleCoverage)
           (sampleFiles ("mode: set" +:+ newline +:+ "github.com/org/svc/a.go:3.2,5.3 2 1"))
           "coverage.out" "*_mock.go" sampleCoverage
           ("mode: set" +:+ newline +:+ "github.com/org/svc/a.go:3.2,5.3 2 1") None).
  - reflexivity.
  - vm_compute. reflexivity.
  - reflexivity.
Defined.

(** * isInvalidLine and indentation *)

Section Indent.

Local Arguments String.append !_ _ / : simpl nomatch.

Lemma prefix_both (a b s : string) :
  String.prefix a s = true -> String.prefix b s = true ->
  String.prefix a b = true \/ String.prefix b a = true.
Proof.
  revert b s. induction a as [|x a IH]; intros b s Ha Hb.
  - left. now destruct b.
  - destruct b as [|y b]; [right; reflexivity|].
    destruct s as [|z s]; [discriminate|]. cbn [String.prefix] in *.
    destruct (ascii_dec x z) as [->|]; [|discriminate].
    destruct (ascii_dec y z) as [->|]; [|discriminate].
    destruct (ascii_dec z z) as [_|]; [|congruence].
    now apply (IH b s).
Qed.

Lemma whiteSpace_prefix_free e0 e :
  In e0 strings.whiteSpace -> In e strings.whiteSpace ->
  String.prefix e0 e = true -> e0 = e.
Proof.
  assert (H : forallb (fun a => forallb (fun b =>
                implb (String.prefix a b) (String.eqb a b)) strings.whiteSpace)
                strings.whiteSpace = true) by (vm_compute; reflexivity).
  intros H0 He Hp. rewrite forallb_forall in H. specialize (H e0 H0).
  rewrite forallb_forall in H. specialize (H e He). rewrite Hp in H.
  now apply String.eqb_eq.
Qed.

Lemma leadingSpace_entry e s :
  In e strings.whiteSpace ->
  strings.leadingSpace strings.whiteSpace (e +:+ s) = Some (String.length e).
Proof.
  intros He. unfold strings.leadingSpace.
  assert (Hpe : String.prefix e (e +:+ s) = true) by (apply prefix_iff; now exists s).
  destruct (List.find (fun w => String.prefix w (e +:+ s)) strings.whiteSpace)
    as [e0|] eqn:Hf.
  - apply find_some in Hf as [H0 Hp0]. cbn [fmap option_fmap option_map]. f_equal.
    destruct (prefix_both e0 e (e +:+ s) Hp0 Hpe) as [H|H].
    + now rewrite (whiteSpace_prefix_free e0 e H0 He H).
    + now rewrite (whiteSpace_prefix_free e e0 He H0 H).
  - exfalso. pose proof (find_none _ _ Hf e He) as H. cbv beta in H. congruence.
Qed.

Lemma TrimLeftSpace_entry e s :
  In e strings.whiteSpace -> strings.TrimLeftSpace (e +:+ s) = strings.TrimLeftSpace s.
Proof.
  intros He. unfold strings.TrimLeftSpace.
  pose proof (leadingSpace_entry e s He) as Hl.
  pose proof whiteSpace_nonempty as Hne. rewrite Forall_forall in Hne.
  destruct e as [|c e']; [exfalso; apply (Hne "" (proj2 (list_elem_of_In _ _) He)); reflexivity|].
  cbn [String.append] in *. cbn [strings.trim_from]. rewrite Hl.
  cbn [String.length]. replace (S (String.length e') - 1)%nat with (String.length e') by lia.
  now rewrite trim_from_skip, dropS_append.
Qed.

Lemma TrimLeftSpace_indent ws s :
  spacesOf strings.whiteSpace ws ->
  strings.TrimLeftSpace (ws +:+ s) = strings.TrimLeftSpace s.
Proof.
  intros (l & Hl & ->). induction Hl as [|e l He _ IH]; [reflexivity|].
  rewrite concat_cons, append_assoc, TrimLeftSpace_entry by exact He. exact IH.
Qed.

End Indent.

(** X16. Indentation does not matter to [isInvalidLine]: white space put in
    front of a line - spaces, tabs or any other run of runes with Unicode's
    White_Space property - leaves the answer unchanged; in particular a line
    of white space only is invalid. *)
Theorem isInvalidLine_indent (ws line : string) :
  spacesOf strings.whiteSpace ws ->
  isInvalidLine (ws +:+ line) = isInvalidLine line
  /\ isInvalidLine ws = true.
Proof.
  intros H. unfold isInvalidLine, strings.TrimSpace. split.
  - now rewrite TrimLeftSpace_indent.
  - rewrite <- (append_empty_r ws), TrimLeftSpace_indent by exact H. reflexivity.
Qed.

Lemma isInvalidLine_indent_witness :
  isInvalidLine ("  " +:+ "// note") = isInvalidLine "// note"
  /\ isInvalidLine "  " = true.
Proof.
  apply (isInvalidLine_indent "  " "// note").
  exists [" "; " "]. split; [|reflexivity].
  repeat constructor; do 5 right; left; reflexivity.
Defined.

(** * Reading the command's output back *)

Section ReadBack.

Local Arguments String.append !_ _ / : simpl nomatch.

Lemma digitsRun_uint d r :
  digitsRun (NilEmpty.string_of_uint d +:+ r)
  = (NilEmpty.string_of_uint d +:+ (digitsRun r).1, (digitsRun r).2).
Proof.
  induction d as [|d IH|d IH|d IH|d IH|d IH|d IH|d IH|d IH|d IH|d IH];
    cbn [NilEmpty.string_of_uint String.append];
    [now destruct (digitsRun r)|..];
    cbn [digitsRun]; rewrite IH; reflexivity.
Qed.

Lemma findTotal_uint d r : findTotal (NilEmpty.string_of_uint d +:+ r) = findTotal r.
Proof.
  induction d as [|d IH|d IH|d IH|d IH|d IH|d IH|d IH|d IH|d IH|d IH];
    cbn [NilEmpty.string_of_uint String.append]; [reflexivity|..];
    cbn [findTotal]; exact IH.
Qed.

Lemma string_of_uint_nonempty d : d <> Decimal.Nil -> NilEmpty.string_of_uint d <> "".
Proof. destruct d; [congruence|..]; discriminate. Qed.

Lemma Atoi_uint d :
  d <> Decimal.Nil ->
  strconv_Atoi (NilEmpty.string_of_uint d)
  = if Z.of_uint d <=? 2 ^ 63 - 1 then Ok (Z.of_uint d) else Err "value out of range".
Proof.
  intros Hd. pose proof (NilZero.usu d Hd) as H.
  assert (Hs : NilZero.string_of_uint d = NilEmpty.string_of_uint d) by now destruct d.
  rewrite Hs in H. unfold strconv_Atoi.
  destruct d; [congruence|..]; cbn [NilEmpty.string_of_uint] in *; rewrite H; reflexivity.
Qed.

Lemma parseTotalLines_pos p :
  parseTotalLines ("total " +:+ Sprintf_d (Z.pos p) +:+ " statements")
  = if Z.pos p <=? 2 ^ 63 - 1 then Z.pos p else 0.
Proof.
  unfold Sprintf_d. cbn [Z.to_int NilZero.string_of_int].
  pose proof (DecimalPos.Unsigned.to_uint_nonnil p) as Hd.
  assert (Hz : Z.of_uint (Pos.to_uint p) = Z.pos p).
  { unfold Z.of_uint. now rewrite DecimalPos.Unsigned.of_to. }
  assert (Hs : NilZero.string_of_uint (Pos.to_uint p)
               = NilEmpty.string_of_uint (Pos.to_uint p))
    by now destruct (Pos.to_uint p).
  rewrite Hs. set (ds := NilEmpty.string_of_uint (Pos.to_uint p)).
  assert (Hm : matchTotalAt ("total " +:+ ds +:+ " statements") = Some ds).
  { unfold matchTotalAt.
    assert (Hp : String.prefix "total " ("total " +:+ ds +:+ " statements") = true)
      by (apply prefix_iff; eexists; reflexivity).
    rewrite Hp. change 6%nat with (String.length "total "). rewrite dropS_append.
    subst ds. rewrite digitsRun_uint.
    assert (Hr : digitsRun " statements" = ("", " statements")) by reflexivity.
    rewrite Hr. cbn [fst snd]. rewrite append_empty_r.
    destruct (String.eqb _ "") eqn:E;
      [apply String.eqb_eq in E; now apply string_of_uint_nonempty in E|].
    reflexivity. }
  unfold parseTotalLines.
  assert (Hf : findTotal ("total " +:+ ds +:+ " statements") = Some ds).
  { destruct ("total " +:+ ds +:+ " statements"); cbn [findTotal]; now rewrite Hm. }
  rewrite Hf. subst ds. rewrite (Atoi_uint _ Hd), Hz.
  now destruct (Z.pos p <=? 2 ^ 63 - 1).
Qed.

Lemma parseTotalLines_neg p :
  parseTotalLines ("total " +:+ Sprintf_d (Z.neg p) +:+ " statements") = 0.
Proof.
  unfold Sprintf_d. cbn [Z.to_int NilZero.string_of_int].
  assert (Hs : NilZero.string_of_uint (Pos.to_uint p)
               = NilEmpty.string_of_uint (Pos.to_uint p)).
  { pose proof (DecimalPos.Unsigned.to_uint_nonnil p). now destruct (Pos.to_uint p). }
  rewrite Hs. unfold parseTotalLines.
  assert (Hf : findTotal ("total " +:+ String "-" (NilEmpty.string_of_uint (Pos.to_uint p))
                          +:+ " statements") = None).
  { cbn [String.append]. do 7 (cbn [findTotal]).
    rewrite findTotal_uint. reflexivity. }
  now rewrite Hf.
Qed.

End ReadBack.

(** X17. [parseTotalLines] reads back the total the command prints: on the
    line [total N statements] that the command's default template writes for
    a report it returns [NumStmt] when that count is not negative (and fits
    an int), and 0 when the count is negative, the expression having no
    place for a sign. *)
Theorem parseTotalLines_reads_total (d : main.CoverageData) :
  parseTotalLines (totalLine d)
  = if (0 <=? main.NumStmt d) && (main.NumStmt d <=? 2 ^ 63 - 1)
    then main.NumStmt d else 0.
Proof.
  unfold totalLine. destruct (main.NumStmt d) as [|p|p].
  - vm_compute. reflexivity.
  - rewrite parseTotalLines_pos. reflexivity.
  - rewrite parseTotalLines_neg. reflexivity.
Qed.

(** * Run *)

(** X18. The order of [Run]'s checks, for a command line that parses and
    asks neither for help nor for the version.  A missing coverage file
    argument is reported before any file is touched.  Without configured
    exclusions [Run] never writes the coverage file.  With exclusions and a
    coverage file that can be read, the file is rewritten before the diff
    argument is looked at: when that argument is missing the run fails - with
    the error of the missing argument, or with that of the exclusion when the
    write failed - and the coverage file has already been rewritten to the
    kept lines. *)
Theorem Run_checks (lib : Libraries) (MatchString : Regexp) (v : utility.Vars)
    (os : Files) (io : Inputs) (w : World) (args : list string) (c : Flags) :
  flag_Parse lib args = Ok c -> HelpFlag c = false -> VersionFlag c = false ->
  let covFile := nth 0 (Args c) "" in
  let excluded := utility.GetExcludedCodeFile v in
  let res := Run lib MatchString v os io w args in
  (covFile = "" -> res = ([], Some "missing coverage file argument"))
  /\ (excluded = "" -> res.1 = [])
  /\ (forall content lines,
        covFile <> "" -> excluded <> "" -> nth 1 (Args c) "" = "" ->
        os_ReadFile os covFile = Ok content -> Scanner content = (lines, None) ->
        let c1 := String.concat newline (keptLines MatchString v excluded lines) in
        res = ([(covFile, c1)],
               Some (match os_WriteFile os covFile c1 with
                     | None => "missing diff file argument"
                     | Some _ => "error in excluding code files"
                     end))).
Proof.
  intros Hp Hh Hv. cbv zeta. unfold Run. rewrite Hp, Hh, Hv. repeat split.
  - intros ->. reflexivity.
  - intros ->. cbn [String.eqb negb].
    repeat match goal with
           | |- context [if ?x then _ else _] => destruct x
           | |- context [match ?x with _ => _ end] => destruct x
           end; reflexivity.
  - intros content lines Hc He Hd Hr Hs.
    apply String.eqb_neq in Hc, He. rewrite Hc, He. cbn [negb].
    rewrite (modifyCoverageFile_closed MatchString v _ os _ content lines Hr Hs).
    destruct (os_WriteFile os _ _); [reflexivity|]. now rewrite Hd.
Qed.

Lemma Run_checks_witness :
  Run sampleLibs sampleRegexp sampleVars (sampleFiles sampleCoverage) inputsA world0
      ["coverage.out"]
  = ([("coverage.out",
       "mode: set" +:+ newline +:+ "github.com/org/svc/a.go:3.2,5.3 2 1")],
     Some "missing diff file argument").
Proof.
  refine (proj2 (proj2 (Run_checks sampleLibs sampleRegexp sampleVars
            (sampleFiles sampleCoverage) inputsA world0 ["coverage.out"]
            {| HelpFlag := false; VersionFlag := false; OutputFlag := "template";
               TemplateFlag := ""; Args := ["coverage.out"] |}
            eq_refl eq_refl eq_refl))
          sampleCoverage (Scanner sampleCoverage).1 _ _ eq_refl eq_refl _).
  - discriminate.
  - discriminate.
  - vm_compute. reflexivity.
Defined.

(** * A patch whose blocks were all executed *)

Lemma candidates_empty diffFiles ps :
  patchExecuted diffFiles ps ->
  forall a, partiallyCoveredLines a = ∅ ->
            partiallyCoveredLines (patchCoverage diffFiles ps a) = ∅.
Proof.
  intros H. unfold patchCoverage.
  apply (fold_left_inv (fun a => partiallyCoveredLines a = ∅)). intros a p Hp.
  unfold profileStep. revert a.
  apply (fold_left_inv (fun a => partiallyCoveredLines a = ∅)). intros a f Hf Ha.
  unfold fileStep.
  destruct (strings.HasSuffix (cover.FileName p) (gitdiff.NewName f)) eqn:Hm;
    cbn [negb]; [|exact Ha].
  apply HasSuffix_iff in Hm.
  revert a Ha. apply (fold_left_inv (fun a => partiallyCoveredLines a = ∅)).
  intros a b Hb Ha.
  unfold blockStep.
  destruct (scanFragments b (gitdiff.TextFragments f)) as [[n s]|] eqn:Hs; [|exact Ha].
  assert (Hc : 0 < cover.Count b).
  { apply (H p f b Hp Hf Hm Hb).
    destruct (scanFragments_Some _ _ _ _ Hs) as (t & j & line & Ht & Hj & Hop & -> & _ & Hin & _).
    exists t, j, line. auto. }
  unfold credit. apply Z.ltb_lt in Hc. rewrite Hc. exact Ha.
Qed.

(** X19. When every block that holds an added line of a matched diff file
    was executed, the patch is reported as fully covered: the two patch
    counters are equal and the uncovered-lines text is what reading back an
    empty side file gives. *)
Theorem executed_patch_fully_covered (w : World) (diffFiles : list gitdiff.File)
    (coverProfiles prevCoverProfiles : list cover.Profile) :
  patchExecuted diffFiles coverProfiles ->
  let r := (computeCoverage w diffFiles coverProfiles prevCoverProfiles).1 in
  PatchNumStmt r = PatchCoverCount r /\ Uncovered_lines r = readBack w "".
Proof.
  intros H r. subst r. rewrite computeCoverage_closed. cbn [fst].
  destruct (percentages_spec (rawReport w diffFiles coverProfiles prevCoverProfiles))
    as (_ & _ & -> & -> & _ & _ & _ & -> & _); [repeat split; reflexivity|].
  unfold rawReport. cbv zeta. cbn [PatchNumStmt PatchCoverCount Uncovered_lines].
  destruct (sums_inv_patchCoverage diffFiles coverProfiles) as [Hn Hc].
  pose proof (candidates_empty diffFiles coverProfiles H zeroAcc eq_refl) as HP.
  set (a := patchCoverage diffFiles coverProfiles zeroAcc) in *.
  rewrite HP in *. unfold takenBack. rewrite flat_map_nil, concat_empties.
  - split; [|reflexivity]. cbn [fold_left]. rewrite Hn, Hc, mapSum_empty. f_equal. lia.
  - intros k. unfold sectionOf. now rewrite lookup_total_empty.
  - intros k. now rewrite lookup_total_empty.
Qed.

Lemma executed_patch_fully_covered_witness :
  let r := (computeCoverage world0 [hunkAt9] [profileA 3] []).1 in
  PatchNumStmt r = PatchCoverCount r /\ Uncovered_lines r = readBack world0 "".
Proof.
  apply (executed_patch_fully_covered world0 [hunkAt9] [profileA 3] []).
  intros p f b [<-|[]] _ _ [<-|[]] _. reflexivity.
Defined.

(** * An empty report of uncovered lines *)

Section EmptyReport.

Local Arguments String.append !_ _ / : simpl nomatch.

Lemma append_empty_inv (a b : string) : a +:+ b = "" -> a = "" /\ b = "".
Proof. destruct a; [cbn; auto | discriminate]. Qed.

Lemma concat_empty_inv (l : list string) :
  String.concat "" l = "" -> forall s, In s l -> s = "".
Proof.
  induction l as [|x l IH]; intros H s [].
  - subst. rewrite concat_cons in H. now apply append_empty_inv in H.
  - rewrite concat_cons in H. apply append_empty_inv in H as [_ H]. now apply IH.
Qed.

Lemma sectionOf_empty P k : sectionOf P k = "" -> validLines (P !!! k) = [].
Proof.
  unfold sectionOf. destruct (validLines (P !!! k)) as [|l u]; [reflexivity|].
  cbn [length Nat.ltb Nat.leb]. unfold renderSection. cbn [String.append]. discriminate.
Qed.

Lemma no_valid_candidate w (P : gmap string (list Line.t)) :
  range_ok w ->
  String.concat "" (sectionOf P <$> rangeKeys w P) = "" ->
  mapSum validWeight P = 0.
Proof.
  intros Hw Hc.
  assert (H0 : forall k ls l, P !! k = Some ls -> In l ls -> validWeight l = 0).
  { intros k ls l Hk Hl.
    assert (Hin : In k (rangeKeys w P)).
    { apply (Permutation_in _ (Permutation_sym (Hw _))).
      apply list_elem_of_In. apply (list_elem_of_fmap_2' fst _ (k, ls)); [|reflexivity].
      now apply elem_of_map_to_list. }
    assert (Hs : sectionOf P k = "").
    { apply (concat_empty_inv _ Hc). apply in_map_iff. now exists k. }
    apply sectionOf_empty in Hs. rewrite (lookup_total_correct _ _ _ Hk) in Hs.
    unfold validWeight. destruct (isInvalidLine (Line.LineString l)) eqn:E; [reflexivity|].
    assert (Hv : In l (validLines ls)) by (apply filter_In; now rewrite E).
    rewrite Hs in Hv. destruct Hv. }
  pose proof (mapSum_le_on validWeight (fun _ => 0) P) as Hle.
  pose proof (mapSum_le_on (fun _ => 0) validWeight P) as Hge.
  rewrite mapSum_zero in Hle, Hge.
  assert (mapSum validWeight P <= 0)
    by (apply Hle; intros k ls l Hk Hl; rewrite (H0 k ls l Hk Hl); lia).
  assert (0 <= mapSum validWeight P)
    by (apply Hge; intros k ls l Hk Hl; rewrite (H0 k ls l Hk Hl); lia).
  lia.
Qed.

End EmptyReport.

(** X20. The text and the counters agree: when the side file can be written
    and read back, the map iteration visits every file once, and the report
    lists no uncovered line at all, the two patch counters are equal. *)
Theorem empty_report_counters_equal (w : World) (diffFiles : list gitdiff.File)
    (coverProfiles prevCoverProfiles : list cover.Profile) :
  range_ok w -> canCreate w = true -> canRead w = true ->
  let r := (computeCoverage w diffFiles coverProfiles prevCoverProfiles).1 in
  Uncovered_lines r = "" -> PatchNumStmt r = PatchCoverCount r.
Proof.
  intros Hw Hc Hr r Hu.
  destruct (final_patch_counters w diffFiles coverProfiles prevCoverProfiles Hw)
    as [Hn Hk].
  fold r in Hn, Hk. rewrite Hn, Hk. f_equal.
  subst r. rewrite computeCoverage_closed in Hu. cbn [fst] in Hu.
  destruct (percentages_spec (rawReport w diffFiles coverProfiles prevCoverProfiles))
    as (_ & _ & _ & _ & _ & _ & _ & Ht & _); [repeat split; reflexivity|].
  rewrite Ht in Hu. unfold rawReport in Hu. cbv zeta in Hu.
  cbn [Uncovered_lines] in Hu. unfold readBack in Hu. rewrite Hc, Hr in Hu.
  rewrite (no_valid_candidate w _ Hw Hu). lia.
Qed.

Lemma empty_report_counters_equal_witness :
  let r := (computeCoverage world0 [commentAt10] [blockAt10 0] []).1 in
  PatchNumStmt r = PatchCoverCount r.
Proof.
  apply (empty_report_counters_equal world0 [commentAt10] [blockAt10 0] []).
  - intros keys. apply Permutation_refl.
  - reflexivity.
  - reflexivity.
  - vm_compute. reflexivity.
Defined.
